(** * Deep Research backend: prompt budgeter, session store, research API

    A shallow embedding of the parts of the backend that the specification
    talks about:

    - [PromptBudgeter]: [trimPrompt] of [apps/backend/src/ai/providers.ts];
    - [SessionStore]: the [SessionManager] class of
      [apps/backend/src/session-manager.ts];
    - [ResearchApi]: the [/research] and [/progress/:sessionId] handlers,
      [sendProgressUpdate] and [validateBody] of the API server;
    - [Scheduler]: the concurrency pool of the recursive scheduler, whose
      source file is not available and which is modelled from the
      specification.

    JavaScript numbers that hold counts, lengths and timestamps are integers
    ([Z]); the percentage computation is carried out on IEEE 754 binary64
    values, as the division and the multiplication of JavaScript are. Dates
    are milliseconds since the epoch. *)

From Stdlib Require Import ZArith QArith Qround String Ascii List Lia Bool Sorted.
From Stdlib Require SpecFloat.
From stdpp Require Import gmap strings list fin_maps.

Local Close Scope Q_scope.
Local Open Scope Z_scope.

(* ===================================================================== *)
(** * Prompt budgeter *)
(* ===================================================================== *)

Module PromptBudgeter.

(** [encoder.encode] of js-tiktoken ([getEncoding('o200k_base')]): the
    tokenizer is an external library, so it is an interface here. *)
Class Encoder := encode : string -> list N.

(** [new RecursiveCharacterTextSplitter({ chunkSize, chunkOverlap: 0 })
    .splitText(text)]; [./text-splitter] is not among the sources, so the
    splitter is an interface too. *)
Class Splitter := splitText : Z -> string -> list string.

(** [const MinChunkSize = 140;] *)
Definition MinChunkSize : Z := 140.

(** [s.length] *)
Definition strlen (s : string) : Z := Z.of_nat (String.length s).

(** [s.slice(0, e)]: a negative end counts from the end of the string, an
    end beyond the string is clamped. *)
Definition slice0 (s : string) (e : Z) : string :=
  let e' := if e <? 0 then Z.max (strlen s + e) 0 else Z.min e (strlen s) in
  substring 0 (Z.to_nat e') s.

(** [!prompt] on a string *)
Definition is_empty (s : string) : bool :=
  match s with EmptyString => true | String _ _ => false end.

(** The stand-in tokenizer used in the examples: one token for every four
    characters (the last token may be shorter). The token ids are the
    character codes of the first character of each piece. *)
Fixpoint encode4_from (k : nat) (s : string) : list N :=
  match s with
  | EmptyString => nil
  | String c r =>
      match k with
      | O => N_of_ascii c :: encode4_from 3 r
      | S k' => encode4_from k' r
      end
  end.

Definition encode4 : Encoder := encode4_from 0.

(** The stand-in splitter used in the examples: the text is cut at line
    feeds, empty lines are dropped, and a line longer than [chunkSize] is
    cut after [chunkSize] characters. *)
Definition LF : ascii := ascii_of_nat 10.

Fixpoint lines (s : string) : list string :=
  match s with
  | EmptyString => EmptyString :: nil
  | String c r =>
      if Ascii.eqb c LF then EmptyString :: lines r
      else match lines r with
           | l :: ls => String c l :: ls
           | nil => String c EmptyString :: nil
           end
  end.

Definition cut_line (chunkSize : Z) (l : string) : list string :=
  if strlen l <=? chunkSize then l :: nil
  else slice0 l chunkSize
       :: substring (Z.to_nat chunkSize) (String.length l) l :: nil.

Definition lineSplitter : Splitter := fun chunkSize s =>
  flat_map (cut_line chunkSize)
           (List.filter (fun l => negb (is_empty l)) (lines s)).

(** A splitter that gives back its input unchanged, the case the hard cut
    of [trimPrompt] is there for. *)
Definition wholeSplitter : Splitter := fun _ s => s :: nil.

(** Sample inputs: a body of prose, and the same body under a short title
    line. *)
Fixpoint repeat_text (n : nat) (s : string) : string :=
  match n with
  | O => EmptyString
  | S k => (s ++ repeat_text k s)%string
  end.

Definition sample_body : string := repeat_text 100 "words ".

Definition sample_titled : string :=
  ("Intro line." ++ String LF sample_body)%string.

Section Trim.
Context {E : Encoder} {S_ : Splitter}.

(** [encoder.encode(prompt).length] *)
Definition tokens (s : string) : Z := Z.of_nat (List.length (encode s)).

(** [prompt.length - overflowTokens * 3] *)
Definition chunkSizeOf (prompt : string) (contextSize : Z) : Z :=
  let overflowTokens := tokens prompt - contextSize in
  strlen prompt - overflowTokens * 3.

(** One activation of [trimPrompt]. Both recursive calls of the source are
    tail calls ([return trimPrompt(...)]), so an activation either returns
    a value or hands over to the activation on another prompt. *)
Inductive activation : Type :=
| Return (result : string)
| TailCall (prompt : string).

Definition trimPrompt_body (prompt : string) (contextSize : Z) : activation :=
  if is_empty prompt then Return EmptyString
  else
    let length := tokens prompt in
    if length <=? contextSize then Return prompt
    else
      let overflowTokens := length - contextSize in
      let chunkSize := strlen prompt - overflowTokens * 3 in
      if chunkSize <? MinChunkSize then Return (slice0 prompt MinChunkSize)
      else
        let trimmedPrompt := hd EmptyString (splitText chunkSize prompt) in
        if strlen trimmedPrompt =? strlen prompt
        then TailCall (slice0 prompt chunkSize)
        else TailCall trimmedPrompt.

(** [trimPrompt] with a bound on the number of activations; [None] when the
    bound is reached before a value is returned. *)
Fixpoint trimPrompt_fuel (fuel : nat) (prompt : string) (contextSize : Z)
  : option string :=
  match fuel with
  | O => None
  | S fuel' =>
      match trimPrompt_body prompt contextSize with
      | Return r => Some r
      | TailCall p => trimPrompt_fuel fuel' p contextSize
      end
  end.

(** [trimPrompt(prompt, contextSize)]: one activation more than the prompt
    has characters is always enough for a splitter that does not lengthen
    its input (see [trimPrompt_total]). *)
Definition trimPrompt (prompt : string) (contextSize : Z) : option string :=
  trimPrompt_fuel (S (String.length prompt)) prompt contextSize.

(** The prompts of the successive activations started from one call. *)
Inductive activates (contextSize : Z) : string -> string -> Prop :=
| act_here p : activates contextSize p p
| act_next p q r :
    trimPrompt_body p contextSize = TailCall q ->
    activates contextSize q r ->
    activates contextSize p r.

(** What the budgeter relies on: the first chunk of the splitter is never
    longer than the text that was split. *)
Definition splitter_never_lengthens : Prop :=
  forall chunkSize s,
    strlen (hd EmptyString (splitText chunkSize s)) <= strlen s.

(** The contract of the budgeter as the specification words it: the result
    fits the budget, or it is the first [MinChunkSize] characters of the
    input. *)
Definition fits_or_floor_prefix (text : string) (budget : Z) (r : string)
  : Prop :=
  tokens r <= budget \/ r = slice0 text MinChunkSize.

End Trim.


(** ** Facts about the string helpers *)

Lemma substring0_length (n : nat) (s : string) :
  String.length (substring 0 n s) = Nat.min n (String.length s).
Proof.
  revert n; induction s as [|c s IH]; intros [|n]; simpl; auto.
Qed.

Lemma substring0_all (n : nat) (s : string) :
  (String.length s <= n)%nat -> substring 0 n s = s.
Proof.
  revert n; induction s as [|c s IH]; intros [|n] Hn; simpl in *;
    try reflexivity; try lia.
  f_equal. apply IH. lia.
Qed.

Lemma strlen_nonneg (s : string) : 0 <= strlen s.
Proof. unfold strlen. lia. Qed.

Lemma slice0_length (s : string) (e : Z) :
  0 <= e -> strlen (slice0 s e) = Z.min e (strlen s).
Proof.
  intros He. unfold slice0, strlen.
  destruct (Z.ltb_spec e 0) as [Hlt|_]; [lia|].
  rewrite substring0_length. lia.
Qed.

Lemma slice0_short (s : string) (e : Z) :
  strlen s <= e -> slice0 s e = s.
Proof.
  intros He. pose proof (strlen_nonneg s) as Hs. unfold slice0.
  destruct (Z.ltb_spec e 0) as [Hlt|_]; [lia|].
  apply substring0_all. unfold strlen in *. lia.
Qed.

Lemma is_empty_true (s : string) : is_empty s = true -> s = EmptyString.
Proof. destruct s; simpl; congruence. Qed.

Lemma lines_length_le (s l : string) :
  In l (lines s) -> (String.length l <= String.length s)%nat.
Proof.
  revert l; induction s as [|c s IH]; simpl; intros l Hl.
  - destruct Hl as [<-|[]]. simpl. lia.
  - destruct (Ascii.eqb c LF).
    + destruct Hl as [<-|Hl]; simpl; [lia|]. specialize (IH _ Hl). lia.
    + destruct (lines s) as [|l0 ls] eqn:El.
      * destruct Hl as [<-|[]]. simpl. lia.
      * destruct Hl as [<-|Hl]; simpl.
        -- specialize (IH l0 (or_introl eq_refl)). lia.
        -- specialize (IH l (or_intror Hl)). lia.
Qed.

(** The stand-in splitter satisfies the assumption made on splitters. *)
Lemma lineSplitter_never_lengthens :
  splitter_never_lengthens (S_ := lineSplitter).
Proof.
  intros chunkSize s. unfold splitText, lineSplitter.
  assert (Hall : forall l, In l (List.filter (fun l => negb (is_empty l)) (lines s)) ->
                           strlen l <= strlen s).
  { intros l Hl. apply filter_In in Hl as [Hl _].
    apply lines_length_le in Hl. unfold strlen. lia. }
  destruct (List.filter _ (lines s)) as [|l ls]; simpl.
  - apply strlen_nonneg.
  - specialize (Hall l (or_introl eq_refl)).
    unfold cut_line. destruct (Z.leb_spec (strlen l) chunkSize) as [Hle|Hgt]; simpl.
    + exact Hall.
    + destruct (Z.ltb_spec chunkSize 0) as [Hneg|Hpos].
      * unfold slice0. rewrite (proj2 (Z.ltb_lt _ _) Hneg).
        unfold strlen at 1. rewrite substring0_length.
        unfold strlen in *. lia.
      * rewrite slice0_length by lia. lia.
Qed.

Section TrimFacts.
Context {E : Encoder} {S_ : Splitter}.

(** The three ways an activation returns a value. *)
Lemma trimPrompt_body_Return (p r : string) (b : Z) :
  trimPrompt_body p b = Return r ->
  (p = EmptyString /\ r = EmptyString)
  \/ (tokens p <= b /\ r = p)
  \/ (b < tokens p /\ chunkSizeOf p b < MinChunkSize /\ r = slice0 p MinChunkSize).
Proof.
  unfold trimPrompt_body, chunkSizeOf.
  destruct (is_empty p) eqn:Ee.
  - intros [= <-]. left. split; [now apply is_empty_true|reflexivity].
  - destruct (Z.leb_spec (tokens p) b) as [Hle|Hgt].
    + intros [= <-]. right; left. auto.
    + destruct (Z.ltb_spec (strlen p - (tokens p - b) * 3) MinChunkSize) as [Hlt|Hge].
      * intros [= <-]. right; right. auto.
      * destruct (_ =? _); discriminate.
Qed.

(** The two ways an activation makes the recursive call. *)
Lemma trimPrompt_body_TailCall (p q : string) (b : Z) :
  trimPrompt_body p b = TailCall q ->
  b < tokens p /\ MinChunkSize <= chunkSizeOf p b /\
  let trimmedPrompt := hd EmptyString (splitText (chunkSizeOf p b) p) in
  (strlen trimmedPrompt = strlen p /\ q = slice0 p (chunkSizeOf p b))
  \/ (strlen trimmedPrompt <> strlen p /\ q = trimmedPrompt).
Proof.
  unfold trimPrompt_body, chunkSizeOf.
  destruct (is_empty p) eqn:Ee; [discriminate|].
  destruct (Z.leb_spec (tokens p) b) as [Hle|Hgt]; [discriminate|].
  destruct (Z.ltb_spec (strlen p - (tokens p - b) * 3) MinChunkSize) as [Hlt|Hge];
    [discriminate|].
  destruct (Z.eqb_spec (strlen (hd EmptyString (splitText (strlen p - (tokens p - b) * 3) p)))
                       (strlen p)) as [Heq|Hne];
    intros [= <-]; (split; [lia|split; [lia|]]); cbn zeta; [left|right]; auto.
Qed.

(** The hard cut takes at least three characters off. *)
Lemma hard_cut_shrinks (p : string) (b : Z) :
  b < tokens p -> MinChunkSize <= chunkSizeOf p b ->
  strlen (slice0 p (chunkSizeOf p b)) < strlen p.
Proof.
  intros Hb Hc. unfold MinChunkSize in Hc.
  rewrite slice0_length by lia. unfold chunkSizeOf in *. lia.
Qed.

Lemma trimPrompt_fuel_more (n m : nat) (p r : string) (b : Z) :
  (n <= m)%nat -> trimPrompt_fuel n p b = Some r -> trimPrompt_fuel m p b = Some r.
Proof.
  revert m p; induction n as [|n IH]; intros m p Hm; simpl; [discriminate|].
  destruct m as [|m]; [lia|]. simpl.
  destruct (trimPrompt_body p b); auto. apply IH. lia.
Qed.

(** A returned value is the value of the last activation of the chain. *)
Lemma trimPrompt_fuel_chain (n : nat) (p r : string) (b : Z) :
  trimPrompt_fuel n p b = Some r ->
  exists q, activates b p q /\ trimPrompt_body q b = Return r.
Proof.
  revert p; induction n as [|n IH]; intros p; simpl; [discriminate|].
  destruct (trimPrompt_body p b) as [r'|q] eqn:Eb.
  - intros [= <-]. exists p. split; [constructor|exact Eb].
  - intros H. destruct (IH _ H) as (q' & Hq' & Hr).
    exists q'. split; [econstructor; eauto|exact Hr].
Qed.

(** A value that was returned is returned again by a single activation. *)
Lemma trimPrompt_body_fixed (p r : string) (b : Z) :
  trimPrompt_body p b = Return r -> trimPrompt_body r b = Return r.
Proof.
  intros H. destruct (trimPrompt_body_Return _ _ _ H)
    as [[-> ->]|[[Hle ->]|(Hgt & Hc & ->)]]; try exact H.
  unfold trimPrompt_body.
  destruct (is_empty (slice0 p MinChunkSize)) eqn:Ee.
  - apply is_empty_true in Ee. now rewrite Ee.
  - destruct (Z.leb_spec (tokens (slice0 p MinChunkSize)) b) as [Hle|Hgt']; [reflexivity|].
    assert (Hlen : strlen (slice0 p MinChunkSize) <= MinChunkSize).
    { rewrite slice0_length by (unfold MinChunkSize; lia). lia. }
    destruct (Z.ltb_spec (strlen (slice0 p MinChunkSize)
                          - (tokens (slice0 p MinChunkSize) - b) * 3) MinChunkSize)
      as [Hlt|Hge]; [|lia].
    now rewrite (slice0_short (slice0 p MinChunkSize)) by exact Hlen.
Qed.

(** The prompt of an activation is the prompt of the call, or what an
    earlier activation of the chain handed over. *)
Lemma activates_last (b : Z) (p q : string) :
  activates b p q ->
  q = p \/ exists p0, activates b p p0 /\ trimPrompt_body p0 b = TailCall q.
Proof.
  induction 1 as [p|p q r Hb Hqr IH]; [now left|]. right.
  destruct IH as [->|(p0 & Hp0 & Hcall)].
  - exists p. split; [constructor|exact Hb].
  - exists p0. split; [econstructor; eauto|exact Hcall].
Qed.

(** A call whose first activation returns has no other activation. *)
Lemma activates_Return (b : Z) (p q r : string) :
  trimPrompt_body p b = Return r -> activates b p q -> q = p.
Proof.
  intros Hret Hq. destruct Hq as [p|p q' r' Hb _]; [reflexivity|congruence].
Qed.

(** An activation returns exactly when its prompt fits the budget or its
    estimated chunk size is under the floor; the empty prompt is one of
    the two. *)
Lemma trimPrompt_body_returns (p : string) (b : Z) :
  (exists r, trimPrompt_body p b = Return r)
  <-> tokens p <= b \/ chunkSizeOf p b < MinChunkSize.
Proof.
  split.
  - intros [r Hret].
    destruct (trimPrompt_body_Return _ _ _ Hret)
      as [[-> _]|[[Hle _]|(_ & Hc & _)]]; auto.
    destruct (Z.le_gt_cases (tokens EmptyString) b) as [Hle|Hgt]; [now left|].
    right. unfold chunkSizeOf, strlen, MinChunkSize. simpl. lia.
  - intros H. unfold trimPrompt_body. fold (chunkSizeOf p b).
    destruct (is_empty p); [eauto|].
    destruct (Z.leb_spec (tokens p) b) as [Hle|Hgt]; [eauto|].
    destruct H as [Hle|Hc]; [lia|].
    rewrite (proj2 (Z.ltb_lt _ _) Hc). eauto.
Qed.

Section WithSplitter.
Hypothesis Hsplit : splitter_never_lengthens.

(** Every recursive call is on a strictly shorter prompt. *)
Lemma trimPrompt_body_shrinks (p q : string) (b : Z) :
  trimPrompt_body p b = TailCall q -> strlen q < strlen p.
Proof.
  intros H. destruct (trimPrompt_body_TailCall _ _ _ H) as (Hb & Hc & Hq).
  cbn zeta in Hq. destruct Hq as [[_ ->]|[Hne ->]].
  - now apply hard_cut_shrinks.
  - pose proof (Hsplit (chunkSizeOf p b) p). lia.
Qed.

Lemma trimPrompt_fuel_total (n : nat) (p : string) (b : Z) :
  (String.length p < n)%nat -> exists r, trimPrompt_fuel n p b = Some r.
Proof.
  revert p; induction n as [|n IH]; intros p Hn; [lia|]. simpl.
  destruct (trimPrompt_body p b) as [r|q] eqn:Eb; [eauto|].
  apply IH. apply trimPrompt_body_shrinks in Eb. unfold strlen in Eb. lia.
Qed.

Lemma trimPrompt_total (p : string) (b : Z) : exists r, trimPrompt p b = Some r.
Proof. apply trimPrompt_fuel_total. lia. Qed.

Lemma activates_le (b : Z) (p q : string) :
  activates b p q -> strlen q <= strlen p.
Proof.
  induction 1 as [p|p q r Hb _ IH]; [lia|].
  apply trimPrompt_body_shrinks in Hb. lia.
Qed.


(** ** The contract of [trimPrompt] *)

(** C1 (as amended): for every text and every budget, and a splitter that
    never lengthens its input, [trimPrompt] returns a value [r], and with
    [p] the prompt of the activation that returns: either [p] fits the
    budget and [r] is [p], or [p] is over budget, its estimated chunk size
    is below 140 and [r] is the first 140 characters of [p] (all of [p]
    when it is shorter), so that [r] has at most 140 characters. [p] is the
    input itself exactly when the input fits the budget or the estimate of
    the input is already below 140; otherwise [p] is what an earlier
    activation handed over, on an over-budget prompt with an estimate of at
    least 140: the first chunk of the splitter, or the hard cut when that
    chunk is as long as the prompt, in both cases strictly shorter than
    the prompt it was taken from. *)
Theorem trimPrompt_fits_or_floor (text : string) (budget : Z) :
  exists r p,
    trimPrompt text budget = Some r
    /\ activates budget text p
    /\ ((tokens r <= budget /\ r = p)
        \/ (budget < tokens p /\ chunkSizeOf p budget < MinChunkSize
            /\ r = slice0 p MinChunkSize /\ strlen r <= MinChunkSize))
    /\ (p = text
        <-> tokens text <= budget \/ chunkSizeOf text budget < MinChunkSize)
    /\ (p <> text ->
        exists p0,
          activates budget text p0
          /\ budget < tokens p0 /\ MinChunkSize <= chunkSizeOf p0 budget
          /\ strlen p < strlen p0
          /\ let chunk := hd EmptyString (splitText (chunkSizeOf p0 budget) p0) in
             (strlen chunk <> strlen p0 /\ p = chunk)
             \/ (strlen chunk = strlen p0
                 /\ p = slice0 p0 (chunkSizeOf p0 budget))).
Proof.
  destruct (trimPrompt_total text budget) as [r Hr].
  destruct (trimPrompt_fuel_chain _ _ _ _ Hr) as (p & Hp & Hret).
  exists r, p. split; [exact Hr|]. split; [exact Hp|].
  split; [|split].
  - destruct (trimPrompt_body_Return _ _ _ Hret)
      as [[-> ->]|[[Hle ->]|(Hgt & Hc & ->)]].
    + destruct (Z.le_gt_cases (tokens EmptyString) budget) as [Hle|Hgt];
        [left; now split|].
      right. split; [exact Hgt|].
      split; [unfold chunkSizeOf, strlen, MinChunkSize; simpl; lia|].
      split; [reflexivity|]. unfold strlen, MinChunkSize. simpl. lia.
    + left. now split.
    + right. split; [exact Hgt|]. split; [exact Hc|]. split; [reflexivity|].
      rewrite slice0_length by (unfold MinChunkSize; lia). lia.
  - split.
    + intros ->. apply trimPrompt_body_returns. eauto.
    + intros H. apply trimPrompt_body_returns in H as [r' Hret'].
      exact (activates_Return _ _ _ _ Hret' Hp).
  - intros Hne. destruct (activates_last _ _ _ Hp) as [->|(p0 & Hp0 & Hcall)];
      [contradiction|].
    exists p0. split; [exact Hp0|].
    destruct (trimPrompt_body_TailCall _ _ _ Hcall) as (Hgt & Hc & Hq).
    split; [exact Hgt|]. split; [exact Hc|].
    split; [exact (trimPrompt_body_shrinks _ _ _ Hcall)|].
    cbn zeta in Hq |- *. destruct Hq as [[Hsame ->]|[Hdiff ->]].
    * right. now split.
    * left. now split.
Qed.

(** C2: for every text and every budget (positive or not), and a splitter
    that never lengthens its input, [trimPrompt] returns a value and
    trimming that value again gives it back:
    [trimPrompt (trimPrompt text budget) budget = trimPrompt text budget].
    For any splitter at all, a value that a call returns is a fixed point
    of [trimPrompt]. *)
Theorem trimPrompt_idempotent (text : string) (budget : Z) :
  (exists r,
     trimPrompt text budget = Some r /\ trimPrompt r budget = Some r)
  /\ (forall fuel r,
        trimPrompt_fuel fuel text budget = Some r ->
        trimPrompt r budget = Some r).
Proof.
  assert (Hfix : forall fuel r,
             trimPrompt_fuel fuel text budget = Some r ->
             trimPrompt r budget = Some r).
  { intros fuel r Hr.
    destruct (trimPrompt_fuel_chain _ _ _ _ Hr) as (q & _ & Hret).
    apply trimPrompt_body_fixed in Hret.
    unfold trimPrompt. simpl. now rewrite Hret. }
  split; [|exact Hfix].
  destruct (trimPrompt_total text budget) as [r Hr]. exists r.
  split; [exact Hr|]. exact (Hfix _ _ Hr).
Qed.

(** C3: for every input and every budget, and a splitter that never
    lengthens its input, [trimPrompt] terminates with a value; every
    recursive call is on a strictly shorter prompt, the call made when the
    splitter gave back a chunk as long as the prompt being the hard cut
    [prompt.slice(0, chunkSize)]; and an activation returns only on the
    empty prompt, on a prompt within the budget, or when the chunk size
    falls under the floor of 140. *)
Theorem trimPrompt_terminates (text : string) (budget : Z) :
  (exists r, trimPrompt text budget = Some r)
  /\ (forall p q,
        activates budget text p -> trimPrompt_body p budget = TailCall q ->
        strlen q < strlen p
        /\ (strlen (hd EmptyString (splitText (chunkSizeOf p budget) p)) = strlen p ->
            q = slice0 p (chunkSizeOf p budget)))
  /\ (forall p r,
        activates budget text p -> trimPrompt_body p budget = Return r ->
        p = EmptyString \/ tokens p <= budget
        \/ chunkSizeOf p budget < MinChunkSize).
Proof.
  split; [apply trimPrompt_total|]. split.
  - intros p q _ Hb. split; [now apply trimPrompt_body_shrinks in Hb|].
    intros Hsame. destruct (trimPrompt_body_TailCall _ _ _ Hb) as (_ & _ & Hq).
    cbn zeta in Hq. destruct Hq as [[_ ->]|[Hne _]]; [reflexivity|contradiction].
  - intros p r _ Hb.
    destruct (trimPrompt_body_Return _ _ _ Hb) as [[-> _]|[[Hle _]|(_ & Hc & _)]];
      auto.
Qed.

End WithSplitter.
End TrimFacts.

(** ** The contract on the sample inputs *)

(** C1, the claim as stated fails: under a budget of two tokens the titled
    sample is first split at the line feed (the estimated chunk size, 159,
    is above the floor), the title line has three tokens and an estimated
    chunk size of 8, so it is returned as it is: eleven characters that
    neither fit the budget nor are the first 140 characters of the input. *)
Lemma trimPrompt_floor_not_input_prefix :
  0 < 2
  /\ trimPrompt (E := encode4) (S_ := lineSplitter) sample_titled 2
     = Some "Intro line."%string
  /\ ~ fits_or_floor_prefix (E := encode4) sample_titled 2 "Intro line."%string.
Proof.
  split; [lia|]. split; [vm_compute; reflexivity|].
  intros [Hfit|Hpre].
  - vm_compute in Hfit. apply Hfit. reflexivity.
  - vm_compute in Hpre. discriminate Hpre.
Qed.

Lemma trimPrompt_fits_or_floor_witness :
  splitter_never_lengthens (S_ := lineSplitter)
  /\ exists r p,
      trimPrompt (E := encode4) (S_ := lineSplitter) sample_titled 2 = Some r
      /\ activates (E := encode4) (S_ := lineSplitter) 2 sample_titled p
      /\ ((tokens (E := encode4) r <= 2 /\ r = p)
          \/ (2 < tokens (E := encode4) p
              /\ chunkSizeOf (E := encode4) p 2 < MinChunkSize
              /\ r = slice0 p MinChunkSize /\ strlen r <= MinChunkSize))
      /\ (p = sample_titled
          <-> tokens (E := encode4) sample_titled <= 2
              \/ chunkSizeOf (E := encode4) sample_titled 2 < MinChunkSize)
      /\ (p <> sample_titled ->
          exists p0,
            activates (E := encode4) (S_ := lineSplitter) 2 sample_titled p0
            /\ 2 < tokens (E := encode4) p0
            /\ MinChunkSize <= chunkSizeOf (E := encode4) p0 2
            /\ strlen p < strlen p0
            /\ let chunk :=
                 hd EmptyString
                    (splitText (Splitter := lineSplitter)
                               (chunkSizeOf (E := encode4) p0 2) p0) in
               (strlen chunk <> strlen p0 /\ p = chunk)
               \/ (strlen chunk = strlen p0
                   /\ p = slice0 p0 (chunkSizeOf (E := encode4) p0 2))).
Proof.
  split; [exact lineSplitter_never_lengthens|].
  exact (trimPrompt_fits_or_floor (E := encode4) (S_ := lineSplitter)
           lineSplitter_never_lengthens sample_titled 2).
Defined.

Lemma trimPrompt_idempotent_witness :
  splitter_never_lengthens (S_ := lineSplitter)
  /\ exists r,
      trimPrompt (E := encode4) (S_ := lineSplitter) sample_body 100 = Some r
      /\ trimPrompt (E := encode4) (S_ := lineSplitter) r 100 = Some r.
Proof.
  split; [exact lineSplitter_never_lengthens|].
  exact (proj1 (trimPrompt_idempotent (E := encode4) (S_ := lineSplitter)
                  lineSplitter_never_lengthens sample_body 100)).
Defined.

Lemma trimPrompt_terminates_witness :
  splitter_never_lengthens (S_ := lineSplitter)
  /\ exists r,
      trimPrompt (E := encode4) (S_ := lineSplitter) sample_body 100 = Some r.
Proof.
  split; [exact lineSplitter_never_lengthens|].
  exact (proj1 (trimPrompt_terminates (E := encode4) (S_ := lineSplitter)
                  lineSplitter_never_lengthens sample_body 100)).
Defined.

(** With the splitter that gives its input back, every step is a hard cut:
    the first call goes on with the first 450 characters. *)
Example trimPrompt_hard_cut :
  trimPrompt_body (E := encode4) (S_ := wholeSplitter) sample_body 100
  = TailCall (slice0 sample_body 450)
  /\ option_map strlen
       (trimPrompt (E := encode4) (S_ := wholeSplitter) sample_body 100)
     = Some 399.
Proof. split; vm_compute; reflexivity. Qed.

(** The sample body (600 characters, 150 tokens) under a budget of 100
    tokens: the chunk sizes 450, 411, 402 and 399 follow one another, and
    the 399 characters that remain make exactly 100 tokens. *)
Example trimPrompt_sample_body :
  option_map (fun r => (strlen r, tokens (E := encode4) r))
             (trimPrompt (E := encode4) (S_ := lineSplitter) sample_body 100)
  = Some (399, 100).
Proof. vm_compute. reflexivity. Qed.
End PromptBudgeter.

(* ===================================================================== *)
(** * Session store *)
(* ===================================================================== *)

Module SessionStore.

(** ['pending' | 'running' | 'completed' | 'error'] *)
Inductive Status : Type := pending | running | completed | error.

(** [ResearchProgress] of the shared types package. *)
Record ResearchProgress : Type := mkResearchProgress {
  p_sessionId : string;
  p_currentDepth : Z;
  p_totalDepth : Z;
  p_currentBreadth : Z;
  p_totalBreadth : Z;
  p_currentQuery : option string;
  p_totalQueries : Z;
  p_completedQueries : Z;
  p_status : Status;
  p_progress : Z;
  p_message : option string
}.

(** [ResearchResult] of the shared types package; [r_timestamp] is the
    instant that [toISOString()] renders. *)
Record ResearchResult : Type := mkResearchResult {
  r_sessionId : string;
  r_query : string;
  r_learnings : list string;
  r_visitedUrls : list string;
  r_report : option string;
  r_timestamp : Z;
  r_duration : Z;
  r_success : bool;
  r_error : option string
}.

(** [interface SessionData] *)
Record SessionData : Type := mkSessionData {
  sessionId : string;
  query : string;
  breadth : Z;
  depth : Z;
  status : Status;
  progress : option ResearchProgress;
  result : option ResearchResult;
  createdAt : Z;
  updatedAt : Z;
  expiresAt : Z
}.

(** [private sessions: Map<string, SessionData>] *)
Abbreviation Sessions := (gmap string SessionData).

(** [SESSION_EXPIRY_MS = 24 * 60 * 60 * 1000] *)
Definition SESSION_EXPIRY_MS : Z := 24 * 60 * 60 * 1000.

(** [CLEANUP_INTERVAL_MS = 60 * 60 * 1000] *)
Definition CLEANUP_INTERVAL_MS : Z := 60 * 60 * 1000.

(** [createSession(query, breadth, depth)]; [uuid] is the value drawn by
    [uuidv4()] and [now] the value of [new Date()]. *)
Definition createSession (uuid : string) (now : Z)
    (query : string) (breadth depth : Z) (sessions : Sessions)
  : string * Sessions :=
  let expiresAt := now + SESSION_EXPIRY_MS in
  let sessionData :=
    {| sessionId := uuid; query := query; breadth := breadth; depth := depth;
       status := pending; progress := None; result := None;
       createdAt := now; updatedAt := now; expiresAt := expiresAt |} in
  (uuid, <[uuid := sessionData]> sessions).

(** [getSession(sessionId)]: an expired entry is deleted by the read. *)
Definition getSession (now : Z) (sid : string) (sessions : Sessions)
  : option SessionData * Sessions :=
  match sessions !! sid with
  | None => (None, sessions)
  | Some session =>
      if expiresAt session <? now then (None, delete sid sessions)
      else (Some session, sessions)
  end.

(** [updateSessionStatus(sessionId, status)] *)
Definition updateSessionStatus (now : Z) (sid : string) (st : Status)
    (sessions : Sessions) : Sessions :=
  match sessions !! sid with
  | Some session =>
      <[sid := {| sessionId := sessionId session; query := query session;
                  breadth := breadth session; depth := depth session;
                  status := st;
                  progress := progress session; result := result session;
                  createdAt := createdAt session; updatedAt := now;
                  expiresAt := expiresAt session |}]> sessions
  | None => sessions
  end.

(** [updateSessionProgress(sessionId, progress)] *)
Definition updateSessionProgress (now : Z) (sid : string)
    (p : ResearchProgress) (sessions : Sessions) : Sessions :=
  match sessions !! sid with
  | Some session =>
      <[sid := {| sessionId := sessionId session; query := query session;
                  breadth := breadth session; depth := depth session;
                  status := status session;
                  progress := Some p; result := result session;
                  createdAt := createdAt session; updatedAt := now;
                  expiresAt := expiresAt session |}]> sessions
  | None => sessions
  end.

(** [updateSessionResult(sessionId, result)] *)
Definition updateSessionResult (now : Z) (sid : string)
    (r : ResearchResult) (sessions : Sessions) : Sessions :=
  match sessions !! sid with
  | Some session =>
      <[sid := {| sessionId := sessionId session; query := query session;
                  breadth := breadth session; depth := depth session;
                  status := completed;
                  progress := progress session; result := Some r;
                  createdAt := createdAt session; updatedAt := now;
                  expiresAt := expiresAt session |}]> sessions
  | None => sessions
  end.

(** [setSessionError(sessionId, error)] *)
Definition setSessionError (now : Z) (sid : string) (err : string)
    (sessions : Sessions) : Sessions :=
  match sessions !! sid with
  | Some session =>
      <[sid := {| sessionId := sessionId session; query := query session;
                  breadth := breadth session; depth := depth session;
                  status := error;
                  progress := progress session;
                  result := Some {| r_sessionId := sid;
                                    r_query := query session;
                                    r_learnings := nil;
                                    r_visitedUrls := nil;
                                    r_report := None;
                                    r_timestamp := now;
                                    r_duration := 0;
                                    r_success := false;
                                    r_error := Some err |};
                  createdAt := createdAt session; updatedAt := now;
                  expiresAt := expiresAt session |}]> sessions
  | None => sessions
  end.

(** [deleteSession(sessionId)]: [Map.delete] tells whether the key was
    there. *)
Definition deleteSession (sid : string) (sessions : Sessions)
  : bool * Sessions :=
  (bool_decide (is_Some (sessions !! sid)), delete sid sessions).

(** [getAllSessions()]: the entries that have not expired. *)
Definition getAllSessions (now : Z) (sessions : Sessions) : list SessionData :=
  List.filter (fun session => now <=? expiresAt session)
              (snd <$> map_to_list sessions).

(** [cleanupExpiredSessions()]: the expired ids are collected first and
    then deleted one by one. *)
Definition cleanupExpiredSessions (now : Z) (sessions : Sessions) : Sessions :=
  let expiredSessions :=
    fst <$> List.filter (fun '(_, session) => expiresAt session <? now)
                        (map_to_list sessions) in
  fold_left (fun m sid => delete sid m) expiredSessions sessions.

(** The calls a client of the store can make, each with the clock value
    that the call reads. *)
Inductive store_op : Type :=
| CreateSession (uuid : string) (now : Z) (query : string) (breadth depth : Z)
| GetSession (now : Z) (sid : string)
| UpdateSessionStatus (now : Z) (sid : string) (st : Status)
| UpdateSessionProgress (now : Z) (sid : string) (p : ResearchProgress)
| UpdateSessionResult (now : Z) (sid : string) (r : ResearchResult)
| SetSessionError (now : Z) (sid : string) (err : string)
| DeleteSession (sid : string)
| GetAllSessions (now : Z)
| CleanupExpiredSessions (now : Z).

Definition apply_op (op : store_op) (sessions : Sessions) : Sessions :=
  match op with
  | CreateSession uuid now q b d => snd (createSession uuid now q b d sessions)
  | GetSession now sid => snd (getSession now sid sessions)
  | UpdateSessionStatus now sid st => updateSessionStatus now sid st sessions
  | UpdateSessionProgress now sid p => updateSessionProgress now sid p sessions
  | UpdateSessionResult now sid r => updateSessionResult now sid r sessions
  | SetSessionError now sid err => setSessionError now sid err sessions
  | DeleteSession sid => snd (deleteSession sid sessions)
  | GetAllSessions _ => sessions
  | CleanupExpiredSessions now => cleanupExpiredSessions now sessions
  end.

(** The store after a sequence of calls on the empty store of a fresh
    [SessionManager]. *)
Definition run_ops (ops : list store_op) : Sessions :=
  fold_left (fun m op => apply_op op m) ops ∅.

(** Every entry was made by [createSession]: it sits under its own id and
    expires [SESSION_EXPIRY_MS] after its creation. *)
Definition store_wf (sessions : Sessions) : Prop :=
  forall sid d, sessions !! sid = Some d ->
    sessionId d = sid /\ expiresAt d = createdAt d + SESSION_EXPIRY_MS.

(** Completed and Error are the terminal statuses. *)
Definition terminal (st : Status) : bool :=
  match st with completed | error => true | _ => false end.

(** The transitions the specification allows: Pending to Running, Running to
    Completed or Error, and no change. *)
Definition status_step (a b : Status) : bool :=
  match a, b with
  | pending, pending | pending, running
  | running, running | running, completed | running, error
  | completed, completed | error, error => true
  | _, _ => false
  end.

(** The calls that write the status or the result of session [sid]. *)
Definition writes_status_of (sid : string) (op : store_op) : bool :=
  match op with
  | CreateSession uuid _ _ _ _ => bool_decide (uuid = sid)
  | UpdateSessionStatus _ sid' _
  | UpdateSessionResult _ sid' _
  | SetSessionError _ sid' _ => bool_decide (sid' = sid)
  | _ => false
  end.

(** A sample store: one session created at time 0 and completed at time
    500. *)
Definition sample_result : ResearchResult :=
  {| r_sessionId := "s1"; r_query := "q"; r_learnings := "fact" :: nil;
     r_visitedUrls := "https://example.org" :: nil; r_report := Some "report"%string;
     r_timestamp := 500; r_duration := 500; r_success := true;
     r_error := None |}.

Definition sample_completed : Sessions :=
  run_ops (CreateSession "s1" 0 "q" 4 2
           :: UpdateSessionStatus 0 "s1" running
           :: UpdateSessionResult 500 "s1" sample_result :: nil).

(** ** Lookups after each call *)

Lemma fold_delete_lookup (l : list string) (m : Sessions) (k : string) :
  fold_left (fun m sid => delete sid m) l m !! k
  = if decide (k ∈ l) then None else m !! k.
Proof.
  revert m; induction l as [|a l IH]; intros m; simpl.
  - destruct (decide (k ∈ [])) as [Hin|_]; [inversion Hin|reflexivity].
  - rewrite IH. destruct (decide (k ∈ l)) as [Hin|Hnin].
    + rewrite decide_True; [reflexivity|]. now right.
    + destruct (decide (k = a)) as [->|Hne].
      * rewrite lookup_delete_eq. rewrite decide_True; [reflexivity|]. left.
      * rewrite lookup_delete_ne by congruence.
        rewrite decide_False; [reflexivity|].
        intros Hin. apply elem_of_cons in Hin as [?|?]; congruence.
Qed.

Lemma expired_ids_spec (now : Z) (sessions : Sessions) (k : string) :
  k ∈ (fst <$> List.filter (fun '(_, session) => expiresAt session <? now)
                           (map_to_list sessions))
  <-> exists d, sessions !! k = Some d /\ expiresAt d < now.
Proof.
  rewrite list_elem_of_fmap. split.
  - intros ([k' d] & -> & Hin). apply list_elem_of_In, filter_In in Hin as [Hin Hexp].
    apply list_elem_of_In, elem_of_map_to_list in Hin.
    exists d. split; [exact Hin|]. now apply Z.ltb_lt.
  - intros (d & Hd & Hexp). exists (k, d). split; [reflexivity|].
    apply list_elem_of_In, filter_In. split.
    + now apply list_elem_of_In, elem_of_map_to_list.
    + now apply Z.ltb_lt.
Qed.

Lemma cleanup_lookup (now : Z) (sessions : Sessions) (k : string) :
  cleanupExpiredSessions now sessions !! k
  = match sessions !! k with
    | Some d => if expiresAt d <? now then None else Some d
    | None => None
    end.
Proof.
  unfold cleanupExpiredSessions. rewrite fold_delete_lookup.
  destruct (decide (k ∈ _)) as [Hin|Hnin].
  - apply expired_ids_spec in Hin as (d & -> & Hexp).
    now rewrite (proj2 (Z.ltb_lt _ _) Hexp).
  - destruct (sessions !! k) as [d|] eqn:Hk; [|reflexivity].
    destruct (Z.ltb_spec (expiresAt d) now) as [Hexp|_]; [|reflexivity].
    exfalso. apply Hnin, expired_ids_spec. eauto.
Qed.

Lemma getSession_lookup (now : Z) (sid k : string) (sessions : Sessions) :
  snd (getSession now sid sessions) !! k
  = if decide (k = sid)
    then match sessions !! sid with
         | Some d => if expiresAt d <? now then None else Some d
         | None => None
         end
    else sessions !! k.
Proof.
  unfold getSession. destruct (sessions !! sid) as [d|] eqn:Hs; simpl.
  - destruct (expiresAt d <? now); simpl.
    + destruct (decide (k = sid)) as [->|Hne];
        [apply lookup_delete_eq|now apply lookup_delete_ne].
    + destruct (decide (k = sid)) as [->|Hne]; [exact Hs|reflexivity].
  - destruct (decide (k = sid)) as [->|Hne]; [exact Hs|reflexivity].
Qed.

(** A call that does not write the status or the result of [sid] leaves
    both as they were, as long as the entry is still there. *)
Lemma apply_op_frame (op : store_op) (sessions : Sessions) (sid : string)
    (d d' : SessionData) :
  writes_status_of sid op = false ->
  sessions !! sid = Some d -> apply_op op sessions !! sid = Some d' ->
  status d' = status d /\ result d' = result d.
Proof.
  intros Hw Hd Hd'. destruct op as [uuid now q b dp|now k|now k st|now k p
                                   |now k r|now k e|k|now|now]; simpl in *.
  - apply bool_decide_eq_false in Hw.
    rewrite lookup_insert_ne in Hd' by exact Hw. split; congruence.
  - rewrite getSession_lookup in Hd'.
    destruct (decide (sid = k)) as [->|Hne].
    + rewrite Hd in Hd'. destruct (expiresAt d <? now); [discriminate|].
      split; congruence.
    + split; congruence.
  - apply bool_decide_eq_false in Hw. unfold updateSessionStatus in Hd'.
    destruct (sessions !! k); [rewrite lookup_insert_ne in Hd' by exact Hw|];
      split; congruence.
  - unfold updateSessionProgress in Hd'.
    destruct (decide (k = sid)) as [->|Hne].
    + rewrite Hd, lookup_insert_eq in Hd'. inversion Hd'. simpl. auto.
    + destruct (sessions !! k); [rewrite lookup_insert_ne in Hd' by exact Hne|];
        split; congruence.
  - apply bool_decide_eq_false in Hw. unfold updateSessionResult in Hd'.
    destruct (sessions !! k); [rewrite lookup_insert_ne in Hd' by exact Hw|];
      split; congruence.
  - apply bool_decide_eq_false in Hw. unfold setSessionError in Hd'.
    destruct (sessions !! k); [rewrite lookup_insert_ne in Hd' by exact Hw|];
      split; congruence.
  - destruct (decide (k = sid)) as [->|Hne].
    + rewrite lookup_delete_eq in Hd'. discriminate.
    + rewrite lookup_delete_ne in Hd' by exact Hne. split; congruence.
  - split; congruence.
  - rewrite cleanup_lookup, Hd in Hd'.
    destruct (expiresAt d <? now); [discriminate|]. split; congruence.
Qed.

(** ** Well-formedness of the store *)

Lemma store_wf_empty : store_wf ∅.
Proof. intros sid d H. rewrite lookup_empty in H. discriminate. Qed.

Lemma store_wf_insert (sessions : Sessions) (sid : string) (d : SessionData) :
  store_wf sessions ->
  sessionId d = sid -> expiresAt d = createdAt d + SESSION_EXPIRY_MS ->
  store_wf (<[sid := d]> sessions).
Proof.
  intros Hwf Hid Hexp k d' Hk. destruct (decide (sid = k)) as [->|Hne].
  - rewrite lookup_insert_eq in Hk. inversion Hk; subst d'. auto.
  - rewrite lookup_insert_ne in Hk by exact Hne. now apply Hwf.
Qed.

Lemma apply_op_wf (op : store_op) (sessions : Sessions) :
  store_wf sessions -> store_wf (apply_op op sessions).
Proof.
  intros Hwf.
  destruct op as [uuid now q b dp|now k|now k st|now k p
                 |now k r|now k e|k|now|now]; simpl.
  - apply store_wf_insert; auto.
  - intros sid d Hd. rewrite getSession_lookup in Hd.
    destruct (decide (sid = k)) as [->|Hne]; [|now apply Hwf].
    destruct (sessions !! k) as [d0|] eqn:Hk; [|discriminate].
    destruct (expiresAt d0 <? now); [discriminate|].
    inversion Hd; subst d0. now apply Hwf.
  - unfold updateSessionStatus. destruct (sessions !! k) as [d|] eqn:Hk; [|exact Hwf].
    destruct (Hwf _ _ Hk). apply store_wf_insert; auto.
  - unfold updateSessionProgress. destruct (sessions !! k) as [d|] eqn:Hk; [|exact Hwf].
    destruct (Hwf _ _ Hk). apply store_wf_insert; auto.
  - unfold updateSessionResult. destruct (sessions !! k) as [d|] eqn:Hk; [|exact Hwf].
    destruct (Hwf _ _ Hk). apply store_wf_insert; auto.
  - unfold setSessionError. destruct (sessions !! k) as [d|] eqn:Hk; [|exact Hwf].
    destruct (Hwf _ _ Hk). apply store_wf_insert; auto.
  - intros sid d Hd. destruct (decide (k = sid)) as [->|Hne].
    + rewrite lookup_delete_eq in Hd. discriminate.
    + rewrite lookup_delete_ne in Hd by exact Hne. now apply Hwf.
  - exact Hwf.
  - intros sid d Hd. rewrite cleanup_lookup in Hd.
    destruct (sessions !! sid) as [d0|] eqn:Hk; [|discriminate].
    destruct (expiresAt d0 <? now); [discriminate|].
    inversion Hd; subst d0. now apply Hwf.
Qed.

Lemma fold_ops_wf (ops : list store_op) (sessions : Sessions) :
  store_wf sessions -> store_wf (fold_left (fun m op => apply_op op m) ops sessions).
Proof.
  revert sessions; induction ops as [|op ops IH]; intros sessions Hwf; simpl;
    [exact Hwf|]. apply IH. now apply apply_op_wf.
Qed.

Lemma run_ops_wf (ops : list store_op) : store_wf (run_ops ops).
Proof. apply fold_ops_wf, store_wf_empty. Qed.

(** ** Expiry and unknown ids *)

(** C8: an entry of the store that was created more than 24 hours before
    [now] is not returned by [getSession], which answers [None] as it does
    for an id that was never there and drops the entry, so that later reads
    answer [None] too; and the sweep [cleanupExpiredSessions] removes the
    entry while keeping every entry that has not expired. *)
Theorem expired_session_not_found (ops : list store_op) (sid : string)
    (d : SessionData) (now : Z) :
  run_ops ops !! sid = Some d ->
  createdAt d + 24 * 60 * 60 * 1000 < now ->
  getSession now sid (run_ops ops) = (None, delete sid (run_ops ops))
  /\ (forall unknown, run_ops ops !! unknown = None ->
        fst (getSession now unknown (run_ops ops)) = None)
  /\ (forall later,
        fst (getSession later sid (snd (getSession now sid (run_ops ops)))) = None)
  /\ cleanupExpiredSessions now (run_ops ops) !! sid = None
  /\ (forall k d', run_ops ops !! k = Some d' -> now <= expiresAt d' ->
        cleanupExpiredSessions now (run_ops ops) !! k = Some d').
Proof.
  intros Hd Hold.
  destruct (run_ops_wf ops _ _ Hd) as [_ Hexp].
  assert (Hlt : (expiresAt d <? now) = true).
  { apply Z.ltb_lt. rewrite Hexp. unfold SESSION_EXPIRY_MS. lia. }
  assert (Hget : getSession now sid (run_ops ops) = (None, delete sid (run_ops ops))).
  { unfold getSession. now rewrite Hd, Hlt. }
  split; [exact Hget|]. split; [|split; [|split]].
  - intros unknown Hu. unfold getSession. now rewrite Hu.
  - intros later. rewrite Hget. simpl. unfold getSession.
    now rewrite lookup_delete_eq.
  - rewrite cleanup_lookup, Hd. now rewrite Hlt.
  - intros k d' Hk Hfresh. rewrite cleanup_lookup, Hk.
    destruct (Z.ltb_spec (expiresAt d') now); [lia|reflexivity].
Qed.

Lemma expired_session_not_found_witness :
  let ops := CreateSession "s1" 0 "q" 4 2 :: nil in
  let d := {| sessionId := "s1"; query := "q"; breadth := 4; depth := 2;
              status := pending; progress := None; result := None;
              createdAt := 0; updatedAt := 0; expiresAt := 86400000 |} in
  run_ops ops !! ("s1" : string) = Some d
  /\ createdAt d + 24 * 60 * 60 * 1000 < 86400001
  /\ getSession 86400001 "s1" (run_ops ops) = (None, delete ("s1" : string) (run_ops ops)).
Proof.
  intros ops d.
  assert (H1 : run_ops ops !! ("s1" : string) = Some d) by (vm_compute; reflexivity).
  assert (H2 : createdAt d + 24 * 60 * 60 * 1000 < 86400001) by (simpl; lia).
  split; [exact H1|]. split; [exact H2|].
  exact (proj1 (expired_session_not_found ops "s1" d 86400001 H1 H2)).
Defined.

(** C10: for an id that is not in the store, [updateSessionStatus],
    [updateSessionProgress], [updateSessionResult] and [setSessionError]
    return (they are total and have no failing path) and leave the store as
    it was. *)
Theorem updates_of_unknown_session_change_nothing (sessions : Sessions)
    (sid : string) (now : Z) (st : Status) (p : ResearchProgress)
    (r : ResearchResult) (err : string) :
  sessions !! sid = None ->
  updateSessionStatus now sid st sessions = sessions
  /\ updateSessionProgress now sid p sessions = sessions
  /\ updateSessionResult now sid r sessions = sessions
  /\ setSessionError now sid err sessions = sessions.
Proof.
  intros Hnone.
  unfold updateSessionStatus, updateSessionProgress, updateSessionResult,
    setSessionError.
  now rewrite Hnone.
Qed.

Lemma updates_of_unknown_session_change_nothing_witness :
  sample_completed !! ("s2" : string) = None
  /\ updateSessionStatus 600 "s2" running sample_completed = sample_completed
  /\ setSessionError 600 "s2" "boom" sample_completed = sample_completed.
Proof.
  assert (H : sample_completed !! ("s2" : string) = None) by (vm_compute; reflexivity).
  split; [exact H|].
  destruct (updates_of_unknown_session_change_nothing sample_completed "s2" 600
              running
              (mkResearchProgress "s2" 0 0 0 0 None 0 0 running 0 None)
              sample_result "boom" H) as (Hs & _ & _ & He).
  split; [exact Hs|exact He].
Defined.

End SessionStore.

(* ===================================================================== *)
(** * Research API: validation, progress events, progress stream *)
(* ===================================================================== *)

Module ResearchApi.
Import SessionStore.

(** ** Request validation *)

(** A parsed JSON value, as [express.json()] leaves it in [req.body]. The
    fields of an object are its own properties, each key once. *)
#[local] Unset Elimination Schemes.
Inductive json : Type :=
| JNull
| JBool (b : bool)
| JNumber (q : Q)
| JString (s : string)
| JArray (items : list json)
| JObject (fields : list (string * json)).
#[local] Set Elimination Schemes.

(** [body[key]]: [None] stands for [undefined]. *)
Fixpoint assoc (key : string) (fields : list (string * json)) : option json :=
  match fields with
  | nil => None
  | (k, v) :: rest => if String.eqb k key then Some v else assoc key rest
  end.

Definition field (key : string) (body : json) : option json :=
  match body with
  | JObject fields => assoc key fields
  | _ => None
  end.

(** [z.string().min(lo).max(hi)] *)
Definition zString (lo hi : Z) (v : option json) : option string :=
  match v with
  | Some (JString s) =>
      if (lo <=? Z.of_nat (String.length s)) && (Z.of_nat (String.length s) <=? hi)
      then Some s else None
  | _ => None
  end.

(** [z.number().int().min(lo).max(hi).default(dflt)] *)
Definition zIntDefault (lo hi dflt : Z) (v : option json) : option Z :=
  match v with
  | None => Some dflt
  | Some (JNumber q) =>
      if Qeq_bool (inject_Z (Qfloor q)) q
         && Qle_bool (inject_Z lo) q && Qle_bool q (inject_Z hi)
      then Some (Qfloor q) else None
  | _ => None
  end.

(** [z.string().optional()] *)
Definition zOptString (v : option json) : option (option string) :=
  match v with
  | None => Some None
  | Some (JString s) => Some (Some s)
  | _ => None
  end.

(** [z.enum(['openai', 'fireworks', 'openrouter', 'custom']).optional()] *)
Definition zOptProvider (v : option json) : option (option string) :=
  match v with
  | None => Some None
  | Some (JString s) =>
      if existsb (String.eqb s)
           ("openai" :: "fireworks" :: "openrouter" :: "custom" :: nil)%string
      then Some (Some s) else None
  | _ => None
  end.

(** The [llmConfig] of a request: provider and model, both optional. *)
Record LlmConfig : Type := mkLlmConfig {
  provider : option string;
  model : option string
}.

(** [z.object({ provider: ..., model: ... }).optional()] *)
Definition zOptLlmConfig (v : option json) : option (option LlmConfig) :=
  match v with
  | None => Some None
  | Some (JObject fields) =>
      match zOptProvider (assoc "provider" fields),
            zOptString (assoc "model" fields) with
      | Some pr, Some m => Some (Some {| provider := pr; model := m |})
      | _, _ => None
      end
  | _ => None
  end.

(** [ResearchQuery]: the validated body of [POST /research]. *)
Record ResearchQuery : Type := mkResearchQuery {
  q_query : string;
  q_breadth : Z;
  q_depth : Z;
  q_llmConfig : option LlmConfig;
  q_customGptId : option string
}.

(** [researchSchema.safeParse(body)]: [None] when [success] is false. *)
Definition researchSchema (body : json) : option ResearchQuery :=
  match body with
  | JObject _ =>
      match zString 1 1000 (field "query" body),
            zIntDefault 2 10 5 (field "breadth" body),
            zIntDefault 1 5 3 (field "depth" body),
            zOptLlmConfig (field "llmConfig" body),
            zOptString (field "customGptId" body) with
      | Some q, Some b, Some d, Some cfg, Some gpt =>
          Some {| q_query := q; q_breadth := b; q_depth := d;
                  q_llmConfig := cfg; q_customGptId := gpt |}
      | _, _, _, _, _ => None
      end
  | _ => None
  end.

(** ** Progress events *)

(** The progress value that [deepResearch] hands to [onProgress]. *)
Record InternalResearchProgress : Type := mkInternalProgress {
  i_currentDepth : Z;
  i_totalDepth : Z;
  i_currentBreadth : Z;
  i_totalBreadth : Z;
  i_currentQuery : option string;
  i_totalQueries : Z;
  i_completedQueries : Z
}.

(** What the closures of one [POST /research] request hold. *)
Record research_ctx : Type := mkCtx {
  c_sessionId : string;
  c_query : string;
  c_breadth : Z;
  c_depth : Z;
  c_startTime : Z
}.

(** A JavaScript number is an IEEE 754 binary64 value: 53 bits of
    precision, exponents below 1024. [/] and [*] round to the nearest
    value, a tie going to the even one. *)
Definition number : Type := SpecFloat.spec_float.

Definition prec : Z := 53.
Definition emax : Z := 1024.

(** The number that an integer count is: the integer itself up to 2^53 in
    magnitude, the nearest number beyond. *)
Definition of_int (z : Z) : number := SpecFloat.binary_normalize prec emax z 0 false.

(** [x / y] and [x * y] *)
Definition fdiv (x y : number) : number := SpecFloat.SFdiv prec emax x y.
Definition fmul (x y : number) : number := SpecFloat.SFmul prec emax x y.

(** The value of a finite number; [None] for [Infinity], [-Infinity] and
    [NaN]. *)
Definition to_Q (x : number) : option Q :=
  match x with
  | SpecFloat.S754_zero _ => Some 0%Q
  | SpecFloat.S754_finite s m e =>
      let n := if s then Z.neg m else Z.pos m in
      Some match e with
           | Z.neg k => Qmake n (2 ^ k)
           | _ => inject_Z (n * 2 ^ e)
           end
  | _ => None
  end.

(** [Math.round(x)] on the value of a finite number: the nearest integer, a
    tie going up. *)
Definition math_round (x : Q) : Z := Qfloor (x + (1 # 2))%Q.

(** [completedQueries / Math.max(totalQueries, 1)] *)
Definition ratio (p : InternalResearchProgress) : number :=
  fdiv (of_int (i_completedQueries p)) (of_int (Z.max (i_totalQueries p) 1)).

(** [Math.round((completedQueries / Math.max(totalQueries, 1)) * 100)].
    The quotient and the product are rounded as numbers before
    [Math.round] sees them: 23 of 40 gives 57.49999999999999 and so 57.
    [Math.round] leaves [Infinity] and [NaN] as they are; they come up only
    for counts that no number holds exactly (beyond 10^305), and are
    written 0 here. *)
Definition percentage (p : InternalResearchProgress) : Z :=
  match to_Q (fmul (ratio p) (of_int 100)) with
  | Some x => math_round x
  | None => 0
  end.

(** The [researchProgress] object built in the [onProgress] callback. *)
Definition researchProgress (ctx : research_ctx) (p : InternalResearchProgress)
  : ResearchProgress :=
  {| p_sessionId := c_sessionId ctx;
     p_currentDepth := i_currentDepth p;
     p_totalDepth := i_totalDepth p;
     p_currentBreadth := i_currentBreadth p;
     p_totalBreadth := i_totalBreadth p;
     p_currentQuery := i_currentQuery p;
     p_totalQueries := i_totalQueries p;
     p_completedQueries := i_completedQueries p;
     p_status := running;
     p_progress := percentage p;
     p_message := None |}.

(** The [finalProgress] object of the [.then] branch. *)
Definition finalProgress (ctx : research_ctx) (learnings : list string)
  : ResearchProgress :=
  {| p_sessionId := c_sessionId ctx;
     p_currentDepth := 0;
     p_totalDepth := c_depth ctx;
     p_currentBreadth := 0;
     p_totalBreadth := c_breadth ctx;
     p_currentQuery := None;
     p_totalQueries := Z.of_nat (List.length learnings);
     p_completedQueries := Z.of_nat (List.length learnings);
     p_status := completed;
     p_progress := 100;
     p_message := None |}.

(** The [errorProgress] object of the [.catch] branch. *)
Definition errorProgress (ctx : research_ctx) (errorMessage : string)
  : ResearchProgress :=
  {| p_sessionId := c_sessionId ctx;
     p_currentDepth := 0;
     p_totalDepth := c_depth ctx;
     p_currentBreadth := 0;
     p_totalBreadth := c_breadth ctx;
     p_currentQuery := None;
     p_totalQueries := 0;
     p_completedQueries := 0;
     p_status := error;
     p_progress := 0;
     p_message := Some errorMessage |}.

(** The [result] object of the [.then] branch. *)
Definition researchResult (ctx : research_ctx) (now : Z)
    (learnings visitedUrls : list string) (report : string) : ResearchResult :=
  {| r_sessionId := c_sessionId ctx;
     r_query := c_query ctx;
     r_learnings := learnings;
     r_visitedUrls := visitedUrls;
     r_report := Some report;
     r_timestamp := now;
     r_duration := now - c_startTime ctx;
     r_success := true;
     r_error := None |}.

(** ** Server state and handlers *)

(** The session store, the [sseClients] map, what has been written to every
    response stream, and the responses whose [write] throws. A response
    object is named by a number. *)
Record api_state : Type := mkApi {
  sessions : Sessions;
  sseClients : gmap string (list nat);
  wire : gmap nat (list ResearchProgress);
  broken : gset nat
}.

(** What a response stream has received so far. *)
Definition received (st : api_state) (client : nat) : list ResearchProgress :=
  default nil (wire st !! client).

(** [client.write(data)] on a stream that accepts it. *)
Definition write (client : nat) (data : ResearchProgress)
    (w : gmap nat (list ResearchProgress)) : gmap nat (list ResearchProgress) :=
  <[client := default nil (w !! client) ++ data :: nil]> w.

(** The [clients.forEach] loop of [sendProgressUpdate]: a write that throws
    changes nothing on the wire. *)
Definition write_all (dead : gset nat) (clients : list nat)
    (data : ResearchProgress) (w : gmap nat (list ResearchProgress))
  : gmap nat (list ResearchProgress) :=
  fold_left (fun w client =>
               if bool_decide (client ∈ dead) then w else write client data w)
            clients w.

(** The clean-up at the end of [sendProgressUpdate]: when some write
    threw, the clients that are left replace the list, and an empty list
    removes the entry. *)
Definition drop_dead (sid : string) (clients deadClients : list nat)
    (m : gmap string (list nat)) : gmap string (list nat) :=
  match deadClients with
  | nil => m
  | _ :: _ =>
      let remaining :=
        List.filter (fun c => negb (bool_decide (c ∈ deadClients))) clients in
      match remaining with
      | nil => delete sid m
      | _ :: _ => <[sid := remaining]> m
      end
  end.

(** [sendProgressUpdate(sessionId, progress)] *)
Definition sendProgressUpdate (sid : string) (data : ResearchProgress)
    (st : api_state) : api_state :=
  match sseClients st !! sid with
  | None => st
  | Some nil => st
  | Some clients =>
      let deadClients :=
        List.filter (fun c => bool_decide (c ∈ broken st)) clients in
      {| sessions := sessions st;
         sseClients := drop_dead sid clients deadClients (sseClients st);
         wire := write_all (broken st) clients data (wire st);
         broken := broken st |}
  end.

(** The responses of [POST /research]. *)
Inductive response : Type :=
| Accepted (sessionId : string) (st : Status)
| ValidationError.

(** [validateBody(researchSchema)] followed by the synchronous part of the
    [POST /research] handler: create the session, answer, mark it running.
    [uuid] is the id drawn by [createSession] and [now] the clock. The rate
    limiters that run before [validateBody] do not look at the body and are
    left out. *)
Definition post_research (uuid : string) (now : Z) (body : json)
    (st : api_state) : response * api_state :=
  match researchSchema body with
  | None => (ValidationError, st)
  | Some rq =>
      let '(sessionId, sessions1) :=
        createSession uuid now (q_query rq) (q_breadth rq) (q_depth rq)
                      (sessions st) in
      let sessions2 := updateSessionStatus now sessionId running sessions1 in
      (Accepted sessionId pending,
       {| sessions := sessions2; sseClients := sseClients st;
          wire := wire st; broken := broken st |})
  end.

(** The [onProgress] callback. *)
Definition onProgress (ctx : research_ctx) (now : Z)
    (p : InternalResearchProgress) (st : api_state) : api_state :=
  let rp := researchProgress ctx p in
  let st1 :=
    {| sessions := updateSessionProgress now (c_sessionId ctx) rp (sessions st);
       sseClients := sseClients st; wire := wire st; broken := broken st |} in
  sendProgressUpdate (c_sessionId ctx) rp st1.

(** The [.then] branch once [writeFinalReport] has produced the report. *)
Definition onResolved (ctx : research_ctx) (now : Z)
    (learnings visitedUrls : list string) (report : string) (st : api_state)
  : api_state :=
  let res := researchResult ctx now learnings visitedUrls report in
  let st1 :=
    {| sessions := updateSessionResult now (c_sessionId ctx) res (sessions st);
       sseClients := sseClients st; wire := wire st; broken := broken st |} in
  sendProgressUpdate (c_sessionId ctx) (finalProgress ctx learnings) st1.

(** The [.catch] branch: [deepResearch] or [writeFinalReport] failed. *)
Definition onRejected (ctx : research_ctx) (now : Z) (errorMessage : string)
    (st : api_state) : api_state :=
  let st1 :=
    {| sessions := setSessionError now (c_sessionId ctx) errorMessage (sessions st);
       sseClients := sseClients st; wire := wire st; broken := broken st |} in
  sendProgressUpdate (c_sessionId ctx) (errorProgress ctx errorMessage) st1.

(** [GET /progress/:sessionId]: register the response, then write the
    stored progress of the session if there is one. *)
Definition get_progress (sid : string) (now : Z) (client : nat)
    (st : api_state) : api_state :=
  let clients := default nil (sseClients st !! sid) ++ client :: nil in
  let '(session, sessions') := getSession now sid (sessions st) in
  let wire' :=
    match session with
    | Some d =>
        match progress d with
        | Some p => write client p (wire st)
        | None => wire st
        end
    | None => wire st
    end in
  {| sessions := sessions'; sseClients := <[sid := clients]> (sseClients st);
     wire := wire'; broken := broken st |}.

(** [clients.splice(clients.indexOf(res), 1)] *)
Fixpoint remove_first (client : nat) (clients : list nat) : list nat :=
  match clients with
  | nil => nil
  | c :: rest => if Nat.eqb c client then rest else c :: remove_first client rest
  end.

(** The ['close'] handler of a progress stream. *)
Definition on_close (sid : string) (client : nat) (st : api_state) : api_state :=
  match sseClients st !! sid with
  | None => st
  | Some clients =>
      let clients' := remove_first client clients in
      {| sessions := sessions st;
         sseClients := match clients' with
                       | nil => delete sid (sseClients st)
                       | _ :: _ => <[sid := clients']> (sseClients st)
                       end;
         wire := wire st; broken := broken st |}
  end.

(** What can happen to the server. *)
Inductive api_event : Type :=
| Post (uuid : string) (now : Z) (body : json)
| OnProgress (ctx : research_ctx) (now : Z) (p : InternalResearchProgress)
| OnResolved (ctx : research_ctx) (now : Z)
             (learnings visitedUrls : list string) (report : string)
| OnRejected (ctx : research_ctx) (now : Z) (errorMessage : string)
| Connect (sid : string) (now : Z) (client : nat)
| Close (sid : string) (client : nat)
| Break (client : nat).

Definition api_step (ev : api_event) (st : api_state) : api_state :=
  match ev with
  | Post uuid now body => snd (post_research uuid now body st)
  | OnProgress ctx now p => onProgress ctx now p st
  | OnResolved ctx now l u r => onResolved ctx now l u r st
  | OnRejected ctx now e => onRejected ctx now e st
  | Connect sid now c => get_progress sid now c st
  | Close sid c => on_close sid c st
  | Break c =>
      {| sessions := sessions st; sseClients := sseClients st;
         wire := wire st; broken := {[c]} ∪ broken st |}
  end.

Definition api_run (evs : list api_event) (st : api_state) : api_state :=
  fold_left (fun st ev => api_step ev st) evs st.

(** The progress event that an event of the server publishes for session
    [sid] through [sendProgressUpdate]. *)
Definition published (sid : string) (ev : api_event) : list ResearchProgress :=
  match ev with
  | OnProgress ctx _ p =>
      if String.eqb (c_sessionId ctx) sid then researchProgress ctx p :: nil else nil
  | OnResolved ctx _ l _ _ =>
      if String.eqb (c_sessionId ctx) sid then finalProgress ctx l :: nil else nil
  | OnRejected ctx _ e =>
      if String.eqb (c_sessionId ctx) sid then errorProgress ctx e :: nil else nil
  | _ => nil
  end.

(** The calls on the session store that an event makes. *)
Definition store_ops_of (ev : api_event) : list store_op :=
  match ev with
  | Post uuid now body =>
      match researchSchema body with
      | None => nil
      | Some rq =>
          CreateSession uuid now (q_query rq) (q_breadth rq) (q_depth rq)
          :: UpdateSessionStatus now uuid running :: nil
      end
  | OnProgress ctx now p =>
      UpdateSessionProgress now (c_sessionId ctx) (researchProgress ctx p) :: nil
  | OnResolved ctx now l u r =>
      UpdateSessionResult now (c_sessionId ctx) (researchResult ctx now l u r) :: nil
  | OnRejected ctx now e => SetSessionError now (c_sessionId ctx) e :: nil
  | Connect sid now _ => GetSession now sid :: nil
  | Close _ _ | Break _ => nil
  end.

(** How a research run ends. *)
Inductive outcome : Type :=
| Succeeds (now : Z) (learnings visitedUrls : list string) (report : string)
| Fails (now : Z) (errorMessage : string).

Definition terminal_event (ctx : research_ctx) (o : outcome) : api_event :=
  match o with
  | Succeeds now l u r => OnResolved ctx now l u r
  | Fails now e => OnRejected ctx now e
  end.

Definition terminal_progress (ctx : research_ctx) (o : outcome) : ResearchProgress :=
  match o with
  | Succeeds _ l _ _ => finalProgress ctx l
  | Fails _ e => errorProgress ctx e
  end.

(** The events of one research run after its [POST]: the progress
    callbacks, each with its clock value, then the end of the run. *)
Definition run_events (ctx : research_ctx)
    (ps : list (Z * InternalResearchProgress)) (o : outcome) : list api_event :=
  List.map (fun tp => OnProgress ctx (fst tp) (snd tp)) ps
  ++ terminal_event ctx o :: nil.

(** The percentages carried by the progress events of session [sid]. *)
Definition percentages (sid : string) (evs : list api_event) : list Z :=
  List.map p_progress (flat_map (published sid) evs).

(** The status of session [sid] after each call of a sequence of store
    calls ([None] when the session is not in the store). *)
Fixpoint statuses_after (sid : string) (ops : list store_op)
    (sessions : Sessions) : list (option Status) :=
  match ops with
  | nil => nil
  | op :: ops' =>
      (status <$> apply_op op sessions !! sid)
      :: statuses_after sid ops' (apply_op op sessions)
  end.

(** Every status is followed by one that [status_step] allows. *)
Fixpoint one_directional (l : list Status) : bool :=
  match l with
  | a :: (b :: _) as rest => status_step a b && one_directional rest
  | _ => true
  end.

Definition final_status (o : outcome) : Status :=
  match o with Succeeds _ _ _ _ => completed | Fails _ _ => error end.

(** The context of the request that [Post uuid now body] accepts. *)
Definition ctx_of (uuid : string) (now : Z) (rq : ResearchQuery) : research_ctx :=
  {| c_sessionId := uuid; c_query := q_query rq; c_breadth := q_breadth rq;
     c_depth := q_depth rq; c_startTime := now |}.

(** The progress stored for a session after the callbacks [ps], starting
    from the stored value [init]. *)
Definition latest (ctx : research_ctx)
    (ps : list (Z * InternalResearchProgress)) (init : option ResearchProgress)
  : option ResearchProgress :=
  fold_left (fun _ tp => Some (researchProgress ctx (snd tp))) ps init.

(** What [GET /progress/:sessionId] replays: the stored progress, if any. *)
Definition replay (stored : option ResearchProgress) : list ResearchProgress :=
  match stored with Some p => p :: nil | None => nil end.

(** The event is a connection, a close or a failure of the response
    [client]. *)
Definition involves (client : nat) (ev : api_event) : bool :=
  match ev with
  | Connect _ _ c | Close _ c | Break c => Nat.eqb c client
  | _ => false
  end.

(** How many times [client] is registered in a list of clients. *)
Definition occ (client : nat) (clients : list nat) : nat :=
  count_occ Nat.eq_dec clients client.

(** The state of a response [c] that is not registered anywhere. *)
Definition unknown_client (c : nat) (st : api_state) : Prop :=
  wire st !! c = None
  /\ (c ∉ broken st)
  /\ forall k cl, sseClients st !! k = Some cl -> occ c cl = 0%nat.

(** The state of a response [c] that is registered once, for session
    [sid], that accepts writes and that has received [got]. *)
Definition subscribed (sid : string) (c : nat) (got : list ResearchProgress)
    (st : api_state) : Prop :=
  received st c = got
  /\ (c ∉ broken st)
  /\ (exists cl, sseClients st !! sid = Some cl /\ occ c cl = 1%nat)
  /\ forall k cl, k <> sid -> sseClients st !! k = Some cl -> occ c cl = 0%nat.

(** Sample data: a request context, a callback value that reports one
    query done out of two, a request with a breadth of 11. *)
Definition sample_ctx : research_ctx :=
  {| c_sessionId := "s1"; c_query := "q"; c_breadth := 4; c_depth := 2;
     c_startTime := 0 |}.

Definition progress_of (completed total : Z) : InternalResearchProgress :=
  {| i_currentDepth := 2; i_totalDepth := 2; i_currentBreadth := 4;
     i_totalBreadth := 4; i_currentQuery := Some "q"%string;
     i_totalQueries := total; i_completedQueries := completed |}.

Definition sample_bad_body : json :=
  JObject (("query", JString "q") :: ("breadth", JNumber (11 # 1)) :: nil)%string.

Definition empty_api : api_state :=
  {| sessions := ∅; sseClients := ∅; wire := ∅; broken := ∅ |}.

Definition sample_request : json :=
  JObject (("query", JString "q") :: ("breadth", JNumber (4 # 1))
           :: ("depth", JNumber (2 # 1)) :: nil)%string.

(** The server right after it accepted the sample request at time 0. *)
Definition sample_started : api_state :=
  snd (post_research "s1" 0 sample_request empty_api).

(** ** Validation *)

Lemma zIntDefault_out_of_range (lo hi dflt : Z) (q : Q) :
  (q < inject_Z lo \/ inject_Z hi < q)%Q ->
  zIntDefault lo hi dflt (Some (JNumber q)) = None.
Proof.
  intros Hout. unfold zIntDefault.
  destruct (Qle_bool (inject_Z lo) q) eqn:Hlo; [|now rewrite andb_false_r].
  destruct (Qle_bool q (inject_Z hi)) eqn:Hhi; [|now rewrite andb_false_r].
  apply Qle_bool_iff in Hlo. apply Qle_bool_iff in Hhi.
  destruct Hout as [H|H]; exfalso; eapply Qlt_not_le; eauto.
Qed.

Lemma zString_out_of_range (lo hi : Z) (s : string) :
  Z.of_nat (String.length s) < lo \/ hi < Z.of_nat (String.length s) ->
  zString lo hi (Some (JString s)) = None.
Proof.
  intros Hout. unfold zString.
  destruct (Z.leb_spec lo (Z.of_nat (String.length s)));
    destruct (Z.leb_spec (Z.of_nat (String.length s)) hi); simpl;
    try reflexivity; lia.
Qed.

(** C9: a research request whose breadth is outside [2,10], whose depth is
    outside [1,5], or whose query is empty or longer than 1000 characters is
    answered by the validation middleware with a validation error; the
    handler that creates the session does not run and the server state,
    session store included, is what it was. *)
Theorem invalid_research_request_rejected (uuid : string) (now : Z)
    (body : json) (st : api_state) :
  (exists q, field "breadth" body = Some (JNumber q)
             /\ (q < inject_Z 2 \/ inject_Z 10 < q)%Q)
  \/ (exists q, field "depth" body = Some (JNumber q)
                /\ (q < inject_Z 1 \/ inject_Z 5 < q)%Q)
  \/ (exists s, field "query" body = Some (JString s)
                /\ (String.length s = 0%nat \/ (1000 < String.length s)%nat)) ->
  post_research uuid now body st = (ValidationError, st)
  /\ sessions (snd (post_research uuid now body st)) = sessions st.
Proof.
  intros Hbad.
  assert (Hparse : researchSchema body = None).
  { unfold researchSchema. destruct body as [| | | | |fields]; try reflexivity.
    destruct Hbad as [(q & Hf & Hq)|[(q & Hf & Hq)|(s & Hf & Hs)]].
    - rewrite Hf, (zIntDefault_out_of_range 2 10 5 q Hq).
      now destruct (zString 1 1000 _).
    - rewrite Hf, (zIntDefault_out_of_range 1 5 3 q Hq).
      destruct (zString 1 1000 _); [|reflexivity].
      now destruct (zIntDefault 2 10 5 _).
    - rewrite Hf, zString_out_of_range; [reflexivity|]. lia. }
  unfold post_research. rewrite Hparse. split; reflexivity.
Qed.

Lemma invalid_research_request_rejected_witness :
  (exists q, field "breadth" sample_bad_body = Some (JNumber q)
             /\ (q < inject_Z 2 \/ inject_Z 10 < q)%Q)
  /\ post_research "s1" 0 sample_bad_body empty_api = (ValidationError, empty_api).
Proof.
  assert (H : exists q, field "breadth" sample_bad_body = Some (JNumber q)
                        /\ (q < inject_Z 2 \/ inject_Z 10 < q)%Q).
  { exists (11 # 1)%Q. split; [reflexivity|]. right. reflexivity. }
  split; [exact H|].
  exact (proj1 (invalid_research_request_rejected "s1" 0 sample_bad_body empty_api
                  (or_introl H))).
Defined.

(** A request within the bounds is accepted and its session created. *)
Example valid_research_request_accepted :
  let body := JObject (("query", JString "q") :: ("breadth", JNumber (4 # 1))
                       :: ("depth", JNumber (2 # 1)) :: nil)%string in
  fst (post_research "s1" 0 body empty_api) = Accepted "s1" pending
  /\ status <$> sessions (snd (post_research "s1" 0 body empty_api)) !! ("s1" : string)
     = Some running.
Proof. split; vm_compute; reflexivity. Qed.

(** ** Percentages *)

Example percentage_samples :
  List.map percentage
    (progress_of 0 0 :: progress_of 1 2 :: progress_of 1 3 :: progress_of 2 3
     :: progress_of 1 8 :: progress_of 3 3 :: progress_of 3 2 :: nil)
  = 0 :: 50 :: 33 :: 67 :: 13 :: 100 :: 150 :: nil.
Proof. vm_compute. reflexivity. Qed.

(** The rounding of the quotient and of the product shows: on exact
    fractions 23 of 40 is 57.5 and 29 of 200 is 14.5, which [Math.round]
    would take up to 58 and 15. *)
Example percentage_rounds_as_numbers :
  to_Q (ratio (progress_of 23 40))
  = Some (Qmake 5179139571476070 (2 ^ 53))
  /\ to_Q (fmul (ratio (progress_of 23 40)) (of_int 100))
     = Some (Qmake 8092405580431359 (2 ^ 47))
  /\ math_round (Qmake 23 40 * inject_Z 100)%Q = 58
  /\ percentage (progress_of 23 40) = 57
  /\ percentage (progress_of 29 200) = 14.
Proof. repeat split; vm_compute; reflexivity. Qed.

Lemma published_progress (ctx : research_ctx)
    (ps : list (Z * InternalResearchProgress)) :
  flat_map (published (c_sessionId ctx))
           (List.map (fun tp => OnProgress ctx (fst tp) (snd tp)) ps)
  = List.map (fun tp => researchProgress ctx (snd tp)) ps.
Proof.
  induction ps as [|tp ps IH]; simpl; [reflexivity|].
  now rewrite String.eqb_refl, IH.
Qed.

Lemma published_terminal (ctx : research_ctx) (o : outcome) :
  published (c_sessionId ctx) (terminal_event ctx o) = terminal_progress ctx o :: nil.
Proof. destruct o; simpl; now rewrite String.eqb_refl. Qed.

Lemma published_run (ctx : research_ctx)
    (ps : list (Z * InternalResearchProgress)) (o : outcome) :
  flat_map (published (c_sessionId ctx)) (run_events ctx ps o)
  = List.map (fun tp => researchProgress ctx (snd tp)) ps
    ++ terminal_progress ctx o :: nil.
Proof.
  unfold run_events. rewrite flat_map_app, published_progress. simpl.
  now rewrite published_terminal, app_nil_r.
Qed.

Lemma percentages_run (ctx : research_ctx)
    (ps : list (Z * InternalResearchProgress)) (o : outcome) :
  percentages (c_sessionId ctx) (run_events ctx ps o)
  = List.map (fun tp => percentage (snd tp)) ps
    ++ p_progress (terminal_progress ctx o) :: nil.
Proof.
  unfold percentages. rewrite published_run, List.map_app, List.map_map.
  reflexivity.
Qed.

(** A list followed by one more value is non-decreasing exactly when the
    list is and none of its values is above the one that follows. *)
Lemma Sorted_le_snoc (l : list Z) (t : Z) :
  Sorted Z.le (l ++ t :: nil)
  <-> Sorted Z.le l /\ Forall (fun x => x <= t) l.
Proof.
  induction l as [|a l IH]; simpl.
  - split; [intros _; split; constructor|intros _; repeat constructor].
  - split.
    + intros Hs. apply Sorted_inv in Hs as [Hs Hhd].
      apply IH in Hs as [Hs Hall].
      destruct l as [|b l]; simpl in Hhd; apply HdRel_inv in Hhd.
      * split; repeat constructor; exact Hhd.
      * split; [constructor; [exact Hs|constructor; exact Hhd]|].
        constructor; [|exact Hall].
        inversion Hall as [|? ? Hb _]; subst. lia.
    + intros [Hs Hall]. apply Sorted_inv in Hs as [Hs Hhd].
      inversion Hall as [|? ? Ha Hl]; subst.
      constructor; [apply IH; now split|].
      destruct l as [|b l]; simpl; constructor;
        [exact Ha|now apply HdRel_inv in Hhd].
Qed.

(** C4, the claim as stated fails, in each of the three ways the handler
    leaves open. A run that reports one query out of two done and then
    fails publishes the percentages 50 and 0. The handler keeps no earlier
    percentage to compare with: callbacks that report one query out of two
    and then one out of four, as when the total grows under way, publish
    50, 25 and 100; a callback that reports three out of two publishes
    150 before the 100 of the Completed event. *)
Lemma percentage_drops_on_error :
  percentages "s1" (run_events sample_ctx ((1, progress_of 1 2) :: nil)
                               (Fails 2 "search failed"))
  = 50 :: 0 :: nil
  /\ ~ Sorted Z.le
       (percentages "s1" (run_events sample_ctx ((1, progress_of 1 2) :: nil)
                                     (Fails 2 "search failed")))
  /\ percentages "s1"
       (run_events sample_ctx
          ((1, progress_of 1 2) :: (2, progress_of 1 4) :: nil)
          (Succeeds 3 ("fact" :: nil) nil "report"))
     = 50 :: 25 :: 100 :: nil
  /\ ~ Sorted Z.le
       (percentages "s1"
          (run_events sample_ctx
             ((1, progress_of 1 2) :: (2, progress_of 1 4) :: nil)
             (Succeeds 3 ("fact" :: nil) nil "report")))
  /\ percentages "s1"
       (run_events sample_ctx ((1, progress_of 3 2) :: nil)
                   (Succeeds 2 ("fact" :: nil) nil "report"))
     = 150 :: 100 :: nil
  /\ ~ Sorted Z.le
       (percentages "s1"
          (run_events sample_ctx ((1, progress_of 3 2) :: nil)
                      (Succeeds 2 ("fact" :: nil) nil "report"))).
Proof.
  assert (H1 : percentages "s1" (run_events sample_ctx ((1, progress_of 1 2) :: nil)
                                            (Fails 2 "search failed"))
               = 50 :: 0 :: nil) by (vm_compute; reflexivity).
  assert (H2 : percentages "s1"
                 (run_events sample_ctx
                    ((1, progress_of 1 2) :: (2, progress_of 1 4) :: nil)
                    (Succeeds 3 ("fact" :: nil) nil "report"))
               = 50 :: 25 :: 100 :: nil) by (vm_compute; reflexivity).
  assert (H3 : percentages "s1"
                 (run_events sample_ctx ((1, progress_of 3 2) :: nil)
                             (Succeeds 2 ("fact" :: nil) nil "report"))
               = 150 :: 100 :: nil) by (vm_compute; reflexivity).
  split; [exact H1|]. split; [|split; [exact H2|split; [|split; [exact H3|]]]].
  - rewrite H1. intros Hs.
    inversion Hs as [|? ? _ Hhd]; subst. inversion Hhd; subst. lia.
  - rewrite H2. intros Hs.
    inversion Hs as [|? ? _ Hhd]; subst. inversion Hhd; subst. lia.
  - rewrite H3. intros Hs.
    inversion Hs as [|? ? _ Hhd]; subst. inversion Hhd; subst. lia.
Qed.

(** C4 (as amended): for every run, whatever the callbacks report, each
    progress event carries the percentage computed from the callback that
    caused it alone, the run ends with one terminal event, which is the
    last one and the only one that is not [running], and that event
    carries exactly 100 when the run is Completed and 0 when it ends in
    Error. The percentages of the run are therefore non-decreasing exactly
    when the percentages computed from the callbacks are non-decreasing
    and none of them is above that of the terminal event. *)
Theorem percentages_follow_callbacks (ctx : research_ctx)
    (ps : list (Z * InternalResearchProgress)) (o : outcome) :
  let evs := run_events ctx ps o in
  let reported := List.map (fun tp => percentage (snd tp)) ps in
  let ending := terminal_progress ctx o in
  percentages (c_sessionId ctx) evs = reported ++ p_progress ending :: nil
  /\ (exists earlier,
        flat_map (published (c_sessionId ctx)) evs = earlier ++ ending :: nil
        /\ Forall (fun e => p_status e = running) earlier)
  /\ p_status ending = final_status o
  /\ p_progress ending
     = match o with Succeeds _ _ _ _ => 100 | Fails _ _ => 0 end
  /\ (Sorted Z.le (percentages (c_sessionId ctx) evs)
      <-> Sorted Z.le reported
          /\ Forall (fun x => x <= p_progress ending) reported).
Proof.
  intros evs reported ending. subst evs reported ending.
  split; [apply percentages_run|]. split; [|split; [|split]].
  - exists (List.map (fun tp => researchProgress ctx (snd tp)) ps).
    split; [apply published_run|].
    apply List.Forall_forall. intros e He. apply in_map_iff in He as (tp & <- & _).
    reflexivity.
  - now destruct o.
  - now destruct o.
  - rewrite percentages_run. apply Sorted_le_snoc.
Qed.

(** Callbacks that count up to a fixed total, and a run that completes. *)
Example percentages_of_a_steady_run :
  let ps := (1, progress_of 1 3) :: (2, progress_of 2 3) :: (3, progress_of 3 3) :: nil in
  let evs := run_events sample_ctx ps (Succeeds 4 ("fact" :: nil) nil "report") in
  percentages "s1" evs = 33 :: 67 :: 100 :: 100 :: nil
  /\ Sorted Z.le (percentages "s1" evs).
Proof.
  intros ps evs.
  assert (H : percentages "s1" evs = 33 :: 67 :: 100 :: 100 :: nil)
    by (vm_compute; reflexivity).
  split; [exact H|]. rewrite H. repeat constructor; lia.
Qed.

(** ** Status transitions *)

Lemma sendProgressUpdate_sessions (sid : string) (data : ResearchProgress)
    (st : api_state) :
  sessions (sendProgressUpdate sid data st) = sessions st.
Proof.
  unfold sendProgressUpdate.
  destruct (sseClients st !! sid) as [[|c cs]|]; reflexivity.
Qed.

(** The session store changes only through the store calls of the event. *)
Lemma api_step_sessions (ev : api_event) (st : api_state) :
  sessions (api_step ev st)
  = fold_left (fun m op => apply_op op m) (store_ops_of ev) (sessions st).
Proof.
  destruct ev as [uuid now body|ctx now p|ctx now l u r|ctx now e|sid now c|sid c|c];
    simpl.
  - unfold post_research. destruct (researchSchema body); reflexivity.
  - unfold onProgress. now rewrite sendProgressUpdate_sessions.
  - unfold onResolved. now rewrite sendProgressUpdate_sessions.
  - unfold onRejected. now rewrite sendProgressUpdate_sessions.
  - unfold get_progress. now destruct (getSession now sid (sessions st)).
  - unfold on_close. destruct (sseClients st !! sid); reflexivity.
  - reflexivity.
Qed.

Lemma api_run_sessions (evs : list api_event) (st : api_state) :
  sessions (api_run evs st)
  = fold_left (fun m op => apply_op op m) (flat_map store_ops_of evs) (sessions st).
Proof.
  revert st; induction evs as [|ev evs IH]; intros st; simpl; [reflexivity|].
  unfold api_run in *. simpl. rewrite IH, api_step_sessions.
  now rewrite fold_left_app.
Qed.

Lemma statuses_after_app (sid : string) (ops1 ops2 : list store_op)
    (m : Sessions) :
  statuses_after sid (ops1 ++ ops2) m
  = statuses_after sid ops1 m
    ++ statuses_after sid ops2 (fold_left (fun m op => apply_op op m) ops1 m).
Proof.
  revert m; induction ops1 as [|op ops1 IH]; intros m; simpl; [reflexivity|].
  now rewrite IH.
Qed.

(** Progress updates keep a running session running. *)
Lemma progress_updates_keep_status (ctx : research_ctx)
    (ps : list (Z * InternalResearchProgress)) (m : Sessions) (d : SessionData) :
  m !! c_sessionId ctx = Some d ->
  let ops := flat_map store_ops_of
               (List.map (fun tp => OnProgress ctx (fst tp) (snd tp)) ps) in
  statuses_after (c_sessionId ctx) ops m
  = repeat (Some (status d)) (List.length ps)
  /\ exists d', fold_left (fun m op => apply_op op m) ops m !! c_sessionId ctx = Some d'
                /\ status d' = status d /\ result d' = result d
                /\ query d' = query d.
Proof.
  revert m d; induction ps as [|tp ps IH]; intros m d Hd; simpl.
  - split; [reflexivity|]. exists d. auto.
  - unfold updateSessionProgress at 1 2 3. rewrite Hd, lookup_insert_eq. simpl.
    match goal with
    | |- context [statuses_after _ _ (<[_ := ?d1]> m)] =>
        destruct (IH (<[c_sessionId ctx := d1]> m) d1) as (Hst & d' & Hd' & H1 & H2 & H3);
          [apply lookup_insert_eq|]
    end.
    simpl in *. split; [now rewrite Hst|]. exists d'. auto.
Qed.

(** C7, the claim as stated fails: the store does not guard terminal
    sessions. On the completed sample session, [updateSessionStatus] puts
    the status back to Pending, and [setSessionError] replaces both the
    status and the result. *)
Lemma terminal_status_overwritten :
  status <$> sample_completed !! ("s1" : string) = Some completed
  /\ status <$> apply_op (UpdateSessionStatus 600 "s1" pending) sample_completed
                !! ("s1" : string) = Some pending
  /\ status <$> apply_op (SetSessionError 600 "s1" "late") sample_completed
                !! ("s1" : string) = Some error
  /\ (result <$> apply_op (SetSessionError 600 "s1" "late") sample_completed
                 !! ("s1" : string))
     <> (result <$> sample_completed !! ("s1" : string)).
Proof.
  repeat split; try (vm_compute; reflexivity).
  vm_compute. discriminate.
Qed.

(** C7 (as amended): the store calls that the research handler makes for a
    session take its status from Pending to Running, keep it Running during
    the progress updates, and end in Completed or Error, with the result
    set by that last call; and every store call other than
    [createSession] with the same id, [updateSessionStatus],
    [updateSessionResult] and [setSessionError] on the session leaves the
    status and the result of a session that is still stored as they
    were. *)
Theorem status_one_directional_in_research_run (uuid : string) (now : Z)
    (body : json) (rq : ResearchQuery)
    (ps : list (Z * InternalResearchProgress)) (o : outcome) (m : Sessions) :
  researchSchema body = Some rq ->
  let ctx := ctx_of uuid now rq in
  let ops := flat_map store_ops_of (Post uuid now body :: run_events ctx ps o) in
  statuses_after uuid ops m
  = Some pending :: Some running
    :: repeat (Some running) (List.length ps) ++ Some (final_status o) :: nil
  /\ one_directional (pending :: running :: repeat running (List.length ps)
                      ++ final_status o :: nil) = true
  /\ (exists d, fold_left (fun m op => apply_op op m) ops m !! uuid = Some d
                /\ status d = final_status o /\ is_Some (result d))
  /\ (forall op sessions sid d d',
        writes_status_of sid op = false ->
        sessions !! sid = Some d -> apply_op op sessions !! sid = Some d' ->
        status d' = status d /\ result d' = result d).
Proof.
  intros Hparse ctx ops.
  assert (Hops : ops
                 = (CreateSession uuid now (q_query rq) (q_breadth rq) (q_depth rq)
                    :: UpdateSessionStatus now uuid running :: nil)
                   ++ flat_map store_ops_of
                        (List.map (fun tp => OnProgress ctx (fst tp) (snd tp)) ps)
                   ++ store_ops_of (terminal_event ctx o)).
  { subst ops. simpl. rewrite Hparse. unfold run_events.
    rewrite flat_map_app. simpl. now rewrite app_nil_r. }
  set (d0 := {| sessionId := uuid; query := q_query rq; breadth := q_breadth rq;
                depth := q_depth rq; status := running; progress := None;
                result := None; createdAt := now; updatedAt := now;
                expiresAt := now + SESSION_EXPIRY_MS |}).
  set (m2 := <[uuid := d0]> (<[uuid := {| sessionId := uuid; query := q_query rq;
                breadth := q_breadth rq; depth := q_depth rq; status := pending;
                progress := None; result := None; createdAt := now;
                updatedAt := now; expiresAt := now + SESSION_EXPIRY_MS |}]> m)).
  assert (Hm2 : fold_left (fun m op => apply_op op m)
                  (CreateSession uuid now (q_query rq) (q_breadth rq) (q_depth rq)
                   :: UpdateSessionStatus now uuid running :: nil) m = m2).
  { simpl. unfold updateSessionStatus. now rewrite lookup_insert_eq. }
  assert (Hd0 : m2 !! c_sessionId ctx = Some d0) by apply lookup_insert_eq.
  destruct (progress_updates_keep_status ctx ps m2 d0 Hd0)
    as (Hst & d1 & Hd1 & Hs1 & Hr1 & Hq1).
  change (c_sessionId ctx) with uuid in Hst, Hd1.
  split; [|split; [|split]].
  - rewrite Hops, statuses_after_app, Hm2, statuses_after_app, Hst.
    simpl. unfold updateSessionStatus at 1. rewrite !lookup_insert_eq. simpl.
    do 2 f_equal. f_equal.
    destruct o as [t l u r|t e]; simpl.
    + unfold updateSessionResult. now rewrite Hd1, lookup_insert_eq.
    + unfold setSessionError. now rewrite Hd1, lookup_insert_eq.
  - simpl. clear. induction (List.length ps) as [|n IH]; simpl.
    + now destruct o.
    + destruct n; simpl in *; [now destruct o|exact IH].
  - rewrite Hops, !fold_left_app, Hm2.
    destruct o as [t l u r|t e]; simpl.
    + unfold updateSessionResult. rewrite Hd1, lookup_insert_eq.
      eexists. split; [reflexivity|]. simpl. split; [reflexivity|eauto].
    + unfold setSessionError. rewrite Hd1, lookup_insert_eq.
      eexists. split; [reflexivity|]. simpl. split; [reflexivity|eauto].
  - intros op sessions sid d d'. apply apply_op_frame.
Qed.

(** ** The progress stream of a subscriber *)

Lemma occ_filter (f : nat -> bool) (c : nat) (cl : list nat) :
  f c = true -> occ c (List.filter f cl) = occ c cl.
Proof.
  intros Hf. unfold occ. induction cl as [|a cl IH]; simpl; [reflexivity|].
  destruct (Nat.eq_dec a c) as [->|Hne].
  - rewrite Hf. simpl. destruct (Nat.eq_dec c c); [|congruence]. now rewrite IH.
  - destruct (f a); simpl; [|exact IH].
    destruct (Nat.eq_dec a c); [congruence|exact IH].
Qed.

Lemma occ_filter_0 (f : nat -> bool) (c : nat) (cl : list nat) :
  occ c cl = 0%nat -> occ c (List.filter f cl) = 0%nat.
Proof.
  unfold occ. intros H. apply count_occ_not_In in H. apply count_occ_not_In.
  intros Hin. apply filter_In in Hin as [Hin _]. contradiction.
Qed.

Lemma occ_remove_first (c c' : nat) (cl : list nat) :
  c' <> c -> occ c (remove_first c' cl) = occ c cl.
Proof.
  intros Hne. unfold occ. induction cl as [|a cl IH]; simpl; [reflexivity|].
  destruct (Nat.eqb_spec a c') as [->|Hac].
  - destruct (Nat.eq_dec c' c); [congruence|reflexivity].
  - simpl. destruct (Nat.eq_dec a c); now rewrite IH.
Qed.

Lemma occ_snoc (c c' : nat) (cl : list nat) :
  occ c (cl ++ c' :: nil) = (occ c cl + if Nat.eqb c' c then 1 else 0)%nat.
Proof.
  unfold occ. rewrite count_occ_app. simpl.
  destruct (Nat.eq_dec c' c) as [->|Hne].
  - now rewrite Nat.eqb_refl.
  - now rewrite (proj2 (Nat.eqb_neq _ _) Hne).
Qed.

Lemma occ_pos_nonempty (c : nat) (cl : list nat) :
  occ c cl = 1%nat -> cl <> nil.
Proof. intros H ->. discriminate. Qed.

Lemma write_other (c c' : nat) (data : ResearchProgress)
    (w : gmap nat (list ResearchProgress)) :
  c' <> c -> write c' data w !! c = w !! c.
Proof. intros Hne. unfold write. now rewrite lookup_insert_ne. Qed.

(** What one round of writes adds to the stream of [c]. *)
Lemma write_all_received (dead : gset nat) (cl : list nat)
    (data : ResearchProgress) (w : gmap nat (list ResearchProgress)) (c : nat) :
  default nil (write_all dead cl data w !! c)
  = default nil (w !! c)
    ++ (if bool_decide (c ∈ dead) then nil else repeat data (occ c cl)).
Proof.
  unfold write_all, occ. revert w; induction cl as [|a cl IH]; intros w; simpl.
  - destruct (bool_decide (c ∈ dead)); now rewrite app_nil_r.
  - rewrite IH. destruct (Nat.eq_dec a c) as [->|Hne].
    + destruct (bool_decide (c ∈ dead)) eqn:Hd; [reflexivity|].
      unfold write. rewrite lookup_insert_eq. simpl.
      now rewrite <- app_assoc.
    + destruct (bool_decide (a ∈ dead)); [reflexivity|].
      now rewrite write_other.
Qed.

Lemma write_all_untouched (dead : gset nat) (cl : list nat)
    (data : ResearchProgress) (w : gmap nat (list ResearchProgress)) (c : nat) :
  occ c cl = 0%nat -> write_all dead cl data w !! c = w !! c.
Proof.
  unfold write_all, occ. revert w; induction cl as [|a cl IH]; intros w Hc; simpl in *;
    [reflexivity|].
  destruct (Nat.eq_dec a c) as [->|Hne]; [discriminate|].
  rewrite IH by exact Hc.
  destruct (bool_decide (a ∈ dead)); [reflexivity|now apply write_other].
Qed.

Lemma drop_dead_lookup (sid k : string) (cl dead cl' : list nat)
    (m : gmap string (list nat)) :
  drop_dead sid cl dead m !! k = Some cl' ->
  m !! k = Some cl'
  \/ (k = sid
      /\ cl' = List.filter (fun c => negb (bool_decide (c ∈ dead))) cl).
Proof.
  unfold drop_dead. destruct dead as [|x dead]; [now left|].
  destruct (List.filter _ cl) as [|y rem] eqn:Hrem; intros Hk.
  - destruct (decide (k = sid)) as [->|Hne].
    + now rewrite lookup_delete_eq in Hk.
    + rewrite lookup_delete_ne in Hk by congruence. now left.
  - destruct (decide (k = sid)) as [->|Hne].
    + rewrite lookup_insert_eq in Hk. inversion Hk. now right.
    + rewrite lookup_insert_ne in Hk by congruence. now left.
Qed.

Lemma drop_dead_other (sid k : string) (cl dead : list nat)
    (m : gmap string (list nat)) :
  k <> sid -> drop_dead sid cl dead m !! k = m !! k.
Proof.
  intros Hne. unfold drop_dead. destruct dead as [|x dead]; [reflexivity|].
  destruct (List.filter _ cl) as [|y rem].
  - now rewrite lookup_delete_ne by congruence.
  - now rewrite lookup_insert_ne by congruence.
Qed.

(** A client that accepts writes stays registered. *)
Lemma drop_dead_keeps (sid : string) (cl : list nat) (dead : gset nat)
    (m : gmap string (list nat)) (c : nat) :
  m !! sid = Some cl -> occ c cl = 1%nat -> c ∉ dead ->
  exists cl',
    drop_dead sid cl (List.filter (fun c0 => bool_decide (c0 ∈ dead)) cl) m !! sid
    = Some cl'
    /\ occ c cl' = 1%nat.
Proof.
  intros Hm Hocc Hc. unfold drop_dead.
  destruct (List.filter (fun c0 => bool_decide (c0 ∈ dead)) cl) as [|x ds] eqn:Hdead;
    [eauto|].
  assert (Hkeep : occ c (List.filter
                    (fun c0 => negb (bool_decide (c0 ∈ x :: ds))) cl) = 1%nat).
  { rewrite occ_filter; [exact Hocc|].
    apply negb_true_iff, bool_decide_eq_false_2. intros Hin.
    rewrite <- Hdead in Hin. apply list_elem_of_In, filter_In in Hin as [_ Hbr].
    apply bool_decide_eq_true_1 in Hbr. contradiction. }
  destruct (List.filter (fun c0 => negb (bool_decide (c0 ∈ x :: ds))) cl)
    as [|y rem] eqn:Hrem; [discriminate|].
  exists (y :: rem). split; [apply lookup_insert_eq|exact Hkeep].
Qed.

Lemma sendProgressUpdate_unknown (sid : string) (data : ResearchProgress)
    (st : api_state) (c : nat) :
  unknown_client c st -> unknown_client c (sendProgressUpdate sid data st).
Proof.
  intros (Hw & Hb & Hcl). unfold sendProgressUpdate.
  destruct (sseClients st !! sid) as [[|a cl]|] eqn:Hs; try (repeat split; assumption).
  pose proof (Hcl _ _ Hs) as Hocc.
  split; [|split]; cbn [wire broken sseClients].
  - now rewrite write_all_untouched.
  - exact Hb.
  - intros k cl' Hk. apply drop_dead_lookup in Hk as [Hk|[-> ->]].
    + now apply (Hcl k).
    + now apply occ_filter_0.
Qed.

Lemma sendProgressUpdate_subscribed (sid sid' : string) (data : ResearchProgress)
    (st : api_state) (c : nat) (got : list ResearchProgress) :
  subscribed sid c got st ->
  subscribed sid c (got ++ if String.eqb sid' sid then data :: nil else nil)
             (sendProgressUpdate sid' data st).
Proof.
  intros (Hgot & Hb & (cl0 & Hcl0 & Hocc0) & Hothers). unfold sendProgressUpdate.
  destruct (String.eqb_spec sid' sid) as [->|Hne].
  - rewrite Hcl0. destruct cl0 as [|a cl]; [discriminate|].
    split; [|split; [exact Hb|split]]; cbn [wire broken sseClients].
    + unfold received. cbn [wire].
      rewrite write_all_received, Hocc0.
      rewrite bool_decide_eq_false_2 by exact Hb. simpl.
      unfold received in Hgot. now rewrite Hgot.
    + now apply drop_dead_keeps.
    + intros k cl' Hk Hlk. rewrite drop_dead_other in Hlk by exact Hk.
      now apply (Hothers k).
  - rewrite app_nil_r.
    destruct (sseClients st !! sid') as [[|a cl]|] eqn:Hs;
      try (split; [exact Hgot|split; [exact Hb|split; [eauto|exact Hothers]]]).
    pose proof (Hothers _ _ Hne Hs) as Hocc.
    split; [|split; [exact Hb|split]]; cbn [wire broken sseClients].
    + unfold received. cbn [wire]. now rewrite write_all_untouched.
    + exists cl0. split; [|exact Hocc0].
      rewrite drop_dead_other by congruence. exact Hcl0.
    + intros k cl' Hk Hlk. apply drop_dead_lookup in Hlk as [Hlk|[-> ->]].
      * now apply (Hothers k).
      * now apply occ_filter_0.
Qed.

Lemma subscribed_ext (sid : string) (c : nat) (got : list ResearchProgress)
    (st st' : api_state) :
  sseClients st' = sseClients st -> wire st' = wire st -> broken st' = broken st ->
  subscribed sid c got st -> subscribed sid c got st'.
Proof.
  unfold subscribed, received. intros -> -> ->. auto.
Qed.

Lemma unknown_client_ext (c : nat) (st st' : api_state) :
  sseClients st' = sseClients st -> wire st' = wire st -> broken st' = broken st ->
  unknown_client c st -> unknown_client c st'.
Proof.
  unfold unknown_client. intros -> -> ->. auto.
Qed.

(** An event that is not about the response [c] adds to the stream of [c]
    exactly what it publishes for the session of [c]. *)
Lemma api_step_subscribed (sid : string) (c : nat) (got : list ResearchProgress)
    (ev : api_event) (st : api_state) :
  involves c ev = false ->
  subscribed sid c got st ->
  subscribed sid c (got ++ published sid ev) (api_step ev st).
Proof.
  intros Hinv Hsub.
  destruct ev as [uuid now body|ctx now p|ctx now l u r|ctx now e|sid' now c'|sid' c'|c'];
    simpl in *.
  - rewrite app_nil_r. unfold post_research.
    destruct (researchSchema body); [|exact Hsub].
    simpl. eapply subscribed_ext; [..|exact Hsub]; reflexivity.
  - unfold onProgress. apply sendProgressUpdate_subscribed.
    eapply subscribed_ext; [..|exact Hsub]; reflexivity.
  - unfold onResolved. apply sendProgressUpdate_subscribed.
    eapply subscribed_ext; [..|exact Hsub]; reflexivity.
  - unfold onRejected. apply sendProgressUpdate_subscribed.
    eapply subscribed_ext; [..|exact Hsub]; reflexivity.
  - rewrite app_nil_r. apply Nat.eqb_neq in Hinv.
    destruct Hsub as (Hgot & Hb & (cl0 & Hcl0 & Hocc0) & Hothers).
    unfold get_progress. destruct (getSession now sid' (sessions st)) as [session m'].
    split; [|split; [exact Hb|split]]; cbn [wire broken sseClients].
    + unfold received. cbn [wire].
      destruct session as [d|]; [|exact Hgot].
      destruct (progress d); [|exact Hgot]. now rewrite write_other.
    + destruct (decide (sid' = sid)) as [->|Hne].
      * rewrite Hcl0. simpl. eexists. split; [apply lookup_insert_eq|].
        rewrite occ_snoc, Hocc0. rewrite (proj2 (Nat.eqb_neq _ _) Hinv). lia.
      * exists cl0. split; [now rewrite lookup_insert_ne|exact Hocc0].
    + intros k cl' Hk Hlk. destruct (decide (sid' = k)) as [->|Hne].
      * rewrite lookup_insert_eq in Hlk. inversion Hlk; subst cl'.
        rewrite occ_snoc, (proj2 (Nat.eqb_neq _ _) Hinv), Nat.add_0_r.
        destruct (sseClients st !! k) as [cl1|] eqn:Hk1; simpl; [|reflexivity].
        now apply (Hothers k).
      * rewrite lookup_insert_ne in Hlk by exact Hne. now apply (Hothers k).
  - rewrite app_nil_r. apply Nat.eqb_neq in Hinv.
    destruct Hsub as (Hgot & Hb & (cl0 & Hcl0 & Hocc0) & Hothers).
    unfold on_close. destruct (sseClients st !! sid') as [cl1|] eqn:Hs1;
      [|split; [exact Hgot|split; [exact Hb|split; [eauto|exact Hothers]]]].
    split; [exact Hgot|split; [exact Hb|split]]; cbn [wire broken sseClients].
    + destruct (decide (sid' = sid)) as [->|Hne].
      * rewrite Hcl0 in Hs1. inversion Hs1; subst cl1.
        pose proof (occ_remove_first c c' cl0 Hinv) as Hrm. rewrite Hocc0 in Hrm.
        destruct (remove_first c' cl0) as [|y rem] eqn:Hrem; [discriminate|].
        exists (y :: rem). split; [apply lookup_insert_eq|exact Hrm].
      * exists cl0. split; [|exact Hocc0].
        destruct (remove_first c' cl1);
          [now rewrite lookup_delete_ne|now rewrite lookup_insert_ne].
    + intros k cl' Hk Hlk.
      destruct (decide (sid' = k)) as [->|Hne].
      * pose proof (Hothers _ _ Hk Hs1) as Hocc1.
        pose proof (occ_remove_first c c' cl1 Hinv) as Hrm.
        destruct (remove_first c' cl1) as [|y rem] eqn:Hrem.
        -- now rewrite lookup_delete_eq in Hlk.
        -- rewrite lookup_insert_eq in Hlk. inversion Hlk; subst cl'. congruence.
      * destruct (remove_first c' cl1);
          [rewrite lookup_delete_ne in Hlk by exact Hne
          |rewrite lookup_insert_ne in Hlk by exact Hne]; now apply (Hothers k).
  - rewrite app_nil_r. apply Nat.eqb_neq in Hinv.
    destruct Hsub as (Hgot & Hb & Hcl & Hothers).
    split; [exact Hgot|split; [|split; [exact Hcl|exact Hothers]]].
    cbn [broken]. intros Hin. apply elem_of_union in Hin as [Hin|Hin].
    + apply elem_of_singleton in Hin. congruence.
    + contradiction.
Qed.

Lemma api_run_subscribed (sid : string) (c : nat) (evs : list api_event)
    (got : list ResearchProgress) (st : api_state) :
  forallb (fun ev => negb (involves c ev)) evs = true ->
  subscribed sid c got st ->
  subscribed sid c (got ++ flat_map (published sid) evs) (api_run evs st).
Proof.
  revert got st; induction evs as [|ev evs IH]; intros got st Hall Hsub; simpl.
  - now rewrite app_nil_r.
  - simpl in Hall. apply andb_true_iff in Hall as [Hev Hall].
    apply negb_true_iff in Hev. rewrite app_assoc.
    apply (IH _ _ Hall). now apply api_step_subscribed.
Qed.

(** The progress callbacks before the subscription: the response is still
    unknown, the session keeps its expiry, and the stored progress is the
    one of the last callback. *)
Lemma progress_before_subscription (ctx : research_ctx)
    (ps : list (Z * InternalResearchProgress)) (st : api_state)
    (d : SessionData) (c : nat) :
  sessions st !! c_sessionId ctx = Some d ->
  unknown_client c st ->
  let st' := api_run (List.map (fun tp => OnProgress ctx (fst tp) (snd tp)) ps) st in
  unknown_client c st'
  /\ exists d', sessions st' !! c_sessionId ctx = Some d'
                /\ expiresAt d' = expiresAt d
                /\ progress d' = latest ctx ps (progress d).
Proof.
  revert st d; induction ps as [|tp ps IH]; intros st d Hd Hun; simpl.
  - split; [exact Hun|]. exists d. auto.
  - unfold api_run in *. simpl.
    set (st1 := onProgress ctx (fst tp) (snd tp) st).
    assert (Hs1 : sessions st1 !! c_sessionId ctx
                  = Some {| sessionId := sessionId d; query := query d;
                            breadth := breadth d; depth := depth d;
                            status := status d;
                            progress := Some (researchProgress ctx (snd tp));
                            result := result d; createdAt := createdAt d;
                            updatedAt := fst tp; expiresAt := expiresAt d |}).
    { subst st1. unfold onProgress. rewrite sendProgressUpdate_sessions.
      cbn [sessions]. unfold updateSessionProgress. rewrite Hd.
      apply lookup_insert_eq. }
    assert (Hun1 : unknown_client c st1).
    { subst st1. unfold onProgress. apply sendProgressUpdate_unknown.
      eapply unknown_client_ext; [..|exact Hun]; reflexivity. }
    destruct (IH st1 _ Hs1 Hun1) as (Hun' & d' & Hd' & Hexp & Hprog).
    split; [exact Hun'|]. exists d'. split; [exact Hd'|].
    split; [exact Hexp|exact Hprog].
Qed.

(** Connecting: the response is registered and receives the stored
    progress of a session that has not expired. *)
Lemma get_progress_subscribes (sid : string) (now : Z) (c : nat)
    (st : api_state) (d : SessionData) :
  sessions st !! sid = Some d -> now <= expiresAt d ->
  unknown_client c st ->
  subscribed sid c (replay (progress d)) (get_progress sid now c st).
Proof.
  intros Hd Hexp (Hw & Hb & Hcl). unfold get_progress, getSession.
  rewrite Hd. destruct (Z.ltb_spec (expiresAt d) now) as [Hlt|_]; [lia|].
  split; [|split; [exact Hb|split]]; cbn [wire broken sseClients].
  - unfold received, replay. cbn [wire].
    destruct (progress d) as [p|]; [|now rewrite Hw].
    unfold write. now rewrite lookup_insert_eq, Hw.
  - eexists. split; [apply lookup_insert_eq|].
    rewrite occ_snoc, Nat.eqb_refl.
    destruct (sseClients st !! sid) as [cl|] eqn:Hs; simpl;
      [now rewrite (Hcl _ _ Hs)|reflexivity].
  - intros k cl Hk Hlk. rewrite lookup_insert_ne in Hlk by congruence.
    now apply (Hcl k).
Qed.

Lemma latest_last (ctx : research_ctx)
    (ps : list (Z * InternalResearchProgress)) (init : option ResearchProgress) :
  latest ctx ps init
  = match last ps with
    | Some tp => Some (researchProgress ctx (snd tp))
    | None => init
    end.
Proof.
  unfold latest. revert init; induction ps as [|tp ps IH]; intros init; simpl;
    [reflexivity|].
  rewrite IH. destruct ps as [|tp' ps']; [reflexivity|].
  change (last (tp :: tp' :: ps')) with (last (tp' :: ps')).
  destruct (last (tp' :: ps')) eqn:El; [reflexivity|].
  apply last_None in El. discriminate.
Qed.

(** C5, the claim as stated fails: there is no buffer of past events. A
    response that connects after two progress events is sent one event,
    the stored progress of the session, which is the second event; the
    first one is not replayed, whatever the size of a buffer of two or more
    events would be. *)
Lemma late_subscriber_gets_only_latest :
  let st := api_run (OnProgress sample_ctx 1 (progress_of 1 3)
                     :: OnProgress sample_ctx 2 (progress_of 2 3)
                     :: Connect "s1" 3 7 :: nil) sample_started in
  received st 7 = researchProgress sample_ctx (progress_of 2 3) :: nil
  /\ forall bufferSize : nat,
       (2 <= bufferSize)%nat ->
       List.length (received st 7) <> Nat.min 2 bufferSize.
Proof.
  intros st.
  assert (H : received st 7 = researchProgress sample_ctx (progress_of 2 3) :: nil)
    by (vm_compute; reflexivity).
  split; [exact H|]. intros bufferSize Hb. rewrite H.
  change (1%nat <> Nat.min 2 bufferSize). lia.
Qed.

(** A response that connects after the run has ended is sent the last
    running event: the final event is published but not stored. *)
Example subscriber_after_completion :
  let st := api_run (OnProgress sample_ctx 1 (progress_of 3 3)
                     :: OnResolved sample_ctx 2 ("fact" :: nil) nil "report"
                     :: Connect "s1" 3 7 :: nil) sample_started in
  List.map p_status (received st 7) = running :: nil.
Proof. vm_compute. reflexivity. Qed.

(** C5 (as amended): the replay holds one event. A response that connects
    to a stored, unexpired session after N progress events is sent
    min(N, 1) events, the stored progress of the session, which is the
    latest of the N events; then, as long as it stays connected and accepts
    writes, every event published for the session afterwards, in order;
    when the run ends after the connection, its stream ends with the one
    terminal event of the run, all events before it being running
    events. *)
Theorem late_subscriber_stream (ctx : research_ctx) (st : api_state)
    (d : SessionData) (ps : list (Z * InternalResearchProgress)) (now : Z)
    (c : nat) (live : list api_event) (qs : list InternalResearchProgress)
    (o : outcome) :
  sessions st !! c_sessionId ctx = Some d ->
  progress d = None ->
  now <= expiresAt d ->
  unknown_client c st ->
  forallb (fun ev => negb (involves c ev)) live = true ->
  flat_map (published (c_sessionId ctx)) live
  = List.map (researchProgress ctx) qs ++ terminal_progress ctx o :: nil ->
  let before := List.map (fun tp => OnProgress ctx (fst tp) (snd tp)) ps in
  let st' := api_run (before ++ Connect (c_sessionId ctx) now c :: live) st in
  let replayed := replay (latest ctx ps None) in
  received st' c
  = replayed ++ List.map (researchProgress ctx) qs ++ terminal_progress ctx o :: nil
  /\ List.length replayed = Nat.min (List.length ps) 1
  /\ (forall tp, last ps = Some tp ->
        replayed = researchProgress ctx (snd tp) :: nil)
  /\ Forall (fun e => p_status e = running)
            (replayed ++ List.map (researchProgress ctx) qs)
  /\ terminal (p_status (terminal_progress ctx o)) = true.
Proof.
  intros Hd Hnone Hexp Hun Hlive Hpub before st' replayed.
  destruct (progress_before_subscription ctx ps st d c Hd Hun)
    as (Hun1 & d1 & Hd1 & Hexp1 & Hprog1).
  fold before in Hun1, Hd1.
  assert (Hsub : subscribed (c_sessionId ctx) c replayed
                   (get_progress (c_sessionId ctx) now c (api_run before st))).
  { subst replayed. rewrite <- Hnone, <- Hprog1.
    apply get_progress_subscribes; [exact Hd1|lia|exact Hun1]. }
  assert (Hrep : forall tp, last ps = Some tp ->
                   replayed = researchProgress ctx (snd tp) :: nil).
  { intros tp Hl. subst replayed. now rewrite latest_last, Hl. }
  split; [|split; [|split; [exact Hrep|split]]].
  - subst st'. unfold api_run. rewrite fold_left_app. simpl.
    pose proof (api_run_subscribed _ _ live _ _ Hlive Hsub) as (Hgot & _).
    unfold api_run in Hgot. rewrite Hgot, Hpub. reflexivity.
  - subst replayed. rewrite latest_last.
    destruct ps as [|tp ps']; [reflexivity|].
    destruct (last (tp :: ps')) eqn:El; simpl; [lia|].
    apply last_None in El. discriminate.
  - apply Forall_app. split.
    + subst replayed. rewrite latest_last.
      destruct (last ps); simpl; repeat constructor.
    + apply List.Forall_forall. intros e He.
      apply in_map_iff in He as (q & <- & _). reflexivity.
  - now destruct o.
Qed.

Lemma late_subscriber_stream_witness :
  let d := {| sessionId := "s1"; query := "q"; breadth := 4; depth := 2;
              status := running; progress := None; result := None;
              createdAt := 0; updatedAt := 0; expiresAt := 86400000 |} in
  let ps := (1, progress_of 1 3) :: (2, progress_of 2 3) :: nil in
  let o := Succeeds 4 ("fact" :: nil) nil "report" in
  let live := OnProgress sample_ctx 3 (progress_of 3 3)
              :: terminal_event sample_ctx o :: nil in
  sessions sample_started !! c_sessionId sample_ctx = Some d
  /\ 3 <= expiresAt d
  /\ received
       (api_run (List.map (fun tp => OnProgress sample_ctx (fst tp) (snd tp)) ps
                 ++ Connect "s1" 3 7 :: live) sample_started) 7
     = researchProgress sample_ctx (progress_of 2 3)
       :: researchProgress sample_ctx (progress_of 3 3)
       :: finalProgress sample_ctx ("fact" :: nil) :: nil.
Proof.
  intros d ps o live.
  assert (H1 : sessions sample_started !! c_sessionId sample_ctx = Some d)
    by (vm_compute; reflexivity).
  assert (H2 : 3 <= expiresAt d) by (simpl; lia).
  assert (H3 : unknown_client 7 sample_started).
  { split; [reflexivity|]. split; [apply not_elem_of_empty|].
    intros k cl Hk. change (sseClients sample_started) with (∅ : gmap string (list nat)) in Hk.
    rewrite lookup_empty in Hk. discriminate. }
  split; [exact H1|]. split; [exact H2|].
  exact (proj1 (late_subscriber_stream sample_ctx sample_started d ps 3 7 live
                  (progress_of 3 3 :: nil) o H1 eq_refl H2 H3 eq_refl eq_refl)).
Defined.

Lemma status_one_directional_in_research_run_witness :
  let rq := {| q_query := "q"; q_breadth := 4; q_depth := 2;
               q_llmConfig := None; q_customGptId := None |} in
  let ps := (1, progress_of 1 2) :: (2, progress_of 2 2) :: nil in
  researchSchema sample_request = Some rq
  /\ statuses_after "s1"
       (flat_map store_ops_of
          (Post "s1" 0 sample_request
           :: run_events (ctx_of "s1" 0 rq) ps (Fails 3 "report failed"))) ∅
     = Some pending :: Some running :: Some running :: Some running
       :: Some error :: nil.
Proof.
  intros rq ps.
  assert (H : researchSchema sample_request = Some rq) by (vm_compute; reflexivity).
  split; [exact H|].
  exact (proj1 (status_one_directional_in_research_run "s1" 0 sample_request rq ps
                  (Fails 3 "report failed") ∅ H)).
Defined.

End ResearchApi.

(* ===================================================================== *)
(** * Recursive scheduler: the shared concurrency pool *)
(* ===================================================================== *)

Module Scheduler.

(** Modelled from the spec: the recursive scheduler ([deepResearch], imported
    by the API server from [./deep-research]) is not among the sources. A
    [call] is one external search-and-scrape call, for one planned query of
    the node of the recursion tree at [path]; [depth] and [breadth] are
    those of the task that planned it. *)
Record call : Type := mkCall {
  path : list nat;
  depth : nat;
  breadth : nat
}.

(** Modelled from the spec: the breadth of a child task,
    [ceil(breadth / 2)] clamped to at least 1. *)
Definition child_breadth (b : nat) : nat := Nat.max 1 (Nat.div (b + 1) 2).

(** Modelled from the spec: the planner answers with at most [breadth]
    queries; [planned] is the number it would give. *)
Definition planned_calls (prefix : list nat) (d b planned : nat) : list call :=
  List.map (fun j => {| path := prefix ++ j :: nil; depth := d; breadth := b |})
           (List.seq 0 (Nat.min planned b)).

(** Modelled from the spec: when the task has depth left ([depth > 1]), a
    processed query seeds a child task of depth [depth - 1] and breadth
    [ceil(breadth / 2)], whose planned queries join the same pool. *)
Definition children (c : call) (planned : nat) : list call :=
  if (1 <? depth c)%nat
  then planned_calls (path c) (depth c - 1) (child_breadth (breadth c)) planned
  else nil.

(** Modelled from the spec: the one pool of the process. [in_flight] are
    the calls that are executing, [waiting] those that wait for a slot, in
    the order of their arrival. *)
Record pool : Type := mkPool {
  in_flight : list call;
  waiting : list call
}.

(** What can happen to the pool: the oldest waiting call takes a free slot;
    the call in slot [i] settles, and its child task plans [planned]
    queries. *)
Inductive action : Type :=
| Start
| Settle (i : nat) (planned : nat).

(** Modelled from the spec: a call starts only while fewer than [K] calls
    are in flight; a settled call frees its slot and queues the calls of its
    child task. *)
Definition act (K : nat) (s : pool) (a : action) : pool :=
  match a with
  | Start =>
      match waiting s with
      | c :: rest =>
          if (List.length (in_flight s) <? K)%nat
          then {| in_flight := in_flight s ++ c :: nil; waiting := rest |}
          else s
      | nil => s
      end
  | Settle i planned =>
      match in_flight s !! i with
      | Some c =>
          {| in_flight := delete i (in_flight s);
             waiting := waiting s ++ children c planned |}
      | None => s
      end
  end.

(** Modelled from the spec: a research session of the given breadth and
    depth under a schedule of pool actions; the root task plans [planned]
    queries. *)
Definition research (K b d planned : nat) (schedule : list action) : pool :=
  fold_left (act K) schedule
            {| in_flight := nil; waiting := planned_calls nil d b planned |}.

(** ** The bound on concurrent calls *)

Lemma act_bound (K : nat) (s : pool) (a : action) :
  (List.length (in_flight s) <= K)%nat ->
  (List.length (in_flight (act K s a)) <= K)%nat.
Proof.
  intros Hle. destruct a as [|i planned]; simpl.
  - destruct (waiting s) as [|c rest]; [exact Hle|].
    destruct (Nat.ltb_spec (List.length (in_flight s)) K) as [Hlt|_]; [|exact Hle].
    simpl. rewrite length_app. simpl. lia.
  - destruct (in_flight s !! i) as [c|] eqn:Hi; [|exact Hle]. simpl.
    pose proof (length_delete (in_flight s) i (mk_is_Some _ _ Hi)). lia.
Qed.

Lemma schedule_bound (K : nat) (schedule : list action) (s : pool) :
  (List.length (in_flight s) <= K)%nat ->
  (List.length (in_flight (fold_left (act K) schedule s)) <= K)%nat.
Proof.
  revert s; induction schedule as [|a schedule IH]; intros s Hle; simpl;
    [exact Hle|]. apply IH. now apply act_bound.
Qed.

(** C6: under every schedule, and at every point of it, at most [K]
    search-and-scrape calls are in flight, whatever the levels of the
    recursion tree they belong to: the whole tree draws on one pool. *)
Theorem at_most_K_calls_in_flight (K b d planned : nat)
    (schedule later : list action) :
  (List.length (in_flight (research K b d planned schedule)) <= K)%nat
  /\ (List.length (in_flight
        (fold_left (act K) later (research K b d planned schedule))) <= K)%nat.
Proof.
  split.
  - unfold research. apply schedule_bound. simpl. lia.
  - apply schedule_bound. unfold research. apply schedule_bound. simpl. lia.
Qed.

(** With breadth 2, depth 2 and a limit of 2: the first root call starts
    and settles, its child task queues one call behind the second root
    call; both then run side by side, one of each level, and a further
    start finds nothing to run. *)
Example calls_of_two_levels_share_the_pool :
  let s := research 2 2 2 2
             (Start :: Settle 0 1 :: Start :: Start :: Start :: nil) in
  List.map (fun c => (path c, depth c)) (in_flight s)
  = ((1 :: nil)%nat, 2%nat) :: ((0 :: 0 :: nil)%nat, 1%nat) :: nil
  /\ waiting s = nil.
Proof. split; vm_compute; reflexivity. Qed.

(** With a limit of 1 the second root call waits for the first to settle. *)
Example second_call_waits :
  List.map path (in_flight (research 1 2 1 2 (Start :: Start :: nil)))
  = (0 :: nil)%nat :: nil
  /\ List.map path (waiting (research 1 2 1 2 (Start :: Start :: nil)))
     = (1 :: nil)%nat :: nil.
Proof. split; vm_compute; reflexivity. Qed.

End Scheduler.

(* ===================================================================== *)
(** * Session store: round trips, lifetime, listing, deletion, sweep *)
(* ===================================================================== *)

Module SessionStoreFacts.
Import SessionStore.

(** The call is a [createSession] that draws the id [sid]. *)
Definition creates (sid : string) (op : store_op) : bool :=
  match op with
  | CreateSession uuid _ _ _ _ => bool_decide (uuid = sid)
  | _ => false
  end.

(** The fields of an entry that only [createSession] sets. *)
Definition same_lifetime (d d' : SessionData) : Prop :=
  sessionId d' = sessionId d /\ query d' = query d
  /\ breadth d' = breadth d /\ depth d' = depth d
  /\ createdAt d' = createdAt d /\ expiresAt d' = expiresAt d.

(** The entry that [createSession] stores. *)
Definition fresh_session (uuid : string) (now : Z) (q : string) (b d : Z)
  : SessionData :=
  {| sessionId := uuid; query := q; breadth := b; depth := d;
     status := pending; progress := None; result := None;
     createdAt := now; updatedAt := now;
     expiresAt := now + SESSION_EXPIRY_MS |}.

(** A sample store: session "old" created at time 0, session "new" created
    twenty hours later. *)
Definition sample_two : Sessions :=
  run_ops (CreateSession "old" 0 "first" 4 2
           :: CreateSession "new" 72000000 "second" 3 1 :: nil).

Lemma same_lifetime_refl (d : SessionData) : same_lifetime d d.
Proof. repeat split. Qed.

Lemma same_lifetime_trans (a b c : SessionData) :
  same_lifetime a b -> same_lifetime b c -> same_lifetime a c.
Proof.
  unfold same_lifetime. intros (?&?&?&?&?&?) (?&?&?&?&?&?).
  repeat split; congruence.
Qed.

(** ** Create, then read *)

(** X1: a session that was just created is returned by [getSession], as a
    pending session without progress or result, up to and including the
    instant 24 hours after its creation; one millisecond later the read
    answers [None] and removes the entry. An entry that was stored under the
    same id is replaced. *)
Theorem create_then_get (uuid : string) (now now' : Z) (q : string) (b d : Z)
    (sessions : Sessions) :
  fst (createSession uuid now q b d sessions) = uuid
  /\ getSession now' uuid (snd (createSession uuid now q b d sessions))
     = if now + 24 * 60 * 60 * 1000 <? now'
       then (None, delete uuid sessions)
       else (Some (fresh_session uuid now q b d),
             snd (createSession uuid now q b d sessions)).
Proof.
  split; [reflexivity|]. unfold getSession, createSession. cbn [snd].
  rewrite lookup_insert_eq. cbn [expiresAt].
  change (now + SESSION_EXPIRY_MS) with (now + 24 * 60 * 60 * 1000).
  destruct (now + 24 * 60 * 60 * 1000 <? now'); [|reflexivity].
  now rewrite delete_insert_eq.
Qed.

(** ** Lifetime of an entry *)

Lemma apply_op_lifetime (op : store_op) (sessions : Sessions) (sid : string)
    (d' : SessionData) :
  creates sid op = false ->
  apply_op op sessions !! sid = Some d' ->
  exists d, sessions !! sid = Some d /\ same_lifetime d d'.
Proof.
  intros Hc Hd'.
  destruct op as [uuid now q b dp|now k|now k st|now k p
                 |now k r|now k e|k|now|now]; simpl in *.
  - apply bool_decide_eq_false in Hc.
    rewrite lookup_insert_ne in Hd' by exact Hc.
    exists d'. split; [exact Hd'|apply same_lifetime_refl].
  - rewrite getSession_lookup in Hd'.
    destruct (decide (sid = k)) as [->|Hne].
    + destruct (sessions !! k) as [d0|]; [|discriminate].
      destruct (expiresAt d0 <? now); [discriminate|].
      exists d0. split; [reflexivity|]. inversion Hd'. apply same_lifetime_refl.
    + exists d'. split; [exact Hd'|apply same_lifetime_refl].
  - unfold updateSessionStatus in Hd'.
    destruct (sessions !! k) as [d0|] eqn:Hk.
    + destruct (decide (k = sid)) as [->|Hne].
      * rewrite lookup_insert_eq in Hd'. inversion Hd'.
        exists d0. split; [exact Hk|repeat split].
      * rewrite lookup_insert_ne in Hd' by exact Hne.
        exists d'. split; [exact Hd'|apply same_lifetime_refl].
    + exists d'. split; [exact Hd'|apply same_lifetime_refl].
  - unfold updateSessionProgress in Hd'.
    destruct (sessions !! k) as [d0|] eqn:Hk.
    + destruct (decide (k = sid)) as [->|Hne].
      * rewrite lookup_insert_eq in Hd'. inversion Hd'.
        exists d0. split; [exact Hk|repeat split].
      * rewrite lookup_insert_ne in Hd' by exact Hne.
        exists d'. split; [exact Hd'|apply same_lifetime_refl].
    + exists d'. split; [exact Hd'|apply same_lifetime_refl].
  - unfold updateSessionResult in Hd'.
    destruct (sessions !! k) as [d0|] eqn:Hk.
    + destruct (decide (k = sid)) as [->|Hne].
      * rewrite lookup_insert_eq in Hd'. inversion Hd'.
        exists d0. split; [exact Hk|repeat split].
      * rewrite lookup_insert_ne in Hd' by exact Hne.
        exists d'. split; [exact Hd'|apply same_lifetime_refl].
    + exists d'. split; [exact Hd'|apply same_lifetime_refl].
  - unfold setSessionError in Hd'.
    destruct (sessions !! k) as [d0|] eqn:Hk.
    + destruct (decide (k = sid)) as [->|Hne].
      * rewrite lookup_insert_eq in Hd'. inversion Hd'.
        exists d0. split; [exact Hk|repeat split].
      * rewrite lookup_insert_ne in Hd' by exact Hne.
        exists d'. split; [exact Hd'|apply same_lifetime_refl].
    + exists d'. split; [exact Hd'|apply same_lifetime_refl].
  - destruct (decide (k = sid)) as [->|Hne].
    + rewrite lookup_delete_eq in Hd'. discriminate.
    + rewrite lookup_delete_ne in Hd' by exact Hne.
      exists d'. split; [exact Hd'|apply same_lifetime_refl].
  - exists d'. split; [exact Hd'|apply same_lifetime_refl].
  - rewrite cleanup_lookup in Hd'.
    destruct (sessions !! sid) as [d0|]; [|discriminate].
    destruct (expiresAt d0 <? now); [discriminate|].
    exists d0. split; [reflexivity|]. inversion Hd'. apply same_lifetime_refl.
Qed.

Lemma fold_ops_lifetime (ops : list store_op) (sessions : Sessions)
    (sid : string) (d' : SessionData) :
  forallb (fun op => negb (creates sid op)) ops = true ->
  fold_left (fun m op => apply_op op m) ops sessions !! sid = Some d' ->
  exists d, sessions !! sid = Some d /\ same_lifetime d d'.
Proof.
  revert sessions; induction ops as [|op ops IH]; intros sessions Hall Hd'; simpl in *.
  - exists d'. split; [exact Hd'|apply same_lifetime_refl].
  - apply andb_true_iff in Hall as [Hop Hall]. apply negb_true_iff in Hop.
    destruct (IH _ Hall Hd') as (d1 & Hd1 & Hl1).
    destruct (apply_op_lifetime _ _ _ _ Hop Hd1) as (d & Hd & Hl).
    exists d. split; [exact Hd|]. eapply same_lifetime_trans; eauto.
Qed.

(** X2: whatever calls are made on the store, as long as none of them is a
    [createSession] that draws the same id, an entry that is in the store
    afterwards was there before, with the same id, query, breadth, depth,
    creation time and expiry time: no update, read or sweep extends the life
    of a session or brings a removed one back. *)
Theorem calls_keep_lifetime (ops : list store_op) (sessions : Sessions)
    (sid : string) (d' : SessionData) :
  forallb (fun op => negb (creates sid op)) ops = true ->
  fold_left (fun m op => apply_op op m) ops sessions !! sid = Some d' ->
  exists d, sessions !! sid = Some d /\ same_lifetime d d'.
Proof. apply fold_ops_lifetime. Qed.

Lemma calls_keep_lifetime_witness :
  let ops := UpdateSessionStatus 10 "old" running
             :: CleanupExpiredSessions 20 :: nil in
  forallb (fun op => negb (creates "old" op)) ops = true
  /\ exists d, sample_two !! ("old" : string) = Some d
               /\ same_lifetime d
                    {| sessionId := "old"; query := "first"; breadth := 4;
                       depth := 2; status := running; progress := None;
                       result := None; createdAt := 0; updatedAt := 10;
                       expiresAt := 86400000 |}.
Proof.
  intros ops. split; [reflexivity|].
  apply (calls_keep_lifetime ops sample_two "old"); [reflexivity|].
  vm_compute. reflexivity.
Defined.

(** X3: an update does not check the expiry, but it cannot make an expired
    session readable again: when the entry under [sid] has expired at
    [now], then after any calls that do not create [sid] anew, a read at
    [now] or later answers [None]. *)
Theorem expired_stays_unreadable (ops : list store_op) (sessions : Sessions)
    (sid : string) (d : SessionData) (now later : Z) :
  sessions !! sid = Some d -> expiresAt d < now -> now <= later ->
  forallb (fun op => negb (creates sid op)) ops = true ->
  fst (getSession later sid (fold_left (fun m op => apply_op op m) ops sessions))
  = None.
Proof.
  intros Hd Hexp Hlater Hall. unfold getSession.
  destruct (fold_left _ ops sessions !! sid) as [d'|] eqn:Hd'; [|reflexivity].
  destruct (fold_ops_lifetime _ _ _ _ Hall Hd') as (d0 & Hd0 & Hl).
  rewrite Hd in Hd0. inversion Hd0; subst d0.
  destruct Hl as (_ & _ & _ & _ & _ & He).
  destruct (Z.ltb_spec (expiresAt d') later); [reflexivity|lia].
Qed.

Lemma expired_stays_unreadable_witness :
  let d := fresh_session "old" 0 "first" 4 2 in
  let ops := UpdateSessionStatus 90000000 "old" running
             :: UpdateSessionResult 90000001 "old" sample_result :: nil in
  sample_two !! ("old" : string) = Some d
  /\ expiresAt d < 90000000
  /\ fst (getSession 90000002 "old"
            (fold_left (fun m op => apply_op op m) ops sample_two)) = None.
Proof.
  intros d ops.
  assert (H1 : sample_two !! ("old" : string) = Some d) by (vm_compute; reflexivity).
  assert (H2 : expiresAt d < 90000000) by (vm_compute; reflexivity).
  split; [exact H1|]. split; [exact H2|].
  apply (expired_stays_unreadable ops sample_two "old" d 90000000 90000002 H1 H2);
    [lia|reflexivity].
Defined.

(** ** Listing *)

Lemma getAllSessions_In (now : Z) (sessions : Sessions) (d : SessionData) :
  In d (getAllSessions now sessions)
  <-> exists sid, sessions !! sid = Some d /\ now <= expiresAt d.
Proof.
  unfold getAllSessions. rewrite filter_In. split.
  - intros [Hin Hle]. apply list_elem_of_In, list_elem_of_fmap in Hin
      as ([sid d0] & -> & Hin).
    apply elem_of_map_to_list in Hin. exists sid. split; [exact Hin|].
    now apply Z.leb_le.
  - intros (sid & Hd & Hle). split; [|now apply Z.leb_le].
    apply list_elem_of_In, list_elem_of_fmap. exists (sid, d).
    split; [reflexivity|]. now apply elem_of_map_to_list.
Qed.

Lemma NoDup_map_filter {A B : Type} (f : A -> B) (p : A -> bool) (l : list A) :
  List.NoDup (List.map f l) -> List.NoDup (List.map f (List.filter p l)).
Proof.
  induction l as [|a l IH]; simpl; intros Hnd; [constructor|].
  inversion Hnd as [|? ? Hnin Hnd']; subst.
  destruct (p a); simpl; [|now apply IH].
  constructor; [|now apply IH].
  intros Hin. apply Hnin. apply in_map_iff in Hin as (x & Hx & Hin).
  apply filter_In in Hin as [Hin _]. apply in_map_iff. eauto.
Qed.

(** X4: [getAllSessions] lists exactly the sessions that [getSession] would
    return at the same instant, each id once; it leaves expired entries
    out without removing them. *)
Theorem getAllSessions_lists_readable (ops : list store_op) (now : Z)
    (d : SessionData) :
  (In d (getAllSessions now (run_ops ops))
   <-> getSession now (sessionId d) (run_ops ops) = (Some d, run_ops ops))
  /\ List.NoDup (List.map sessionId (getAllSessions now (run_ops ops))).
Proof.
  pose proof (run_ops_wf ops) as Hwf. split.
  - rewrite getAllSessions_In. unfold getSession. split.
    + intros (sid & Hd & Hle). destruct (Hwf _ _ Hd) as [<- _].
      rewrite Hd. destruct (Z.ltb_spec (expiresAt d) now); [lia|reflexivity].
    + destruct (run_ops ops !! sessionId d) as [d0|] eqn:Hd0; [|discriminate].
      destruct (Z.ltb_spec (expiresAt d0) now); [discriminate|].
      intros [= ->]. eauto.
  - unfold getAllSessions. apply NoDup_map_filter.
    assert (Heq : List.map sessionId (snd <$> map_to_list (run_ops ops))
                  = fst <$> map_to_list (run_ops ops)).
    { assert (Hall : forall kd, In kd (map_to_list (run_ops ops)) ->
                       sessionId (snd kd) = fst kd).
      { intros [k d0] Hin. apply list_elem_of_In, elem_of_map_to_list in Hin.
        now destruct (Hwf _ _ Hin). }
      induction (map_to_list (run_ops ops)) as [|kd l IH]; [reflexivity|].
      simpl. rewrite (Hall kd (or_introl eq_refl)). f_equal.
      apply IH. intros kd' Hin. apply Hall. now right. }
    rewrite Heq. apply NoDup_ListNoDup, NoDup_fst_map_to_list.
Qed.

(** ** Deletion *)

(** X5: [deleteSession] answers [true] exactly when the id is stored, also
    when the entry has expired and a read already answers [None]; after it
    a read of the id answers [None] and the other entries are as before. *)
Theorem deleteSession_spec (sid : string) (sessions : Sessions) (now : Z) :
  (fst (deleteSession sid sessions) = true <-> is_Some (sessions !! sid))
  /\ getSession now sid (snd (deleteSession sid sessions))
     = (None, snd (deleteSession sid sessions))
  /\ (forall k, k <> sid -> snd (deleteSession sid sessions) !! k = sessions !! k)
  /\ (forall d, sessions !! sid = Some d -> expiresAt d < now ->
        fst (getSession now sid sessions) = None
        /\ fst (deleteSession sid sessions) = true).
Proof.
  unfold deleteSession. cbn [fst snd]. split; [|split; [|split]].
  - apply bool_decide_eq_true.
  - unfold getSession. now rewrite lookup_delete_eq.
  - intros k Hk. now apply lookup_delete_ne.
  - intros d Hd Hexp. split.
    + unfold getSession. rewrite Hd.
      now rewrite (proj2 (Z.ltb_lt _ _) Hexp).
    + apply bool_decide_eq_true. rewrite Hd. eauto.
Qed.

(** ** The sweep *)

(** X6: sweeping twice is sweeping once at the later instant, in either
    order; in particular the sweep is idempotent. *)
Theorem cleanup_twice (t1 t2 : Z) (sessions : Sessions) :
  t1 <= t2 ->
  cleanupExpiredSessions t2 (cleanupExpiredSessions t1 sessions)
  = cleanupExpiredSessions t2 sessions
  /\ cleanupExpiredSessions t1 (cleanupExpiredSessions t2 sessions)
     = cleanupExpiredSessions t2 sessions.
Proof.
  intros Hle. split; apply map_eq; intros k; rewrite !cleanup_lookup;
    destruct (sessions !! k) as [d|]; try reflexivity.
  - destruct (Z.ltb_spec (expiresAt d) t1), (Z.ltb_spec (expiresAt d) t2);
      try reflexivity; lia.
  - destruct (Z.ltb_spec (expiresAt d) t2); [reflexivity|].
    destruct (Z.ltb_spec (expiresAt d) t1); [lia|reflexivity].
Qed.

Lemma cleanup_twice_witness :
  0 <= 90000000
  /\ cleanupExpiredSessions 90000000 (cleanupExpiredSessions 0 sample_two)
     = cleanupExpiredSessions 90000000 sample_two.
Proof.
  assert (H : 0 <= 90000000) by lia.
  split; [exact H|].
  exact (proj1 (cleanup_twice 0 90000000 sample_two H)).
Defined.

(** X7: the sweep cannot be observed through reads: at the instant of the
    sweep or later, [getSession] answers the same for every id whether the
    sweep ran or not, and [getAllSessions] lists the same sessions. *)
Theorem cleanup_unobservable (now later : Z) (sessions : Sessions) :
  now <= later ->
  (forall sid,
     fst (getSession later sid (cleanupExpiredSessions now sessions))
     = fst (getSession later sid sessions))
  /\ (forall d,
        In d (getAllSessions later (cleanupExpiredSessions now sessions))
        <-> In d (getAllSessions later sessions)).
Proof.
  intros Hle. split.
  - intros sid. unfold getSession. rewrite cleanup_lookup.
    destruct (sessions !! sid) as [d|]; [|reflexivity].
    destruct (Z.ltb_spec (expiresAt d) now) as [Hexp|Hfresh].
    + now rewrite (proj2 (Z.ltb_lt (expiresAt d) later)) by lia.
    + now destruct (expiresAt d <? later).
  - intros d. rewrite !getAllSessions_In. split.
    + intros (sid & Hd & Hl). rewrite cleanup_lookup in Hd.
      destruct (sessions !! sid) as [d0|] eqn:Hs; [|discriminate].
      destruct (expiresAt d0 <? now); [discriminate|].
      inversion Hd; subst d0. eauto.
    + intros (sid & Hd & Hl). exists sid. split; [|exact Hl].
      rewrite cleanup_lookup, Hd.
      destruct (Z.ltb_spec (expiresAt d) now); [lia|reflexivity].
Qed.

Lemma cleanup_unobservable_witness :
  80000000 <= 90000000
  /\ fst (getSession 90000000 "new" (cleanupExpiredSessions 80000000 sample_two))
     = fst (getSession 90000000 "new" sample_two).
Proof.
  assert (H : 80000000 <= 90000000) by lia.
  split; [exact H|].
  exact (proj1 (cleanup_unobservable 80000000 90000000 sample_two H) "new"%string).
Defined.

End SessionStoreFacts.

(* ===================================================================== *)
(** * Session and history endpoints *)
(* ===================================================================== *)

Module HistoryApi.
Import SessionStore ResearchApi.

(** The answers of [GET /session/:sessionId]: 404, the stored result, or
    the object [{ sessionId, status, progress }]. *)
Inductive session_response : Type :=
| SessionNotFound
| ResultView (r : ResearchResult)
| StatusView (sessionId : string) (st : Status) (p : option ResearchProgress).

(** [GET /session/:sessionId] *)
Definition get_session (sid : string) (now : Z) (sessions : Sessions)
  : session_response * Sessions :=
  let '(session, sessions') := getSession now sid sessions in
  (match session with
   | None => SessionNotFound
   | Some d =>
       match status d, result d with
       | completed, Some r => ResultView r
       | _, _ => StatusView sid (status d) (progress d)
       end
   end, sessions').

(** [new Date(r.timestamp).getTime()] *)
Definition time_of (r : ResearchResult) : Z := r_timestamp r.

(** [results.sort((a, b) => time(b) - time(a))]: the sort is stable, so a
    result is placed before the first one that is not newer than it. *)
Fixpoint insert_newest_first (r : ResearchResult) (l : list ResearchResult)
  : list ResearchResult :=
  match l with
  | nil => r :: nil
  | x :: rest =>
      if time_of x <=? time_of r then r :: x :: rest
      else x :: insert_newest_first r rest
  end.

Definition sort_newest_first (l : list ResearchResult) : list ResearchResult :=
  foldr insert_newest_first nil l.

(** [sessions.filter(s => s.result).map(s => s.result).sort(...)] *)
Definition history_of (all : list SessionData) : list ResearchResult :=
  sort_newest_first (omap result all).

(** [GET /history]. The order in which [getAllSessions] hands over the
    sessions shows only between results of equal timestamp. *)
Definition get_history (now : Z) (sessions : Sessions) : list ResearchResult :=
  history_of (getAllSessions now sessions).

(** The answers of [DELETE /history/:sessionId]. *)
Inductive delete_response : Type :=
| DeleteNotFound
| DeleteSuccess.

(** [DELETE /history/:sessionId] *)
Definition delete_history (sid : string) (sessions : Sessions)
  : delete_response * Sessions :=
  let '(deleted, sessions') := deleteSession sid sessions in
  (if deleted then DeleteSuccess else DeleteNotFound, sessions').

(** [DELETE /history]: every listed session is deleted by its own
    [sessionId]; the answer carries the number of listed sessions. *)
Definition clear_history (now : Z) (sessions : Sessions) : Z * Sessions :=
  let listed := getAllSessions now sessions in
  (Z.of_nat (List.length listed),
   fold_left (fun m s => snd (deleteSession (sessionId s) m)) listed sessions).

(** The session that a research run leaves in the store under [sid]: the
    entry made by [createSession] at [now], with the status, progress and
    result that the run wrote. *)
Definition session_after_run (ctx : research_ctx) (now : Z)
    (ps : list (Z * InternalResearchProgress)) (o : outcome) (d : SessionData)
  : Prop :=
  sessionId d = c_sessionId ctx /\ expiresAt d = now + SESSION_EXPIRY_MS
  /\ status d = final_status o
  /\ progress d = latest ctx ps None
  /\ result d
     = Some match o with
            | Succeeds t l u r => researchResult ctx t l u r
            | Fails t e =>
                {| r_sessionId := c_sessionId ctx; r_query := c_query ctx;
                   r_learnings := nil; r_visitedUrls := nil; r_report := None;
                   r_timestamp := t; r_duration := 0; r_success := false;
                   r_error := Some e |}
            end.

(** ** The session view *)

Lemma progress_updates_store (ctx : research_ctx)
    (ps : list (Z * InternalResearchProgress)) (m : Sessions) (d : SessionData) :
  m !! c_sessionId ctx = Some d ->
  exists d',
    fold_left (fun m op => apply_op op m)
      (flat_map store_ops_of
         (List.map (fun tp => OnProgress ctx (fst tp) (snd tp)) ps)) m
    !! c_sessionId ctx = Some d'
    /\ sessionId d' = sessionId d /\ query d' = query d
    /\ expiresAt d' = expiresAt d /\ status d' = status d
    /\ result d' = result d /\ progress d' = latest ctx ps (progress d).
Proof.
  revert m d; induction ps as [|tp ps IH]; intros m d Hd; simpl.
  - exists d. repeat split; auto.
  - unfold updateSessionProgress at 1. rewrite Hd.
    match goal with
    | |- context [fold_left _ _ (<[_ := ?d1]> m)] =>
        destruct (IH (<[c_sessionId ctx := d1]> m) d1) as (d' & Hd' & H1 & H2 & H3 & H4 & H5 & H6);
          [apply lookup_insert_eq|]
    end.
    exists d'. simpl in *. repeat split; auto.
Qed.

Lemma run_leaves_session (uuid : string) (now : Z) (body : json)
    (rq : ResearchQuery) (ps : list (Z * InternalResearchProgress))
    (o : outcome) (st : api_state) :
  researchSchema body = Some rq ->
  exists d,
    sessions (api_run (Post uuid now body :: run_events (ctx_of uuid now rq) ps o) st)
    !! uuid = Some d
    /\ session_after_run (ctx_of uuid now rq) now ps o d.
Proof.
  intros Hparse. set (ctx := ctx_of uuid now rq).
  rewrite api_run_sessions. simpl. rewrite Hparse. unfold run_events.
  rewrite flat_map_app, !fold_left_app. simpl.
  unfold updateSessionStatus at 1. rewrite lookup_insert_eq. simpl.
  match goal with
  | |- context [fold_left _ _ (<[uuid := ?d1]> ?m0)] =>
      destruct (progress_updates_store ctx ps (<[uuid := d1]> m0) d1)
        as (d' & Hd' & H1 & H2 & H3 & H4 & H5 & H6); [apply lookup_insert_eq|]
  end.
  change (c_sessionId ctx) with uuid in Hd'. simpl in H1, H2, H3, H4, H5, H6.
  destruct o as [t l u r|t e]; simpl.
  - unfold updateSessionResult. rewrite Hd', lookup_insert_eq.
    eexists. split; [reflexivity|]. unfold session_after_run. simpl.
    repeat split; auto.
  - unfold setSessionError. rewrite Hd', lookup_insert_eq.
    eexists. split; [reflexivity|]. unfold session_after_run. simpl.
    repeat split; auto. now rewrite H2.
Qed.

(** X8: what [GET /session/:sessionId] shows of a finished run, within 24
    hours of the request: after a successful run, the stored result with
    the report; after a failed run, only the status [error] and the
    progress of the last callback, so the error message, which is kept in
    the stored result, is not part of the answer. *)
Theorem session_view_after_run (uuid : string) (now later : Z) (body : json)
    (rq : ResearchQuery) (ps : list (Z * InternalResearchProgress))
    (o : outcome) (st : api_state) :
  researchSchema body = Some rq ->
  later <= now + 24 * 60 * 60 * 1000 ->
  fst (get_session uuid later
         (sessions (api_run (Post uuid now body
                             :: run_events (ctx_of uuid now rq) ps o) st)))
  = match o with
    | Succeeds t l u r => ResultView (researchResult (ctx_of uuid now rq) t l u r)
    | Fails _ _ => StatusView uuid error (latest (ctx_of uuid now rq) ps None)
    end.
Proof.
  intros Hparse Hlater.
  destruct (run_leaves_session uuid now body rq ps o st Hparse)
    as (d & Hd & _ & Hexp & Hst & Hpr & Hres).
  unfold get_session, getSession. rewrite Hd.
  destruct (Z.ltb_spec (expiresAt d) later) as [Hlt|_];
    [rewrite Hexp in Hlt; unfold SESSION_EXPIRY_MS in Hlt; lia|].
  cbn [fst]. rewrite Hst, Hres, Hpr. now destruct o.
Qed.

Lemma session_view_after_run_witness :
  let rq := {| q_query := "q"; q_breadth := 4; q_depth := 2;
               q_llmConfig := None; q_customGptId := None |} in
  researchSchema sample_request = Some rq
  /\ 10 <= 0 + 24 * 60 * 60 * 1000
  /\ fst (get_session "s1" 10
            (sessions (api_run (Post "s1" 0 sample_request
                                :: run_events (ctx_of "s1" 0 rq)
                                     ((1, progress_of 1 2) :: nil)
                                     (Fails 2 "report failed")) empty_api)))
     = StatusView "s1" error
         (Some (researchProgress (ctx_of "s1" 0 rq) (progress_of 1 2))).
Proof.
  intros rq.
  assert (H1 : researchSchema sample_request = Some rq) by (vm_compute; reflexivity).
  assert (H2 : 10 <= 0 + 24 * 60 * 60 * 1000) by lia.
  split; [exact H1|]. split; [exact H2|].
  exact (session_view_after_run "s1" 0 10 sample_request rq
           ((1, progress_of 1 2) :: nil) (Fails 2 "report failed") empty_api H1 H2).
Defined.

(** ** The history *)

Lemma insert_newest_first_perm (r : ResearchResult) (l : list ResearchResult) :
  Permutation (insert_newest_first r l) (r :: l).
Proof.
  induction l as [|x l IH]; simpl; [reflexivity|].
  destruct (time_of x <=? time_of r); [reflexivity|].
  rewrite IH. apply perm_swap.
Qed.

Lemma insert_newest_first_sorted (r : ResearchResult) (l : list ResearchResult) :
  Sorted (fun a b => time_of b <= time_of a) l ->
  Sorted (fun a b => time_of b <= time_of a) (insert_newest_first r l).
Proof.
  induction 1 as [|x l Hs IH Hhd]; simpl; [repeat constructor|].
  destruct (Z.leb_spec (time_of x) (time_of r)) as [Hle|Hgt].
  - constructor; [now constructor|]. now constructor.
  - constructor; [exact IH|].
    destruct Hhd as [|y l Hxy]; simpl.
    + constructor. lia.
    + destruct (time_of y <=? time_of r); constructor; [lia|exact Hxy].
Qed.

Lemma sort_newest_first_perm (l : list ResearchResult) :
  Permutation (sort_newest_first l) l.
Proof.
  induction l as [|r l IH]; simpl; [reflexivity|].
  rewrite insert_newest_first_perm. now constructor.
Qed.

Lemma sort_newest_first_sorted (l : list ResearchResult) :
  Sorted (fun a b => time_of b <= time_of a) (sort_newest_first l).
Proof.
  induction l as [|r l IH]; simpl; [constructor|].
  now apply insert_newest_first_sorted.
Qed.

Lemma In_omap_result (all : list SessionData) (r : ResearchResult) :
  In r (omap result all) <-> exists d, In d all /\ result d = Some r.
Proof.
  rewrite <- list_elem_of_In, list_elem_of_omap.
  split; intros (d & Hd & Hr); exists d; split; auto;
    now apply list_elem_of_In.
Qed.

(** X9: [GET /history] answers with the results of the sessions that have
    not expired and have a result, those of failed runs included, each as
    often as it is stored, the newest first; no result is made up and none
    is left out. *)
Theorem history_sorted_and_complete (now : Z) (sessions : Sessions) :
  Sorted (fun a b => time_of b <= time_of a) (get_history now sessions)
  /\ Permutation (get_history now sessions)
                 (omap result (getAllSessions now sessions))
  /\ (forall r,
        In r (get_history now sessions)
        <-> exists sid d, sessions !! sid = Some d /\ now <= expiresAt d
                          /\ result d = Some r).
Proof.
  unfold get_history, history_of. split; [apply sort_newest_first_sorted|].
  split; [apply sort_newest_first_perm|].
  intros r.
  assert (Hiff : In r (sort_newest_first (omap result (getAllSessions now sessions)))
                 <-> In r (omap result (getAllSessions now sessions))).
  { split; apply Permutation_in;
      [apply sort_newest_first_perm|symmetry; apply sort_newest_first_perm]. }
  rewrite Hiff, In_omap_result. split.
  - intros (d & Hd & Hr). apply SessionStoreFacts.getAllSessions_In in Hd
      as (sid & Hs & Hl). eauto.
  - intros (sid & d & Hs & Hl & Hr). exists d. split; [|exact Hr].
    apply SessionStoreFacts.getAllSessions_In. eauto.
Qed.

(** A failed run and a successful run are both listed, the later one
    first. *)
Example history_lists_failed_runs :
  let done := {| r_sessionId := "b"; r_query := "qb"; r_learnings := "fact" :: nil;
                 r_visitedUrls := nil; r_report := Some "report"%string;
                 r_timestamp := 9; r_duration := 8; r_success := true;
                 r_error := None |} in
  let s := run_ops (CreateSession "a" 0 "qa" 4 2
                    :: SetSessionError 5 "a" "boom"
                    :: CreateSession "b" 1 "qb" 4 2
                    :: UpdateSessionResult 9 "b" done :: nil) in
  List.map (fun r => (r_sessionId r, r_success r, r_timestamp r)) (get_history 10 s)
  = ("b"%string, true, 9) :: ("a"%string, false, 5) :: nil.
Proof. vm_compute. reflexivity. Qed.

(** ** Clearing the history *)

Lemma fold_delete_by_id (l : list SessionData) (m : Sessions) :
  fold_left (fun m s => snd (deleteSession (sessionId s) m)) l m
  = fold_left (fun m sid => delete sid m) (List.map sessionId l) m.
Proof.
  revert m; induction l as [|a l IH]; intros m; simpl; [reflexivity|].
  apply IH.
Qed.

Lemma clear_history_lookup (ops : list store_op) (now : Z) (k : string) :
  snd (clear_history now (run_ops ops)) !! k
  = match run_ops ops !! k with
    | Some d => if now <=? expiresAt d then None else Some d
    | None => None
    end.
Proof.
  pose proof (run_ops_wf ops) as Hwf.
  unfold clear_history. cbn [snd]. rewrite fold_delete_by_id, fold_delete_lookup.
  destruct (decide (k ∈ List.map sessionId (getAllSessions now (run_ops ops))))
    as [Hin|Hnin].
  - apply list_elem_of_In, in_map_iff in Hin as (d & <- & Hin).
    apply SessionStoreFacts.getAllSessions_In in Hin as (sid & Hd & Hle).
    destruct (Hwf _ _ Hd) as [<- _]. rewrite Hd.
    now rewrite (proj2 (Z.leb_le _ _) Hle).
  - destruct (run_ops ops !! k) as [d|] eqn:Hk; [|reflexivity].
    destruct (Z.leb_spec now (expiresAt d)) as [Hle|_]; [|reflexivity].
    exfalso. apply Hnin. apply list_elem_of_In, in_map_iff. exists d.
    split; [now destruct (Hwf _ _ Hk)|].
    apply SessionStoreFacts.getAllSessions_In. eauto.
Qed.

(** X10: [DELETE /history] reports the number of sessions that have not
    expired and removes exactly those: afterwards the listing and the
    history are empty and no id is readable, then or later, while the
    entries that had already expired are still stored. *)
Theorem clear_history_effect (ops : list store_op) (now : Z) :
  fst (clear_history now (run_ops ops))
  = Z.of_nat (List.length (getAllSessions now (run_ops ops)))
  /\ getAllSessions now (snd (clear_history now (run_ops ops))) = nil
  /\ get_history now (snd (clear_history now (run_ops ops))) = nil
  /\ (forall later sid,
        now <= later ->
        fst (getSession later sid (snd (clear_history now (run_ops ops)))) = None)
  /\ (forall sid d,
        run_ops ops !! sid = Some d -> expiresAt d < now ->
        snd (clear_history now (run_ops ops)) !! sid = Some d).
Proof.
  assert (Hnil : getAllSessions now (snd (clear_history now (run_ops ops))) = nil).
  { destruct (getAllSessions now (snd (clear_history now (run_ops ops))))
      as [|d l] eqn:Hl; [reflexivity|]. exfalso.
    assert (Hin : In d (getAllSessions now (snd (clear_history now (run_ops ops)))))
      by (rewrite Hl; now left).
    apply SessionStoreFacts.getAllSessions_In in Hin as (sid & Hd & Hle).
    rewrite clear_history_lookup in Hd.
    destruct (run_ops ops !! sid) as [d0|]; [|discriminate].
    destruct (Z.leb_spec now (expiresAt d0)); [discriminate|].
    inversion Hd; subst d0. lia. }
  split; [reflexivity|]. split; [exact Hnil|]. split; [|split].
  - unfold get_history. now rewrite Hnil.
  - intros later sid Hlater. unfold getSession. rewrite clear_history_lookup.
    destruct (run_ops ops !! sid) as [d|]; [|reflexivity].
    destruct (Z.leb_spec now (expiresAt d)); [reflexivity|].
    destruct (Z.ltb_spec (expiresAt d) later); [reflexivity|lia].
  - intros sid d Hd Hexp. rewrite clear_history_lookup, Hd.
    destruct (Z.leb_spec now (expiresAt d)); [lia|reflexivity].
Qed.

End HistoryApi.

(* ===================================================================== *)
(** * The registry of progress streams, and accepted requests *)
(* ===================================================================== *)

Module ProgressRegistry.
Import SessionStore ResearchApi.

(** The clients of a list whose [write] does not throw. *)
Definition alive (st : api_state) (clients : list nat) : list nat :=
  List.filter (fun c => negb (bool_decide (c ∈ broken st))) clients.

(** No session is registered with an empty list of clients. *)
Definition registry_tidy (st : api_state) : Prop :=
  forall sid cl, sseClients st !! sid = Some cl -> cl <> nil.

(** What [GET /progress/:sessionId] writes to the new response: the stored
    progress of the session, when the session is readable. *)
Definition snapshot (sid : string) (now : Z) (st : api_state)
  : list ResearchProgress :=
  match fst (getSession now sid (sessions st)) with
  | Some d => replay (progress d)
  | None => nil
  end.

(** ** The registry never keeps an empty list *)

Lemma drop_dead_tidy (sid : string) (cl dead : list nat)
    (m : gmap string (list nat)) :
  (forall k cl', m !! k = Some cl' -> cl' <> nil) ->
  forall k cl', drop_dead sid cl dead m !! k = Some cl' -> cl' <> nil.
Proof.
  intros Hm k cl'. unfold drop_dead. destruct dead as [|x dead]; [apply Hm|].
  destruct (List.filter _ cl) as [|y rem] eqn:Hrem.
  - destruct (decide (k = sid)) as [->|Hne].
    + now rewrite lookup_delete_eq.
    + rewrite lookup_delete_ne by congruence. apply Hm.
  - destruct (decide (k = sid)) as [->|Hne].
    + rewrite lookup_insert_eq. intros [= <-]. discriminate.
    + rewrite lookup_insert_ne by congruence. apply Hm.
Qed.

Lemma sendProgressUpdate_tidy (sid : string) (data : ResearchProgress)
    (st : api_state) :
  registry_tidy st -> registry_tidy (sendProgressUpdate sid data st).
Proof.
  intros Ht. unfold sendProgressUpdate.
  destruct (sseClients st !! sid) as [[|a cl]|]; try exact Ht.
  intros k cl'. cbn [sseClients]. now apply drop_dead_tidy.
Qed.

Lemma api_step_tidy (ev : api_event) (st : api_state) :
  registry_tidy st -> registry_tidy (api_step ev st).
Proof.
  intros Ht.
  destruct ev as [uuid now body|ctx now p|ctx now l u r|ctx now e|sid now c|sid c|c];
    simpl.
  - unfold post_research. destruct (researchSchema body); exact Ht.
  - unfold onProgress. apply sendProgressUpdate_tidy. exact Ht.
  - unfold onResolved. apply sendProgressUpdate_tidy. exact Ht.
  - unfold onRejected. apply sendProgressUpdate_tidy. exact Ht.
  - unfold get_progress. destruct (getSession now sid (sessions st)) as [session m'].
    intros k cl. cbn [sseClients]. destruct (decide (sid = k)) as [->|Hne].
    + rewrite lookup_insert_eq. intros [= <-].
      now destruct (default nil (sseClients st !! k)).
    + rewrite lookup_insert_ne by exact Hne. apply Ht.
  - unfold on_close. destruct (sseClients st !! sid) as [cl0|]; [|exact Ht].
    intros k cl. cbn [sseClients].
    destruct (remove_first c cl0) as [|y rem].
    + destruct (decide (sid = k)) as [->|Hne].
      * now rewrite lookup_delete_eq.
      * rewrite lookup_delete_ne by exact Hne. apply Ht.
    + destruct (decide (sid = k)) as [->|Hne].
      * rewrite lookup_insert_eq. intros [= <-]. discriminate.
      * rewrite lookup_insert_ne by exact Hne. apply Ht.
  - exact Ht.
Qed.

Lemma api_run_tidy (evs : list api_event) (st : api_state) :
  registry_tidy st -> registry_tidy (api_run evs st).
Proof.
  revert st; induction evs as [|ev evs IH]; intros st Hst; [exact Hst|].
  unfold api_run in *. simpl. apply IH. now apply api_step_tidy.
Qed.

Lemma empty_api_tidy : registry_tidy empty_api.
Proof.
  intros k cl Hk.
  change (sseClients empty_api) with (∅ : gmap string (list nat)) in Hk.
  now rewrite lookup_empty in Hk.
Qed.

(** X11: whatever happens to the server (requests, progress callbacks, ends
    of runs, connections, closes, failing streams), the registry of progress
    streams never maps a session to an empty list of clients: an entry whose
    last client goes is removed. *)
Theorem registry_has_no_empty_entry (evs : list api_event) (sid : string)
    (cl : list nat) :
  sseClients (api_run evs empty_api) !! sid = Some cl -> cl <> nil.
Proof. apply (api_run_tidy evs empty_api empty_api_tidy). Qed.

Lemma registry_has_no_empty_entry_witness :
  let evs := Connect "s1" 1 7 :: Connect "s1" 2 8 :: Close "s1" 7 :: nil in
  sseClients (api_run evs empty_api) !! ("s1" : string) = Some (8%nat :: nil)
  /\ (8%nat :: nil) <> nil.
Proof.
  intros evs.
  assert (H : sseClients (api_run evs empty_api) !! ("s1" : string)
              = Some (8%nat :: nil)) by (vm_compute; reflexivity).
  split; [exact H|].
  exact (registry_has_no_empty_entry evs "s1" (8%nat :: nil) H).
Defined.

(** ** What one [sendProgressUpdate] does *)

Lemma filter_nil_all_false {A : Type} (f : A -> bool) (l : list A) :
  List.filter f l = nil -> forall x, In x l -> f x = false.
Proof.
  induction l as [|a l IH]; simpl; intros Hf x Hx; [contradiction|].
  destruct (f a) eqn:Hfa; [discriminate|].
  destruct Hx as [<-|Hx]; [exact Hfa|now apply IH].
Qed.

Lemma drop_dead_alive (sid : string) (st : api_state) (cl : list nat) :
  sseClients st !! sid = Some cl -> cl <> nil ->
  drop_dead sid cl (List.filter (fun c => bool_decide (c ∈ broken st)) cl)
            (sseClients st) !! sid
  = match alive st cl with nil => None | _ :: _ => Some (alive st cl) end.
Proof.
  intros Hcl Hne. unfold drop_dead, alive.
  destruct (List.filter (fun c => bool_decide (c ∈ broken st)) cl)
    as [|x dead] eqn:Hdead.
  - assert (Hid : List.filter (fun c => negb (bool_decide (c ∈ broken st))) cl = cl).
    { pose proof (filter_nil_all_false _ _ Hdead) as Hall. clear Hdead Hcl Hne.
      induction cl as [|a cl IH]; simpl; [reflexivity|].
      rewrite (Hall a (or_introl eq_refl)). simpl. f_equal.
      apply IH. intros y Hy. apply Hall. now right. }
    rewrite Hid, Hcl. destruct cl; [contradiction|reflexivity].
  - assert (Heq : List.filter (fun c => negb (bool_decide (c ∈ x :: dead))) cl
                  = List.filter (fun c => negb (bool_decide (c ∈ broken st))) cl).
    { rewrite <- Hdead. apply filter_ext_in. intros c Hc. f_equal.
      apply bool_decide_ext. rewrite list_elem_of_In, filter_In.
      rewrite bool_decide_eq_true. tauto. }
    rewrite Heq.
    destruct (List.filter (fun c => negb (bool_decide (c ∈ broken st))) cl);
      [apply lookup_delete_eq|apply lookup_insert_eq].
Qed.

(** X12: one [sendProgressUpdate] for a session with registered clients:
    every client whose write does not throw receives the event once for
    each time it is registered, a client whose write throws receives
    nothing; afterwards the session is registered with exactly its clients
    that accepted the write, in their order, or not at all when none did;
    the registrations of the other sessions, the session store and the set
    of failing streams are untouched. *)
Theorem sendProgressUpdate_delivers_and_prunes (sid : string)
    (data : ResearchProgress) (st : api_state) (cl : list nat) :
  sseClients st !! sid = Some cl -> cl <> nil ->
  (forall c,
     received (sendProgressUpdate sid data st) c
     = received st c
       ++ if bool_decide (c ∈ broken st) then nil else repeat data (occ c cl))
  /\ sseClients (sendProgressUpdate sid data st) !! sid
     = match alive st cl with nil => None | _ :: _ => Some (alive st cl) end
  /\ (forall k, k <> sid ->
        sseClients (sendProgressUpdate sid data st) !! k = sseClients st !! k)
  /\ sessions (sendProgressUpdate sid data st) = sessions st
  /\ broken (sendProgressUpdate sid data st) = broken st.
Proof.
  intros Hcl Hne. unfold sendProgressUpdate. rewrite Hcl.
  destruct cl as [|a cl']; [contradiction|].
  cbn [sessions sseClients wire broken]. split; [|split; [|split; [|split]]].
  - intros c. unfold received. cbn [wire]. apply write_all_received.
  - now apply drop_dead_alive.
  - intros k Hk. now apply drop_dead_other.
  - reflexivity.
  - reflexivity.
Qed.

Lemma sendProgressUpdate_delivers_and_prunes_witness :
  let st := api_run (Connect "s1" 1 7 :: Connect "s1" 2 8 :: Break 7 :: nil)
                    sample_started in
  let data := researchProgress sample_ctx (progress_of 1 2) in
  sseClients st !! ("s1" : string) = Some (7%nat :: 8%nat :: nil)
  /\ (7%nat :: 8%nat :: nil) <> nil
  /\ sseClients (sendProgressUpdate "s1" data st) !! ("s1" : string)
     = Some (8%nat :: nil)
  /\ received (sendProgressUpdate "s1" data st) 8 = data :: nil
  /\ received (sendProgressUpdate "s1" data st) 7 = nil.
Proof.
  intros st data.
  assert (H1 : sseClients st !! ("s1" : string) = Some (7%nat :: 8%nat :: nil))
    by (vm_compute; reflexivity).
  assert (H2 : (7%nat :: 8%nat :: nil) <> nil) by discriminate.
  destruct (sendProgressUpdate_delivers_and_prunes "s1" data st _ H1 H2)
    as (Hrecv & Hreg & _).
  split; [exact H1|]. split; [exact H2|]. split; [|split].
  - rewrite Hreg. vm_compute. reflexivity.
  - rewrite (Hrecv 8%nat). vm_compute. reflexivity.
  - rewrite (Hrecv 7%nat). vm_compute. reflexivity.
Defined.

(** ** Connecting and closing *)

Lemma remove_first_snoc (c : nat) (cl : list nat) :
  occ c cl = 0%nat -> remove_first c (cl ++ c :: nil) = cl.
Proof.
  unfold occ. induction cl as [|a cl IH]; simpl; intros Hocc.
  - now rewrite Nat.eqb_refl.
  - destruct (Nat.eq_dec a c) as [->|Hne]; [discriminate|].
    rewrite (proj2 (Nat.eqb_neq _ _) Hne). f_equal. now apply IH.
Qed.

(** X13: a response that connects and then closes leaves the registry as it
    found it, provided the response was not registered for the session
    before; in between it is sent the stored progress of the session when
    the session is readable, and nothing otherwise. *)
Theorem connect_then_close (sid : string) (now : Z) (c : nat) (st : api_state) :
  registry_tidy st ->
  occ c (default nil (sseClients st !! sid)) = 0%nat ->
  sseClients (on_close sid c (get_progress sid now c st)) = sseClients st
  /\ received (on_close sid c (get_progress sid now c st)) c
     = received st c ++ snapshot sid now st.
Proof.
  intros Ht Hocc. unfold get_progress, snapshot.
  destruct (getSession now sid (sessions st)) as [session m'] eqn:Hget.
  unfold on_close. cbn [sseClients wire sessions broken fst].
  rewrite lookup_insert_eq. cbn [sseClients wire sessions broken].
  rewrite (remove_first_snoc _ _ Hocc). split.
  - destruct (sseClients st !! sid) as [cl0|] eqn:Hs; simpl.
    + pose proof (Ht _ _ Hs) as Hne. destruct cl0 as [|y rem]; [contradiction|].
      rewrite insert_insert_eq. now apply insert_id.
    + rewrite delete_insert_eq. now apply delete_id.
  - unfold received.
    assert (Hw : forall w : gmap nat (list ResearchProgress),
               wire (match default nil (sseClients st !! sid) with
                     | nil => {| sessions := m'; sseClients := delete sid (<[sid := default nil (sseClients st !! sid) ++ c :: nil]> (sseClients st)); wire := w; broken := broken st |}
                     | _ :: _ => {| sessions := m'; sseClients := <[sid := default nil (sseClients st !! sid)]> (<[sid := default nil (sseClients st !! sid) ++ c :: nil]> (sseClients st)); wire := w; broken := broken st |}
                     end) = w).
    { intros w. now destruct (default nil (sseClients st !! sid)). }
    destruct (default nil (sseClients st !! sid)); cbn [wire];
      (destruct session as [d|]; [destruct (progress d) as [p|]|]; simpl;
       rewrite ?app_nil_r; try reflexivity;
       unfold write; now rewrite lookup_insert_eq).
Qed.

Lemma connect_then_close_witness :
  let st := api_run (OnProgress sample_ctx 1 (progress_of 1 2)
                     :: Connect "s1" 2 7 :: nil) sample_started in
  registry_tidy st
  /\ occ 8 (default nil (sseClients st !! ("s1" : string))) = 0%nat
  /\ sseClients (on_close "s1" 8 (get_progress "s1" 3 8 st)) = sseClients st.
Proof.
  intros st.
  assert (H1 : registry_tidy st).
  { apply api_run_tidy. unfold sample_started, post_research. simpl.
    exact empty_api_tidy. }
  assert (H2 : occ 8 (default nil (sseClients st !! ("s1" : string))) = 0%nat)
    by (vm_compute; reflexivity).
  split; [exact H1|]. split; [exact H2|].
  exact (proj1 (connect_then_close "s1" 3 8 st H1 H2)).
Defined.

End ProgressRegistry.

(* ===================================================================== *)
(** * Validation of research requests: what is accepted *)
(* ===================================================================== *)

Module RequestValidation.
Import SessionStore ResearchApi.

(** A request with the query alone. *)
Definition sample_query_only : json :=
  JObject (("query", JString "what is a monad") :: nil)%string.

Lemma Qeq_bool_inject_floor (q : Q) (n : Z) :
  (q == inject_Z n)%Q -> Qfloor q = n.
Proof. intros H. rewrite H. apply Qfloor_Z. Qed.

(** X14: the number check of [breadth] and [depth]
    ([z.number().int().min(lo).max(hi).default(dflt)]) yields [n] exactly
    when the field is absent and [n] is the default, or the field is a
    number equal to the whole number [n] with [lo <= n <= hi]; a fraction
    inside the range, [null], a string or any other value is refused. *)
Theorem zIntDefault_exact (lo hi dflt : Z) (v : option json) (n : Z) :
  zIntDefault lo hi dflt v = Some n
  <-> (v = None /\ n = dflt)
      \/ (exists q, v = Some (JNumber q) /\ (q == inject_Z n)%Q /\ lo <= n <= hi).
Proof.
  unfold zIntDefault. split.
  - destruct v as [[| |q| | |]|]; try discriminate.
    + destruct (Qeq_bool (inject_Z (Qfloor q)) q) eqn:Hint; [|discriminate].
      destruct (Qle_bool (inject_Z lo) q) eqn:Hlo; [|discriminate].
      destruct (Qle_bool q (inject_Z hi)) eqn:Hhi; [|discriminate].
      simpl. intros [= <-]. right. exists q.
      apply Qeq_bool_iff in Hint. apply Qle_bool_iff in Hlo, Hhi.
      split; [reflexivity|]. split; [now symmetry|].
      rewrite <- Hint in Hlo, Hhi. rewrite <- Zle_Qle in Hlo, Hhi. lia.
    + intros [= <-]. now left.
  - intros [[-> ->]|(q & -> & Hq & Hlo & Hhi)]; [reflexivity|].
    rewrite (Qeq_bool_inject_floor q n Hq).
    assert (H1 : Qeq_bool (inject_Z n) q = true)
      by (apply Qeq_bool_iff; now symmetry).
    assert (H2 : Qle_bool (inject_Z lo) q = true)
      by (apply Qle_bool_iff; rewrite Hq, <- Zle_Qle; lia).
    assert (H3 : Qle_bool q (inject_Z hi) = true)
      by (apply Qle_bool_iff; rewrite Hq, <- Zle_Qle; lia).
    now rewrite H1, H2, H3.
Qed.

(** A breadth of 2.5 is inside the range and refused; 10 is accepted. *)
Example fractional_breadth_refused :
  zIntDefault 2 10 5 (Some (JNumber (5 # 2))) = None
  /\ zIntDefault 2 10 5 (Some (JNumber (10 # 1))) = Some 10
  /\ zIntDefault 2 10 5 (Some JNull) = None.
Proof. repeat split. Qed.

Lemma zString_bounds (lo hi : Z) (v : option json) (s : string) :
  zString lo hi v = Some s ->
  v = Some (JString s) /\ lo <= Z.of_nat (String.length s) <= hi.
Proof.
  unfold zString. destruct v as [[| | |s0| |]|]; try discriminate.
  destruct (Z.leb_spec lo (Z.of_nat (String.length s0)));
    destruct (Z.leb_spec (Z.of_nat (String.length s0)) hi); simpl;
    try discriminate.
  intros [= <-]. split; [reflexivity|lia].
Qed.

Lemma researchSchema_bounds (body : json) (rq : ResearchQuery) :
  researchSchema body = Some rq ->
  field "query" body = Some (JString (q_query rq))
  /\ 1 <= Z.of_nat (String.length (q_query rq)) <= 1000
  /\ 2 <= q_breadth rq <= 10 /\ 1 <= q_depth rq <= 5
  /\ (field "breadth" body = None -> q_breadth rq = 5)
  /\ (field "depth" body = None -> q_depth rq = 3).
Proof.
  unfold researchSchema. destruct body as [| | | | |fields]; try discriminate.
  destruct (zString 1 1000 _) as [q|] eqn:Hq; [|discriminate].
  destruct (zIntDefault 2 10 5 _) as [b|] eqn:Hb; [|discriminate].
  destruct (zIntDefault 1 5 3 _) as [d|] eqn:Hd; [|discriminate].
  destruct (zOptLlmConfig _) as [cfg|]; [|discriminate].
  destruct (zOptString _) as [gpt|]; [|discriminate].
  intros [= <-]. cbn [q_query q_breadth q_depth].
  apply zString_bounds in Hq as [Hq Hlen].
  split; [exact Hq|]. split; [exact Hlen|].
  unfold zIntDefault in Hb, Hd. split; [|split; [|split]].
  - destruct (field "breadth" _) as [[| |x| | |]|]; try discriminate;
      [|inversion Hb; lia].
    destruct (Qeq_bool _ x) eqn:Hint; [|discriminate].
    destruct (Qle_bool (inject_Z 2) x) eqn:Hlo; [|discriminate].
    destruct (Qle_bool x (inject_Z 10)) eqn:Hhi; [|discriminate].
    simpl in Hb. inversion Hb; subst b.
    apply Qeq_bool_iff in Hint. apply Qle_bool_iff in Hlo, Hhi.
    rewrite <- Hint in Hlo, Hhi. rewrite <- Zle_Qle in Hlo, Hhi. lia.
  - destruct (field "depth" _) as [[| |x| | |]|]; try discriminate;
      [|inversion Hd; lia].
    destruct (Qeq_bool _ x) eqn:Hint; [|discriminate].
    destruct (Qle_bool (inject_Z 1) x) eqn:Hlo; [|discriminate].
    destruct (Qle_bool x (inject_Z 5)) eqn:Hhi; [|discriminate].
    simpl in Hd. inversion Hd; subst d.
    apply Qeq_bool_iff in Hint. apply Qle_bool_iff in Hlo, Hhi.
    rewrite <- Hint in Hlo, Hhi. rewrite <- Zle_Qle in Hlo, Hhi. lia.
  - intros Hnone. rewrite Hnone in Hb. now inversion Hb.
  - intros Hnone. rewrite Hnone in Hd. now inversion Hd.
Qed.

(** X15: when [POST /research] accepts a request, the answer names the id
    that was drawn and says [pending], while the stored session is already
    [running]; the session holds the query of the body, of 1 to 1000
    characters, a breadth in [2,10] and a depth in [1,5], which are 5 and 3
    when the body leaves them out; it has no progress and no result yet,
    and expires 24 hours after the request. *)
Theorem accepted_request_in_bounds (uuid : string) (now : Z) (body : json)
    (st : api_state) (sid : string) (s : Status) :
  fst (post_research uuid now body st) = Accepted sid s ->
  sid = uuid /\ s = pending
  /\ exists d,
       sessions (snd (post_research uuid now body st)) !! uuid = Some d
       /\ status d = running /\ progress d = None /\ result d = None
       /\ field "query" body = Some (JString (query d))
       /\ 1 <= Z.of_nat (String.length (query d)) <= 1000
       /\ 2 <= breadth d <= 10 /\ 1 <= depth d <= 5
       /\ (field "breadth" body = None -> breadth d = 5)
       /\ (field "depth" body = None -> depth d = 3)
       /\ createdAt d = now /\ expiresAt d = now + 24 * 60 * 60 * 1000.
Proof.
  unfold post_research.
  destruct (researchSchema body) as [rq|] eqn:Hparse; [|discriminate].
  cbn [fst snd createSession sessions]. intros [= <- <-].
  split; [reflexivity|]. split; [reflexivity|].
  unfold updateSessionStatus. rewrite lookup_insert_eq, lookup_insert_eq.
  eexists. split; [reflexivity|]. cbn.
  destruct (researchSchema_bounds body rq Hparse) as (H1 & H2 & H3 & H4 & H5 & H6).
  repeat split; auto; lia.
Qed.

Lemma accepted_request_in_bounds_witness :
  fst (post_research "s9" 100 sample_query_only empty_api) = Accepted "s9" pending
  /\ exists d,
       sessions (snd (post_research "s9" 100 sample_query_only empty_api))
       !! ("s9" : string) = Some d
       /\ status d = running /\ breadth d = 5 /\ depth d = 3.
Proof.
  assert (H : fst (post_research "s9" 100 sample_query_only empty_api)
              = Accepted "s9" pending) by (vm_compute; reflexivity).
  split; [exact H|].
  destruct (accepted_request_in_bounds "s9" 100 sample_query_only empty_api
              "s9" pending H)
    as (_ & _ & d & Hd & Hst & _ & _ & _ & _ & _ & _ & Hb & Hdp & _).
  exists d. split; [exact Hd|]. split; [exact Hst|].
  split; [apply Hb; reflexivity|apply Hdp; reflexivity].
Defined.

End RequestValidation.

(* ===================================================================== *)
(** * Provider configuration and model creation *)
(* ===================================================================== *)

Module Providers.

(** [type LLMProvider = 'openai' | 'fireworks' | 'openrouter' | 'custom'] *)
Inductive LLMProvider : Type := openai | fireworks | openrouter | custom.

Definition provider_name (p : LLMProvider) : string :=
  match p with
  | openai => "openai"
  | fireworks => "fireworks"
  | openrouter => "openrouter"
  | custom => "custom"
  end.

(** [['openai', 'fireworks', 'openrouter', 'custom'].includes(provider)],
    with the provider that the string names. *)
Definition parse_provider (s : string) : option LLMProvider :=
  if String.eqb s "openai" then Some openai
  else if String.eqb s "fireworks" then Some fireworks
  else if String.eqb s "openrouter" then Some openrouter
  else if String.eqb s "custom" then Some custom
  else None.

(** [PROVIDER_DEFAULTS] *)
Definition default_baseURL (p : LLMProvider) : string :=
  match p with
  | openai => "https://api.openai.com/v1"
  | fireworks => "https://api.fireworks.ai/inference/v1"
  | openrouter => "https://openrouter.ai/api/v1"
  | custom => "http://localhost:11434/v1"
  end.

Definition default_model (p : LLMProvider) : string :=
  match p with
  | openai => "o3-mini"
  | fireworks => "accounts/fireworks/models/deepseek-r1"
  | openrouter => "openai/gpt-4o"
  | custom => "llama3.1"
  end.

(** ['low' | 'medium' | 'high'] *)
Inductive effort : Type := low | medium | high.

(** [interface ProviderConfig] *)
Record ProviderConfig : Type := mkConfig {
  provider : LLMProvider;
  model : string;
  apiKey : string;
  baseURL : option string;
  structuredOutputs : option bool;
  reasoningEffort : option effort
}.

(** The errors thrown by the configuration code. [NullConfig] is the
    [TypeError] of [cachedConfig!.provider] on a [null] config. *)
Inductive config_error : Type :=
| InvalidProvider (explicitProvider : string)
| NoApiKey (p : LLMProvider)
| NoProviderConfigured
| NullConfig.

(** [process.env] *)
Abbreviation Env := (gmap string string).

(** A string in a position where only its truthiness counts: the empty
    string is falsy like [undefined]. *)
Definition truthy (v : option string) : option string :=
  match v with
  | Some EmptyString => None
  | other => other
  end.

(** [process.env.NAME] read in such a position. *)
Definition env (e : Env) (name : string) : option string := truthy (e !! name).

(** [a || b] on such values. *)
Definition or_else (a : option string) (b : string) : string :=
  match a with Some s => s | None => b end.

(** [String.prototype.toLowerCase] is an interface. *)
Class Lowercase := toLowerCase : string -> string.

(** The stand-in used in the examples: the letters A to Z are lowered. *)
Definition lower_ascii (c : ascii) : ascii :=
  let n := nat_of_ascii c in
  if ((65 <=? n) && (n <=? 90))%nat then ascii_of_nat (n + 32) else c.

Fixpoint lower_string (s : string) : string :=
  match s with
  | EmptyString => EmptyString
  | String c r => String (lower_ascii c) (lower_string r)
  end.

Definition asciiLowercase : Lowercase := lower_string.

(** [getApiKeyForProvider(provider)] *)
Definition getApiKeyForProvider (e : Env) (p : LLMProvider)
  : config_error + string :=
  let keyMap :=
    match p with
    | openai => env e "OPENAI_KEY"
    | fireworks => env e "FIREWORKS_KEY"
    | openrouter => env e "OPENROUTER_KEY"
    | custom =>
        match env e "OPENAI_KEY" with
        | Some k => Some k
        | None => env e "CUSTOM_API_KEY"
        end
    end in
  match keyMap with
  | None => inl (NoApiKey p)
  | Some apiKey => inr apiKey
  end.

(** [provider === 'openai' || provider === 'openrouter'] *)
Definition structured (p : LLMProvider) : bool :=
  match p with openai | openrouter => true | _ => false end.

(** [provider === 'openai' ? 'medium' : undefined] *)
Definition effort_of (p : LLMProvider) : option effort :=
  match p with openai => Some medium | _ => None end.

Section Config.
Context {L : Lowercase}.

(** [getProviderConfig()] *)
Definition getProviderConfig (e : Env) : config_error + ProviderConfig :=
  match env e "LLM_PROVIDER" with
  | Some explicitProvider =>
      match parse_provider (toLowerCase explicitProvider) with
      | None => inl (InvalidProvider explicitProvider)
      | Some p =>
          match getApiKeyForProvider e p with
          | inl err => inl err
          | inr key =>
              inr {| provider := p;
                     model := or_else (env e "LLM_MODEL") (default_model p);
                     apiKey := key;
                     baseURL := Some (or_else (env e "LLM_ENDPOINT")
                                              (default_baseURL p));
                     structuredOutputs := Some (structured p);
                     reasoningEffort := effort_of p |}
          end
      end
  | None =>
      match env e "CUSTOM_MODEL", env e "OPENAI_KEY" with
      | Some customModel, Some key =>
          inr {| provider := custom; model := customModel; apiKey := key;
                 baseURL := Some (or_else (env e "OPENAI_ENDPOINT")
                                          "http://localhost:11434/v1");
                 structuredOutputs := Some true; reasoningEffort := None |}
      | _, _ =>
          match env e "FIREWORKS_KEY" with
          | Some key =>
              inr {| provider := fireworks;
                     model := "accounts/fireworks/models/deepseek-r1";
                     apiKey := key;
                     baseURL := Some (default_baseURL fireworks);
                     structuredOutputs := None; reasoningEffort := None |}
          | None =>
              match env e "OPENROUTER_KEY" with
              | Some key =>
                  inr {| provider := openrouter;
                         model := or_else (env e "LLM_MODEL")
                                          (default_model openrouter);
                         apiKey := key;
                         baseURL := Some (default_baseURL openrouter);
                         structuredOutputs := Some true;
                         reasoningEffort := None |}
              | None =>
                  match env e "OPENAI_KEY" with
                  | Some key =>
                      inr {| provider := openai; model := "o3-mini";
                             apiKey := key;
                             baseURL := Some (or_else (env e "OPENAI_ENDPOINT")
                                                      (default_baseURL openai));
                             structuredOutputs := Some true;
                             reasoningEffort := Some medium |}
                  | None => inl NoProviderConfigured
                  end
              end
          end
      end
  end.

End Config.

(** What [createModelFromConfig] builds: which SDK factory was called with
    which settings, the model id and options given to the provider object,
    and the tag of the reasoning middleware when the model is wrapped. *)
Inductive sdk : Type := createOpenAI | createFireworks.

Record LanguageModel : Type := mkModel {
  m_sdk : sdk;
  m_apiKey : string;
  m_baseURL : option string;
  m_model : string;
  m_structuredOutputs : option bool;
  m_reasoningEffort : option effort;
  m_reasoningTag : option string
}.

(** [config.model.startsWith('o')] *)
Definition startsWith (pre s : string) : bool := String.prefix pre s.

(** [config.model.includes('deepseek-r1')] *)
Definition includes (needle s : string) : bool :=
  match String.index 0 needle s with Some _ => true | None => false end.

(** [createModelFromConfig(config)]; the [default] branch of the [switch]
    has no provider left to reach it. *)
Definition createModelFromConfig (config : ProviderConfig) : LanguageModel :=
  match provider config with
  | openai =>
      {| m_sdk := createOpenAI; m_apiKey := apiKey config;
         m_baseURL := baseURL config; m_model := model config;
         m_structuredOutputs :=
           match structuredOutputs config with
           | Some true => Some true
           | _ => None
           end;
         m_reasoningEffort :=
           match reasoningEffort config with
           | Some r => if startsWith "o" (model config) then Some r else None
           | None => None
           end;
         m_reasoningTag := None |}
  | fireworks =>
      {| m_sdk := createFireworks; m_apiKey := apiKey config;
         m_baseURL := None; m_model := model config;
         m_structuredOutputs := None; m_reasoningEffort := None;
         m_reasoningTag :=
           if includes "deepseek-r1" (model config) then Some "think"%string
           else None |}
  | openrouter | custom =>
      {| m_sdk := createOpenAI; m_apiKey := apiKey config;
         m_baseURL := baseURL config; m_model := model config;
         m_structuredOutputs := structuredOutputs config;
         m_reasoningEffort := None; m_reasoningTag := None |}
  end.

(** [let cachedModel], [let cachedConfig] *)
Record cache : Type := mkCache {
  cachedModel : option LanguageModel;
  cachedConfig : option ProviderConfig
}.

Definition empty_cache : cache :=
  {| cachedModel := None; cachedConfig := None |}.

Section Model.
Context {L : Lowercase}.

(** The override branch of [getModel]: [Some] model when the override is
    used, [None] when the code falls through to the default (no override,
    invalid provider, or a failure that the [catch] swallows). *)
Definition override_model (e : Env) (overrideProvider overrideModel : option string)
  : option LanguageModel :=
  match truthy overrideProvider, truthy overrideModel with
  | Some op, Some om =>
      match parse_provider (toLowerCase op) with
      | None => None
      | Some p =>
          match getApiKeyForProvider e p with
          | inl _ => None
          | inr key =>
              Some (createModelFromConfig
                      {| provider := p; model := om; apiKey := key;
                         baseURL := Some (or_else (env e "LLM_ENDPOINT")
                                                  (default_baseURL p));
                         structuredOutputs := Some (structured p);
                         reasoningEffort := effort_of p |})
          end
      end
  | _, _ => None
  end.

(** [getModel(overrideProvider?, overrideModel?)] *)
Definition getModel (e : Env) (overrideProvider overrideModel : option string)
    (c : cache) : (config_error + LanguageModel) * cache :=
  match override_model e overrideProvider overrideModel with
  | Some m => (inr m, c)
  | None =>
      match cachedModel c with
      | Some m => (inr m, c)
      | None =>
          match getProviderConfig e with
          | inl err => (inl err, c)
          | inr config =>
              let m := createModelFromConfig config in
              (inr m, {| cachedModel := Some m; cachedConfig := Some config |})
          end
      end
  end.

(** [getProviderInfo()]: provider, model and base URL of the cached
    config. *)
Definition getProviderInfo (e : Env) (c : cache)
  : (config_error + (string * string * option string)) * cache :=
  let '(r, c1) :=
    match cachedConfig c with
    | Some _ => (inr tt, c)
    | None =>
        match getModel e None None c with
        | (inl err, c') => (inl err, c')
        | (inr _, c') => (inr tt, c')
        end
    end in
  match r with
  | inl err => (inl err, c1)
  | inr _ =>
      match cachedConfig c1 with
      | Some cfg =>
          (inr (provider_name (provider cfg), model cfg, baseURL cfg), c1)
      | None => (inl NullConfig, c1)
      end
  end.

End Model.

(** The cache holds nothing, or a config together with the model made from
    it. *)
Definition cache_ok (c : cache) : Prop :=
  (cachedModel c = None /\ cachedConfig c = None)
  \/ exists cfg, cachedConfig c = Some cfg
                 /\ cachedModel c = Some (createModelFromConfig cfg).

(** A config that can be used: key, model id and base URL are not empty. *)
Definition usable (cfg : ProviderConfig) : Prop :=
  apiKey cfg <> EmptyString /\ model cfg <> EmptyString
  /\ exists url, baseURL cfg = Some url /\ url <> EmptyString.

(** Sample environments. *)
Definition env_explicit_custom : Env :=
  {[ "LLM_PROVIDER" := "Custom"; "CUSTOM_API_KEY" := "ck";
     "FIREWORKS_KEY" := "fk" ]}%string.

Definition env_legacy_fireworks : Env :=
  {[ "FIREWORKS_KEY" := "fk"; "OPENAI_KEY" := "ok";
     "CUSTOM_API_KEY" := "ck" ]}%string.

Definition env_only_custom_key : Env :=
  {[ "CUSTOM_API_KEY" := "ck"; "CUSTOM_MODEL" := "llama3.1" ]}%string.

(** ** Reading the environment *)

Lemma truthy_nonempty (v : option string) (s : string) :
  truthy v = Some s -> s <> EmptyString.
Proof. destruct v as [[|c r]|]; simpl; intros [= <-]; discriminate. Qed.

Lemma env_nonempty (e : Env) (name s : string) :
  env e name = Some s -> s <> EmptyString.
Proof. apply truthy_nonempty. Qed.

Lemma or_else_nonempty (a : option string) (b : string) :
  (forall s, a = Some s -> s <> EmptyString) -> b <> EmptyString ->
  or_else a b <> EmptyString.
Proof. destruct a as [s|]; simpl; auto. Qed.

Lemma default_model_nonempty (p : LLMProvider) : default_model p <> EmptyString.
Proof. destruct p; discriminate. Qed.

Lemma default_baseURL_nonempty (p : LLMProvider) : default_baseURL p <> EmptyString.
Proof. destruct p; discriminate. Qed.

Lemma getApiKeyForProvider_nonempty (e : Env) (p : LLMProvider) (k : string) :
  getApiKeyForProvider e p = inr k -> k <> EmptyString.
Proof.
  unfold getApiKeyForProvider. destruct p.
  - destruct (env e "OPENAI_KEY") eqn:H; intros [= <-]. eapply env_nonempty; eauto.
  - destruct (env e "FIREWORKS_KEY") eqn:H; intros [= <-]. eapply env_nonempty; eauto.
  - destruct (env e "OPENROUTER_KEY") eqn:H; intros [= <-]. eapply env_nonempty; eauto.
  - destruct (env e "OPENAI_KEY") eqn:H.
    + intros [= <-]. eapply env_nonempty; eauto.
    + destruct (env e "CUSTOM_API_KEY") eqn:H'; intros [= <-].
      eapply env_nonempty; eauto.
Qed.

Example includes_deepseek :
  includes "deepseek-r1" "accounts/fireworks/models/deepseek-r1" = true
  /\ includes "deepseek-r1" "accounts/fireworks/models/llama-v3p3-70b-instruct" = false
  /\ startsWith "o" "o3-mini" = true /\ startsWith "o" "gpt-4o" = false.
Proof. repeat split. Qed.

Section Facts.
Context {L : Lowercase}.

(** X16: every configuration that [getProviderConfig] returns can be used:
    its API key, its model id and its base URL are not empty, whichever
    branch produced it. *)
Theorem getProviderConfig_usable (e : Env) (cfg : ProviderConfig) :
  getProviderConfig e = inr cfg -> usable cfg.
Proof.
  unfold getProviderConfig, usable.
  destruct (env e "LLM_PROVIDER") as [x|] eqn:Hx.
  - destruct (parse_provider (toLowerCase x)) as [p|]; [|discriminate].
    destruct (getApiKeyForProvider e p) as [err|k] eqn:Hk; [discriminate|].
    intros [= <-]. cbn. split; [eapply getApiKeyForProvider_nonempty; eauto|].
    split.
    + apply or_else_nonempty; [apply env_nonempty|apply default_model_nonempty].
    + eexists. split; [reflexivity|].
      apply or_else_nonempty; [apply env_nonempty|apply default_baseURL_nonempty].
  - destruct (env e "CUSTOM_MODEL") as [cm|] eqn:Hcm;
      destruct (env e "OPENAI_KEY") as [ok|] eqn:Hok;
      try (intros [= <-]; cbn; split; [eapply env_nonempty; eauto|];
           split; [eapply env_nonempty; eauto|];
           eexists; split; [reflexivity|];
           apply or_else_nonempty; [apply env_nonempty|discriminate]);
      (destruct (env e "FIREWORKS_KEY") as [fk|] eqn:Hfk;
       [intros [= <-]; cbn; split; [eapply env_nonempty; eauto|];
        split; [discriminate|]; eexists; split; [reflexivity|discriminate]|]);
      (destruct (env e "OPENROUTER_KEY") as [rk|] eqn:Hrk;
       [intros [= <-]; cbn; split; [eapply env_nonempty; eauto|];
        split; [apply or_else_nonempty; [apply env_nonempty|discriminate]|];
        eexists; split; [reflexivity|discriminate]|]);
      try discriminate.
    intros [= <-]. cbn. split; [eapply env_nonempty; eauto|].
    split; [discriminate|]. eexists. split; [reflexivity|].
    apply or_else_nonempty; [apply env_nonempty|discriminate].
Qed.

(** X17: when [LLM_PROVIDER] is set, it decides alone: the result is the
    error for an unknown provider name, or the error for the missing key of
    the named provider, or a configuration of exactly that provider; the
    keys of the other providers are never used as a fallback. For [custom]
    the key is [OPENAI_KEY], or else [CUSTOM_API_KEY]. *)
Theorem explicit_provider_decides (e : Env) (x : string) :
  env e "LLM_PROVIDER" = Some x ->
  match getProviderConfig e with
  | inl err =>
      (parse_provider (toLowerCase x) = None /\ err = InvalidProvider x)
      \/ (exists p, parse_provider (toLowerCase x) = Some p /\ err = NoApiKey p
                    /\ getApiKeyForProvider e p = inl (NoApiKey p))
  | inr cfg =>
      parse_provider (toLowerCase x) = Some (provider cfg)
      /\ getApiKeyForProvider e (provider cfg) = inr (apiKey cfg)
      /\ model cfg = or_else (env e "LLM_MODEL") (default_model (provider cfg))
      /\ structuredOutputs cfg = Some (structured (provider cfg))
  end.
Proof.
  intros Hx. unfold getProviderConfig. rewrite Hx.
  destruct (parse_provider (toLowerCase x)) as [p|] eqn:Hp; [|now left].
  destruct (getApiKeyForProvider e p) as [err|k] eqn:Hk.
  - right. exists p. split; [reflexivity|].
    unfold getApiKeyForProvider in Hk |- *.
    destruct p; repeat (destruct (env e _)); inversion Hk; auto.
  - cbn. auto.
Qed.

(** X18: without [LLM_PROVIDER], the provider is detected from the legacy
    variables in a fixed order: custom when [CUSTOM_MODEL] and [OPENAI_KEY]
    are both set, else Fireworks when [FIREWORKS_KEY] is set, else
    OpenRouter when [OPENROUTER_KEY] is set, else OpenAI when [OPENAI_KEY]
    is set; the call fails exactly when none of these three keys is set,
    [CUSTOM_API_KEY] not being looked at, and then with the error that no
    provider is configured. *)
Theorem legacy_detection (e : Env) :
  env e "LLM_PROVIDER" = None ->
  (getProviderConfig e = inl NoProviderConfigured
   <-> env e "FIREWORKS_KEY" = None /\ env e "OPENROUTER_KEY" = None
       /\ env e "OPENAI_KEY" = None)
  /\ (forall err, getProviderConfig e = inl err -> err = NoProviderConfigured)
  /\ (forall cfg,
        getProviderConfig e = inr cfg ->
        provider cfg
        = match env e "CUSTOM_MODEL", env e "OPENAI_KEY",
                env e "FIREWORKS_KEY", env e "OPENROUTER_KEY" with
          | Some _, Some _, _, _ => custom
          | _, _, Some _, _ => fireworks
          | _, _, None, Some _ => openrouter
          | _, _, None, None => openai
          end).
Proof.
  intros Hx. unfold getProviderConfig. rewrite Hx.
  destruct (env e "CUSTOM_MODEL") as [cm|];
    destruct (env e "OPENAI_KEY") as [ok|];
    destruct (env e "FIREWORKS_KEY") as [fk|];
    destruct (env e "OPENROUTER_KEY") as [rk|];
    (split; [split; [discriminate || (intros _; auto)
                    |intros (H1 & H2 & H3); (discriminate || reflexivity)]
            |split; [intros err; (discriminate || (intros [= <-]; reflexivity))
                    |intros cfg; (discriminate || (intros [= <-]; reflexivity))]]).
Qed.

(** ** The model cache *)

Lemma override_model_none (e : Env) : override_model e None None = None.
Proof. reflexivity. Qed.

Lemma getModel_cache_ok (e : Env) (op om : option string) (c : cache) :
  cache_ok c -> cache_ok (snd (getModel e op om c)).
Proof.
  intros Hok. unfold getModel.
  destruct (override_model e op om); [exact Hok|].
  destruct (cachedModel c); [exact Hok|].
  destruct (getProviderConfig e) as [err|cfg]; [exact Hok|].
  right. exists cfg. split; reflexivity.
Qed.

(** X19: the default model is made once. A call of [getModel] keeps the
    cache consistent (nothing, or a config with the model made from it);
    and once a call without override has returned a model, every later call
    without override returns that same model and leaves the cache alone,
    whatever the environment has become. *)
Theorem getModel_caches_default (e : Env) (op om : option string) (c : cache)
    (m : LanguageModel) :
  cache_ok c ->
  cache_ok (snd (getModel e op om c))
  /\ (fst (getModel e None None c) = inr m ->
      forall e',
        getModel e' None None (snd (getModel e None None c))
        = (inr m, snd (getModel e None None c))).
Proof.
  intros Hok. split; [now apply getModel_cache_ok|].
  unfold getModel. rewrite override_model_none.
  destruct (cachedModel c) as [m0|] eqn:Hc.
  - cbn. intros [= <-] e'. rewrite ?override_model_none. now rewrite Hc.
  - destruct (getProviderConfig e) as [err|cfg]; [discriminate|].
    cbn. intros [= <-] e'. now rewrite ?override_model_none.
Qed.

(** X20: an override never fails on its own and never touches the cache:
    a call of [getModel] with an override either answers with a model of
    the requested model id and leaves the cache as it is, or behaves in
    every respect as the call without override; the latter happens when
    either argument is missing or empty, the provider name is unknown, or
    the provider has no key. *)
Theorem getModel_override_falls_back (e : Env) (op om : option string) (c : cache) :
  (exists m x p,
     getModel e op om c = (inr m, c)
     /\ truthy om = Some (m_model m)
     /\ truthy op = Some x /\ parse_provider (toLowerCase x) = Some p
     /\ getApiKeyForProvider e p = inr (m_apiKey m))
  \/ (getModel e op om c = getModel e None None c
      /\ (truthy op = None \/ truthy om = None
          \/ (exists x, truthy op = Some x
                        /\ (parse_provider (toLowerCase x) = None
                            \/ exists p, parse_provider (toLowerCase x) = Some p
                                         /\ getApiKeyForProvider e p
                                            = inl (NoApiKey p))))).
Proof.
  unfold getModel. rewrite override_model_none. unfold override_model.
  destruct (truthy op) as [x|] eqn:Hop; [|right; split; auto].
  destruct (truthy om) as [y|] eqn:Hom; [|right; split; auto].
  destruct (parse_provider (toLowerCase x)) as [p|] eqn:Hp;
    [|right; split; [reflexivity|]; right; right; exists x; auto].
  destruct (getApiKeyForProvider e p) as [err|k] eqn:Hk.
  - right. split; [reflexivity|]. right; right. exists x. split; [reflexivity|].
    right. exists p. split; [exact Hp|].
    unfold getApiKeyForProvider in Hk |- *.
    destruct p; repeat (destruct (env e _)); inversion Hk; auto.
  - left. eexists. exists x, p. split; [reflexivity|].
    split; [now destruct p|]. split; [reflexivity|]. split; [exact Hp|].
    now destruct p.
Qed.

Lemma getProviderConfig_usable_aux (e : Env) (cfg : ProviderConfig) :
  getProviderConfig e = inr cfg ->
  apiKey cfg <> EmptyString
  /\ (forall r, reasoningEffort cfg = Some r -> r = medium).
Proof.
  intros H. split.
  - unfold getProviderConfig in H.
    destruct (env e "LLM_PROVIDER") as [x|].
    + destruct (parse_provider (toLowerCase x)) as [p|]; [|discriminate].
      destruct (getApiKeyForProvider e p) as [err|k] eqn:Hk; [discriminate|].
      inversion H. cbn. eapply getApiKeyForProvider_nonempty; eauto.
    + destruct (env e "CUSTOM_MODEL") as [cm|];
        destruct (env e "OPENAI_KEY") as [ok|] eqn:Hok;
        destruct (env e "FIREWORKS_KEY") as [fk|] eqn:Hfk;
        destruct (env e "OPENROUTER_KEY") as [rk|] eqn:Hrk;
        inversion H; cbn; eapply env_nonempty; eauto.
  - unfold getProviderConfig in H.
    destruct (env e "LLM_PROVIDER") as [x|].
    + destruct (parse_provider (toLowerCase x)) as [p|]; [|discriminate].
      destruct (getApiKeyForProvider e p) as [err|k]; [discriminate|].
      inversion H. cbn. intros r. destruct p; simpl; congruence.
    + destruct (env e "CUSTOM_MODEL") as [cm|];
        destruct (env e "OPENAI_KEY") as [ok|];
        destruct (env e "FIREWORKS_KEY") as [fk|];
        destruct (env e "OPENROUTER_KEY") as [rk|];
        inversion H; cbn; intros r; congruence.
Qed.

(** X21: through [getModel], a reasoning effort is passed only to an
    OpenAI model whose id starts with ['o'], and it is [medium]; the
    reasoning middleware is put only around a Fireworks model whose id
    contains ['deepseek-r1'], with the tag ['think']; and the model carries
    a key that is not empty. *)
Theorem getModel_default_options (e : Env) (m : LanguageModel) :
  fst (getModel e None None empty_cache) = inr m ->
  m_apiKey m <> EmptyString
  /\ (forall r, m_reasoningEffort m = Some r ->
        r = medium /\ m_sdk m = createOpenAI /\ startsWith "o" (m_model m) = true)
  /\ (forall t, m_reasoningTag m = Some t ->
        t = "think"%string /\ m_sdk m = createFireworks
        /\ includes "deepseek-r1" (m_model m) = true).
Proof.
  unfold getModel. rewrite override_model_none. cbn [cachedModel empty_cache].
  destruct (getProviderConfig e) as [err|cfg] eqn:Hcfg; [discriminate|].
  cbn [fst]. intros [= <-].
  pose proof (getProviderConfig_usable_aux e cfg Hcfg) as (Hkey & Heff).
  unfold createModelFromConfig.
  destruct (provider cfg) eqn:Hp; cbn; (split; [exact Hkey|]); split;
    try (intros ? Habs; discriminate Habs).
  - intros r. destruct (reasoningEffort cfg) as [r0|] eqn:Hr; [|discriminate].
    destruct (startsWith "o" (model cfg)) eqn:Hs; [|discriminate].
    intros [= <-]. specialize (Heff _ eq_refl). auto.
  - intros t. destruct (includes "deepseek-r1" (model cfg)) eqn:Hi; [|discriminate].
    intros [= <-]. auto.
Qed.

Definition info_of (cfg : ProviderConfig) : string * string * option string :=
  (provider_name (provider cfg), model cfg, baseURL cfg).

Lemma getProviderInfo_eq (e : Env) (c : cache) :
  cache_ok c ->
  getProviderInfo e c
  = match cachedConfig c with
    | Some cfg => (inr (info_of cfg), c)
    | None =>
        match getProviderConfig e with
        | inl err => (inl err, c)
        | inr cfg =>
            (inr (info_of cfg),
             {| cachedModel := Some (createModelFromConfig cfg);
                cachedConfig := Some cfg |})
        end
    end.
Proof.
  intros [[Hm Hc]|(cfg & Hc & Hm)]; unfold getProviderInfo; rewrite Hc.
  - unfold getModel. rewrite override_model_none, Hm.
    destruct (getProviderConfig e) as [err|cfg]; reflexivity.
  - now rewrite Hc.
Qed.

Lemma getProviderConfig_not_null (e : Env) :
  getProviderConfig e <> inl NullConfig.
Proof.
  unfold getProviderConfig. destruct (env e "LLM_PROVIDER") as [x|].
  - destruct (parse_provider (toLowerCase x)) as [p|]; [|discriminate].
    unfold getApiKeyForProvider.
    destruct p; repeat (destruct (env e _)); discriminate.
  - repeat (destruct (env e _)); discriminate.
Qed.

(** X22: with a consistent cache, [getProviderInfo] never dereferences a
    missing config; when it answers, the answer describes the cached
    config, the model that [getModel] returns from then on is the one made
    from that config, and every later call gives the same answer whatever
    the environment has become. *)
Theorem getProviderInfo_stable (e : Env) (c : cache) :
  cache_ok c ->
  fst (getProviderInfo e c) <> inl NullConfig
  /\ cache_ok (snd (getProviderInfo e c))
  /\ (forall info,
        fst (getProviderInfo e c) = inr info ->
        (exists cfg,
           cachedConfig (snd (getProviderInfo e c)) = Some cfg
           /\ info = (provider_name (provider cfg), model cfg, baseURL cfg)
           /\ forall e',
                fst (getModel e' None None (snd (getProviderInfo e c)))
                = inr (createModelFromConfig cfg))
        /\ forall e',
             getProviderInfo e' (snd (getProviderInfo e c))
             = (inr info, snd (getProviderInfo e c))).
Proof.
  intros Hok. rewrite (getProviderInfo_eq e c Hok).
  destruct Hok as [[Hm Hc]|(cfg & Hc & Hm)]; rewrite Hc.
  - destruct (getProviderConfig e) as [err|cfg] eqn:Hcfg; cbn [fst snd].
    + split; [intros [= ->]; now apply (getProviderConfig_not_null e)|].
      split; [left; auto|]. intros info [=].
    + assert (Hok' : cache_ok {| cachedModel := Some (createModelFromConfig cfg);
                                 cachedConfig := Some cfg |})
        by (right; exists cfg; auto).
      split; [discriminate|]. split; [exact Hok'|].
      intros info [= <-]. split.
      * exists cfg. split; [reflexivity|]. split; [reflexivity|].
        intros e'. unfold getModel. now rewrite override_model_none.
      * intros e'. now rewrite (getProviderInfo_eq e' _ Hok').
  - cbn [fst snd].
    assert (Hok' : cache_ok c) by (right; exists cfg; auto).
    split; [discriminate|]. split; [exact Hok'|].
    intros info [= <-]. split.
    + exists cfg. split; [exact Hc|]. split; [reflexivity|].
      intros e'. unfold getModel. now rewrite override_model_none, Hm.
    + intros e'. now rewrite (getProviderInfo_eq e' _ Hok'), Hc.
Qed.

End Facts.

(** ** The sample environments *)

Lemma getProviderConfig_usable_witness :
  let cfg := {| provider := custom; model := "llama3.1"; apiKey := "ck";
                baseURL := Some "http://localhost:11434/v1"%string;
                structuredOutputs := Some false; reasoningEffort := None |} in
  getProviderConfig (L := asciiLowercase) env_explicit_custom = inr cfg
  /\ usable cfg.
Proof.
  intros cfg.
  assert (H : getProviderConfig (L := asciiLowercase) env_explicit_custom = inr cfg)
    by (vm_compute; reflexivity).
  split; [exact H|].
  exact (getProviderConfig_usable (L := asciiLowercase) env_explicit_custom cfg H).
Defined.

Lemma explicit_provider_decides_witness :
  env env_explicit_custom "LLM_PROVIDER" = Some "Custom"%string
  /\ match getProviderConfig (L := asciiLowercase) env_explicit_custom with
     | inl _ => False
     | inr cfg => provider cfg = custom /\ apiKey cfg = "ck"%string
     end.
Proof.
  assert (H : env env_explicit_custom "LLM_PROVIDER" = Some "Custom"%string)
    by (vm_compute; reflexivity).
  split; [exact H|].
  pose proof (explicit_provider_decides (L := asciiLowercase)
                env_explicit_custom "Custom" H) as Hd.
  destruct (getProviderConfig (L := asciiLowercase) env_explicit_custom)
    as [err|cfg] eqn:Hcfg.
  - vm_compute in Hcfg. discriminate Hcfg.
  - destruct Hd as (Hp & Hk & _).
    change (Some custom = Some (provider cfg)) in Hp. injection Hp as Hp.
    rewrite <- Hp in Hk |- *.
    change (@inr config_error string "ck" = inr (apiKey cfg)) in Hk.
    injection Hk as Hk. split; [reflexivity|now symmetry].
Defined.

Lemma legacy_detection_witness :
  env env_only_custom_key "LLM_PROVIDER" = None
  /\ getProviderConfig (L := asciiLowercase) env_only_custom_key
     = inl NoProviderConfigured.
Proof.
  assert (H : env env_only_custom_key "LLM_PROVIDER" = None)
    by (vm_compute; reflexivity).
  split; [exact H|].
  apply (proj1 (legacy_detection (L := asciiLowercase) env_only_custom_key H)).
  repeat split; vm_compute; reflexivity.
Defined.

Lemma getModel_caches_default_witness :
  let c := snd (getModel (L := asciiLowercase) env_legacy_fireworks None None
                  empty_cache) in
  cache_ok empty_cache
  /\ exists m,
       fst (getModel (L := asciiLowercase) env_legacy_fireworks None None
              empty_cache) = inr m
       /\ getModel (L := asciiLowercase) env_only_custom_key None None c
          = (inr m, c)
       /\ m_reasoningTag m = Some "think"%string.
Proof.
  intros c.
  assert (H0 : cache_ok empty_cache) by (left; split; reflexivity).
  split; [exact H0|].
  destruct (getModel (L := asciiLowercase) env_legacy_fireworks None None
              empty_cache) as [[err|m] c0] eqn:Hg; [vm_compute in Hg; discriminate Hg|].
  exists m. split; [reflexivity|].
  pose proof (proj2 (getModel_caches_default (L := asciiLowercase)
                       env_legacy_fireworks None None empty_cache m H0)) as Hst.
  rewrite Hg in Hst. split; [subst c; apply Hst; reflexivity|].
  vm_compute in Hg. now inversion Hg.
Defined.

Lemma getModel_default_options_witness :
  exists m,
    fst (getModel (L := asciiLowercase) env_legacy_fireworks None None empty_cache)
    = inr m
    /\ m_apiKey m <> EmptyString.
Proof.
  destruct (getModel (L := asciiLowercase) env_legacy_fireworks None None
              empty_cache) as [[err|m] c0] eqn:Hg; [vm_compute in Hg; discriminate Hg|].
  exists m. split; [reflexivity|].
  apply (getModel_default_options (L := asciiLowercase) env_legacy_fireworks m).
  now rewrite Hg.
Defined.

Lemma getProviderInfo_stable_witness :
  cache_ok empty_cache
  /\ fst (getProviderInfo (L := asciiLowercase) env_explicit_custom empty_cache)
     <> inl NullConfig.
Proof.
  assert (H0 : cache_ok empty_cache) by (left; split; reflexivity).
  split; [exact H0|].
  exact (proj1 (getProviderInfo_stable (L := asciiLowercase)
                  env_explicit_custom empty_cache H0)).
Defined.

(** An override with an unknown provider name gives the default model and
    fills the cache as the plain call does; an override to OpenRouter
    without [OPENROUTER_KEY] does the same. *)
Example override_falls_back :
  getModel (L := asciiLowercase) env_legacy_fireworks
           (Some "mistral"%string) (Some "large"%string) empty_cache
  = getModel (L := asciiLowercase) env_legacy_fireworks None None empty_cache
  /\ getModel (L := asciiLowercase) env_legacy_fireworks
              (Some "openrouter"%string) (Some "openai/gpt-4o"%string) empty_cache
     = getModel (L := asciiLowercase) env_legacy_fireworks None None empty_cache
  /\ option_map m_model
       (match fst (getModel (L := asciiLowercase) env_legacy_fireworks
                     (Some "OpenAI"%string) (Some "gpt-4o"%string) empty_cache) with
        | inr m => Some m | inl _ => None end)
     = Some "gpt-4o"%string.
Proof. repeat split; vm_compute; reflexivity. Qed.

End Providers.

(* ===================================================================== *)
(** * Prompt budgeter: size of the result *)
(* ===================================================================== *)

Module PromptBudgeterFacts.
Import PromptBudgeter.

Section Size.
Context {E : Encoder} {S_ : Splitter}.
Hypothesis Hsplit : splitter_never_lengthens.

(** X23: [trimPrompt] never gives back more than it was given: the result
    has at most as many characters as the input; an input within the budget
    is returned as it is, and the empty input gives the empty string
    whatever the tokenizer says of it. *)
Theorem trimPrompt_never_lengthens (text : string) (budget : Z) :
  exists r,
    trimPrompt text budget = Some r
    /\ strlen r <= strlen text
    /\ (tokens text <= budget -> r = text)
    /\ (text = EmptyString -> r = EmptyString).
Proof.
  destruct (trimPrompt_total Hsplit text budget) as [r Hr]. exists r.
  split; [exact Hr|]. split; [|split].
  - destruct (trimPrompt_fuel_chain _ _ _ _ Hr) as (q & Hq & Hret).
    pose proof (activates_le Hsplit _ _ _ Hq) as Hle.
    destruct (trimPrompt_body_Return _ _ _ Hret)
      as [[-> ->]|[[_ ->]|(_ & _ & ->)]].
    + exact Hle.
    + exact Hle.
    + rewrite slice0_length by (unfold MinChunkSize; lia). lia.
  - intros Hfit. unfold trimPrompt in Hr. simpl in Hr.
    unfold trimPrompt_body in Hr. destruct (is_empty text) eqn:Ee.
    + apply is_empty_true in Ee. subst text. now inversion Hr.
    + rewrite (proj2 (Z.leb_le _ _) Hfit) in Hr. now inversion Hr.
  - intros ->. unfold trimPrompt in Hr. simpl in Hr. now inversion Hr.
Qed.

End Size.

Lemma trimPrompt_never_lengthens_witness :
  splitter_never_lengthens (S_ := lineSplitter)
  /\ exists r,
       trimPrompt (E := encode4) (S_ := lineSplitter) sample_titled 100 = Some r
       /\ strlen r <= strlen sample_titled.
Proof.
  split; [exact lineSplitter_never_lengthens|].
  destruct (trimPrompt_never_lengthens (E := encode4) (S_ := lineSplitter)
              lineSplitter_never_lengthens sample_titled 100)
    as (r & Hr & Hlen & _).
  exists r. split; [exact Hr|exact Hlen].
Defined.

End PromptBudgeterFacts.

(* ===================================================================== *)
(** * File validation and upload *)
(* ===================================================================== *)

Module Upload.

(** [ALLOWED_IMAGE_TYPES] *)
Definition ALLOWED_IMAGE_TYPES : list string :=
  ("image/jpeg" :: "image/png" :: "image/gif" :: "image/webp" :: nil)%string.

(** [ALLOWED_DOCUMENT_TYPES] *)
Definition ALLOWED_DOCUMENT_TYPES : list string :=
  ("application/pdf" :: "text/plain" :: "text/markdown"
   :: "application/vnd.openxmlformats-officedocument.wordprocessingml.document"
   :: "application/msword" :: nil)%string.

(** [MAX_FILE_SIZE = 10 * 1024 * 1024] *)
Definition MAX_FILE_SIZE : Z := 10 * 1024 * 1024.

(** [list.includes(s)] *)
Definition includes (l : list string) (s : string) : bool :=
  existsb (String.eqb s) l.

(** The name ends with [suffix], letters compared without case: what
    [/suffix$/i] tests for a suffix of lower-case ASCII letters and dots. *)
Definition ends_with_ci (suffix name : string) : bool :=
  let n := String.length name in
  let k := String.length suffix in
  if (k <=? n)%nat
  then String.eqb (Providers.lower_string (substring (n - k) k name)) suffix
  else false.

(** [originalName.match(/\.(txt|md)$/i)] *)
Definition isTextFile (originalName : string) : bool :=
  ends_with_ci ".txt" originalName || ends_with_ci ".md" originalName.

(** ['image' | 'document'] *)
Inductive fileType : Type := image | document.

(** The three [valid: false] results. *)
Inductive validation_error : Type :=
| TooLarge
| UnknownType
| Unsupported (mimeType : string).

(** [FileValidationResult] *)
Inductive FileValidationResult : Type :=
| Invalid (err : validation_error)
| Valid (ft : fileType) (mimeType : string).

(** [validateFile(buffer, originalName, size)]; [detected] is the [mime] of
    the result of [fileTypeFromBuffer(buffer)], [None] when that result is
    [undefined]. *)
Definition validateFile (detected : option string) (originalName : string)
    (size : Z) : FileValidationResult :=
  if MAX_FILE_SIZE <? size then Invalid TooLarge
  else
    let isText := isTextFile originalName in
    match detected, isText with
    | None, false => Invalid UnknownType
    | _, _ =>
        let mimeType :=
          Providers.or_else (Providers.truthy detected)
                            (if isText then "text/plain" else EmptyString) in
        if includes ALLOWED_IMAGE_TYPES mimeType then Valid image mimeType
        else if includes ALLOWED_DOCUMENT_TYPES mimeType || isText
        then Valid document
                   (Providers.or_else (Providers.truthy (Some mimeType)) "text/plain")
        else Invalid (Unsupported mimeType)
    end.

(** The extractors behind [extractTextFromDocument]. *)
Inductive extractor : Type := PDF | DOCX | PlainText.

(** The [switch] of [extractTextFromDocument]: [None] is the [default]
    branch, which throws. *)
Definition extractor_for (mimeType : string) : option extractor :=
  if String.eqb mimeType "application/pdf" then Some PDF
  else if String.eqb mimeType
            "application/vnd.openxmlformats-officedocument.wordprocessingml.document"
          || String.eqb mimeType "application/msword" then Some DOCX
  else if String.eqb mimeType "text/plain" || String.eqb mimeType "text/markdown"
  then Some PlainText
  else None.

(** One uploaded file, with what the environment does with it: the type
    that [fileTypeFromBuffer] detects (the detection itself is taken not to
    throw), the name that [generateUniqueFilename] draws, whether [saveFile]
    succeeds, and the text that the extractor returns ([None] when it
    throws). *)
Record upload_file : Type := mkUpload {
  originalname : string;
  size : Z;
  detected : option string;
  uniqueFilename : string;
  save_ok : bool;
  text : option string
}.

(** [extractTextFromDocument(buffer, mimeType)]: [None] when it throws. *)
Definition extractTextFromDocument (f : upload_file) (mimeType : string)
  : option string :=
  match extractor_for mimeType with
  | Some _ => text f
  | None => None
  end.

(** [FileAttachment] *)
Record FileAttachment : Type := mkAttachment {
  a_id : string;
  a_name : string;
  a_size : Z;
  a_type : fileType;
  a_mimeType : string;
  a_url : string;
  a_extractedText : option string
}.

(** The entries of [errors], each with the name of the file. *)
Inductive upload_error : Type :=
| ValidationFailed (name : string) (err : validation_error)
| ExtractFailed (name : string)
| ProcessingFailed (name : string).

(** The state of the loop over the files: [processedFiles], [errors], and
    the names written to the upload directory. *)
Record upload_state : Type := mkUploadState {
  processedFiles : list FileAttachment;
  errors : list upload_error;
  disk : list string
}.

(** The body of [for (const file of files)]. *)
Definition process_file (st : upload_state) (f : upload_file) : upload_state :=
  match validateFile (detected f) (originalname f) (size f) with
  | Invalid err =>
      {| processedFiles := processedFiles st;
         errors := errors st ++ ValidationFailed (originalname f) err :: nil;
         disk := disk st |}
  | Valid ft mimeType =>
      if negb (save_ok f)
      then {| processedFiles := processedFiles st;
              errors := errors st ++ ProcessingFailed (originalname f) :: nil;
              disk := disk st |}
      else
        let disk' := disk st ++ uniqueFilename f :: nil in
        let attach extracted :=
          {| processedFiles :=
               processedFiles st
               ++ {| a_id := uniqueFilename f; a_name := originalname f;
                     a_size := size f; a_type := ft; a_mimeType := mimeType;
                     a_url := ("/uploads/" ++ uniqueFilename f)%string;
                     a_extractedText := extracted |} :: nil;
             errors := errors st; disk := disk' |} in
        match ft with
        | image => attach None
        | document =>
            match extractTextFromDocument f mimeType with
            | Some t => attach (Some t)
            | None =>
                {| processedFiles := processedFiles st;
                   errors := errors st ++ ExtractFailed (originalname f) :: nil;
                   disk := disk' |}
            end
        end
  end.

(** The answers of [POST /upload]. *)
Inductive upload_response : Type :=
| NoFilesUploaded
| NoneProcessed (details : list upload_error)
| Uploaded (files : list FileAttachment) (errs : option (list upload_error)).

(** [POST /upload]: the answer and the names written to disk. *)
Definition post_upload (files : list upload_file)
  : upload_response * list string :=
  match files with
  | nil => (NoFilesUploaded, nil)
  | _ :: _ =>
      let st := fold_left process_file files
                  {| processedFiles := nil; errors := nil; disk := nil |} in
      (match processedFiles st with
       | nil => NoneProcessed (errors st)
       | _ :: _ =>
           Uploaded (processedFiles st)
                    (match errors st with nil => None | es => Some es end)
       end, disk st)
  end.

(** The file passes validation as a document, is saved, and its text
    cannot be extracted. *)
Definition extraction_fails (f : upload_file) : bool :=
  match validateFile (detected f) (originalname f) (size f) with
  | Valid document mimeType =>
      save_ok f && match extractTextFromDocument f mimeType with
                   | None => true | Some _ => false end
  | _ => false
  end.

(** An attachment as the loop builds them: on disk under its id, an image
    without text, a document with its extracted text. *)
Definition attachment_ok (onDisk : list string) (a : FileAttachment) : Prop :=
  In (a_id a) onDisk
  /\ a_url a = ("/uploads/" ++ a_id a)%string
  /\ match a_type a with
     | image => a_extractedText a = None /\ In (a_mimeType a) ALLOWED_IMAGE_TYPES
     | document => is_Some (a_extractedText a)
     end.

(** The state before the first file. *)
Definition start : upload_state :=
  {| processedFiles := nil; errors := nil; disk := nil |}.

(** Sample files: a PNG, a note, and an archive that is named like a text
    file. *)
Definition sample_png : upload_file :=
  {| originalname := "cat.PNG"; size := 2048; detected := Some "image/png"%string;
     uniqueFilename := "1-aaaaaa-cat.PNG"; save_ok := true; text := None |}.

Definition sample_note : upload_file :=
  {| originalname := "notes.MD"; size := 12; detected := None;
     uniqueFilename := "2-bbbbbb-notes.MD"; save_ok := true;
     text := Some "hello"%string |}.

Definition sample_zip_as_txt : upload_file :=
  {| originalname := "payload.txt"; size := 4096;
     detected := Some "application/zip"%string;
     uniqueFilename := "3-cccccc-payload.txt"; save_ok := true;
     text := Some "PK"%string |}.

(** ** Validation *)

Example isTextFile_samples :
  isTextFile "notes.MD" = true /\ isTextFile "a.txt" = true
  /\ isTextFile "txt" = false /\ isTextFile "a.txt.zip" = false
  /\ isTextFile "readme.md5" = false.
Proof. repeat split. Qed.

Lemma includes_In (l : list string) (s : string) :
  includes l s = true <-> In s l.
Proof.
  unfold includes. rewrite existsb_exists. split.
  - intros (x & Hx & He). apply String.eqb_eq in He. now subst.
  - intros Hin. exists s. split; [exact Hin|apply String.eqb_refl].
Qed.

(** The result of [validateFile], case by case. *)
Lemma validateFile_cases (det : option string) (name : string) (sz : Z) :
  validateFile det name sz
  = if MAX_FILE_SIZE <? sz then Invalid TooLarge
    else match Providers.truthy det with
         | Some m =>
             if includes ALLOWED_IMAGE_TYPES m then Valid image m
             else if includes ALLOWED_DOCUMENT_TYPES m || isTextFile name
                  then Valid document m
                  else Invalid (Unsupported m)
         | None =>
             if isTextFile name then Valid document "text/plain"
             else match det with
                  | None => Invalid UnknownType
                  | Some _ => Invalid (Unsupported EmptyString)
                  end
         end.
Proof.
  unfold validateFile. destruct (MAX_FILE_SIZE <? sz); [reflexivity|].
  destruct det as [[|c r]|]; destruct (isTextFile name); reflexivity.
Qed.

Lemma truthy_Some (det : option string) (m : string) :
  Providers.truthy det = Some m -> det = Some m.
Proof. destruct det as [[|c r]|]; simpl; congruence. Qed.

Lemma validateFile_accepts_aux (det : option string) (name : string) (sz : Z) :
  ((exists ft m, validateFile det name sz = Valid ft m)
   <-> sz <= MAX_FILE_SIZE
       /\ (isTextFile name = true
           \/ exists m, det = Some m
                        /\ (In m ALLOWED_IMAGE_TYPES \/ In m ALLOWED_DOCUMENT_TYPES)))
  /\ (forall m, validateFile det name sz = Valid image m ->
        det = Some m /\ In m ALLOWED_IMAGE_TYPES)
  /\ (forall m, validateFile det name sz = Valid document m ->
        In m ALLOWED_DOCUMENT_TYPES
        \/ (isTextFile name = true /\ det = Some m)).
Proof.
  rewrite validateFile_cases.
  destruct (Z.ltb_spec MAX_FILE_SIZE sz) as [Hbig|Hok].
  { split; [split|split].
    - intros (ft & m & H). discriminate.
    - intros [H _]. lia.
    - intros m H. discriminate.
    - intros m H. discriminate. }
  destruct (Providers.truthy det) as [m0|] eqn:Hd.
  - apply truthy_Some in Hd as Hdet.
    destruct (includes ALLOWED_IMAGE_TYPES m0) eqn:Hi.
    + apply includes_In in Hi. split; [split|split].
      * intros _. split; [lia|]. right. eauto.
      * intros _. eauto.
      * intros m [= <-]. auto.
      * intros m H. discriminate.
    + destruct (includes ALLOWED_DOCUMENT_TYPES m0) eqn:Hdoc; simpl.
      * apply includes_In in Hdoc. split; [split|split].
        -- intros _. split; [lia|]. right. eauto.
        -- intros _. eauto.
        -- intros m H. discriminate.
        -- intros m [= <-]. auto.
      * destruct (isTextFile name) eqn:Ht; split; [split|split| split|split].
        -- intros _. split; [lia|]. now left.
        -- intros _. eauto.
        -- intros m H. discriminate.
        -- intros m [= <-]. auto.
        -- intros (ft & m & H). discriminate.
        -- intros [_ [H|(m & Hm & [H|H])]]; [discriminate| |];
             rewrite Hdet in Hm; inversion Hm; subst m.
           ++ pose proof (proj2 (includes_In ALLOWED_IMAGE_TYPES m0) H). congruence.
           ++ pose proof (proj2 (includes_In ALLOWED_DOCUMENT_TYPES m0) H). congruence.
        -- intros m H. discriminate.
        -- intros m H. discriminate.
  - destruct (isTextFile name) eqn:Ht.
    + split; [split|split].
      * intros _. split; [lia|]. now left.
      * intros _. eauto.
      * intros m H. discriminate.
      * intros m [= <-]. left. simpl. auto.
    + assert (Hno : forall m, det = Some m ->
                      ~ (In m ALLOWED_IMAGE_TYPES \/ In m ALLOWED_DOCUMENT_TYPES)).
      { intros m ->. destruct m as [|c r]; [|discriminate Hd].
        simpl. intuition discriminate. }
      split; [split|split].
      * intros (ft & m & H). destruct det; discriminate.
      * intros [_ [H|(m & Hm & H)]]; [discriminate|]. exfalso. now apply (Hno m).
      * intros m H. destruct det; discriminate.
      * intros m H. destruct det; discriminate.
Qed.

(** X24: [validateFile] accepts a file exactly when it is at most 10 MB and
    either its detected type is an allowed image or document type, or its
    name ends in [.txt] or [.md] (in any case of the letters), whatever
    type was detected in its content. An accepted image always has a
    detected, allowed image type; an accepted document whose type is not an
    allowed document type was accepted for its name. *)
Theorem validateFile_accepts (det : option string) (name : string) (sz : Z) :
  ((exists ft m, validateFile det name sz = Valid ft m)
   <-> sz <= MAX_FILE_SIZE
       /\ (isTextFile name = true
           \/ exists m, det = Some m
                        /\ (In m ALLOWED_IMAGE_TYPES \/ In m ALLOWED_DOCUMENT_TYPES)))
  /\ (forall m, validateFile det name sz = Valid image m ->
        det = Some m /\ In m ALLOWED_IMAGE_TYPES)
  /\ (forall m, validateFile det name sz = Valid document m ->
        In m ALLOWED_DOCUMENT_TYPES
        \/ (isTextFile name = true /\ det = Some m)).
Proof. apply validateFile_accepts_aux. Qed.

(** X25: the allowed document types and the extractors agree: a type has an
    extractor exactly when it is an allowed document type. So the only
    validated documents for which [extractTextFromDocument] throws without
    looking at the content are those that were accepted for their name and
    whose detected type is not an allowed document type. *)
Theorem document_types_have_extractors (m : string) :
  (is_Some (extractor_for m) <-> In m ALLOWED_DOCUMENT_TYPES)
  /\ forall det name sz f,
       validateFile det name sz = Valid document m ->
       extractTextFromDocument f m = None ->
       text f = None \/ (isTextFile name = true /\ det = Some m
                         /\ ~ In m ALLOWED_DOCUMENT_TYPES).
Proof.
  assert (Hiff : is_Some (extractor_for m) <-> In m ALLOWED_DOCUMENT_TYPES).
  { rewrite <- includes_In. unfold extractor_for, includes, ALLOWED_DOCUMENT_TYPES.
    simpl.
    destruct (String.eqb m "application/pdf");
      destruct (String.eqb m "text/plain");
      destruct (String.eqb m "text/markdown");
      destruct (String.eqb m
        "application/vnd.openxmlformats-officedocument.wordprocessingml.document");
      destruct (String.eqb m "application/msword"); simpl;
      split; intros H; try reflexivity; try discriminate; eauto;
      try (destruct H as [x Hx]; discriminate). }
  split; [exact Hiff|].
  intros det name sz f Hv Hex. unfold extractTextFromDocument in Hex.
  destruct (extractor_for m) as [ex|] eqn:Hm; [now left|]. right.
  assert (Hnin : ~ In m ALLOWED_DOCUMENT_TYPES).
  { intros Hin. apply Hiff in Hin. destruct Hin as [x Hx]. discriminate. }
  destruct (proj2 (proj2 (validateFile_accepts_aux det name sz)) m Hv)
    as [Hin|[Ht Hd]]; [contradiction|auto].
Qed.

(** ** The upload loop *)

Lemma attachment_ok_mono (d1 d2 : list string) (a : FileAttachment) :
  attachment_ok d1 a -> attachment_ok (d1 ++ d2) a.
Proof.
  intros (H1 & H2 & H3). split; [|split]; auto. apply in_or_app. now left.
Qed.

Lemma process_file_accounts (st : upload_state) (f : upload_file) :
  (List.length (processedFiles (process_file st f))
   + List.length (errors (process_file st f))
   = S (List.length (processedFiles st) + List.length (errors st)))%nat
  /\ (List.length (disk (process_file st f))
      = List.length (disk st)
        + (List.length (processedFiles (process_file st f))
           - List.length (processedFiles st))
        + (if extraction_fails f then 1 else 0))%nat
  /\ (List.length (processedFiles st)
      <= List.length (processedFiles (process_file st f)))%nat
  /\ (exists more, disk (process_file st f) = disk st ++ more
                   /\ (extraction_fails f = true -> In (uniqueFilename f) more))
  /\ (Forall (attachment_ok (disk st)) (processedFiles st) ->
      Forall (attachment_ok (disk (process_file st f)))
             (processedFiles (process_file st f))).
Proof.
  unfold process_file, extraction_fails.
  destruct (validateFile (detected f) (originalname f) (size f)) as [err|ft m] eqn:Hv.
  - cbn. rewrite length_app. simpl. repeat split; try lia.
    + exists nil. rewrite app_nil_r. split; [reflexivity|discriminate].
    + auto.
  - destruct (save_ok f); cbn [negb].
    + destruct ft.
      * cbn. rewrite !length_app. simpl. repeat split; try lia.
        -- eexists. split; [reflexivity|discriminate].
        -- intros Hall. apply Forall_app. split.
           ++ eapply List.Forall_impl; [|exact Hall]. intros a Ha.
              now apply attachment_ok_mono.
           ++ constructor; [|constructor]. split; [|split]; cbn.
              ** apply in_or_app. right. now left.
              ** reflexivity.
              ** split; [reflexivity|].
                 now destruct (proj1 (proj2 (validateFile_accepts_aux _ _ _)) m Hv).
      * destruct (extractTextFromDocument f m) as [t|] eqn:Hex.
        -- cbn. rewrite !length_app. simpl. repeat split; try lia.
           ++ eexists. split; [reflexivity|discriminate].
           ++ intros Hall. apply Forall_app. split.
              ** eapply List.Forall_impl; [|exact Hall]. intros a Ha.
                 now apply attachment_ok_mono.
              ** constructor; [|constructor]. split; [|split]; cbn; eauto.
                 apply in_or_app. right. now left.
        -- cbn. rewrite !length_app. simpl. repeat split; try lia.
           ++ eexists. split; [reflexivity|]. intros _. now left.
           ++ intros Hall. eapply List.Forall_impl; [|exact Hall]. intros a Ha.
              now apply attachment_ok_mono.
    + destruct ft; cbn; rewrite length_app; simpl; repeat split; try lia;
        try (exists nil; rewrite app_nil_r; split; [reflexivity|discriminate]);
        auto.
Qed.

Lemma upload_loop_accounts (files : list upload_file) (st : upload_state) :
  let st' := fold_left process_file files st in
  (List.length (processedFiles st') + List.length (errors st')
   = List.length files + (List.length (processedFiles st) + List.length (errors st)))%nat
  /\ (List.length (disk st') + List.length (processedFiles st)
      = List.length (disk st) + List.length (processedFiles st')
        + List.length (List.filter extraction_fails files))%nat
  /\ (List.length (processedFiles st) <= List.length (processedFiles st'))%nat
  /\ (exists more, disk st' = disk st ++ more
                   /\ forall f, In f files -> extraction_fails f = true ->
                                In (uniqueFilename f) more)
  /\ (Forall (attachment_ok (disk st)) (processedFiles st) ->
      Forall (attachment_ok (disk st')) (processedFiles st')).
Proof.
  revert st; induction files as [|f files IH]; intros st; simpl.
  - repeat split; try lia.
    + exists nil. rewrite app_nil_r. split; [reflexivity|intros f []].
    + auto.
  - destruct (process_file_accounts st f) as (H1 & H2 & H3 & (m1 & Hm1 & Hf1) & H5).
    destruct (IH (process_file st f)) as (I1 & I2 & I3 & (m2 & Hm2 & Hf2) & I5).
    split; [lia|]. split; [|split; [lia|split]].
    + destruct (extraction_fails f); simpl; lia.
    + exists (m1 ++ m2). split; [now rewrite Hm2, Hm1, app_assoc|].
      intros g [<-|Hg] Hfail; apply in_or_app; [left; auto|right; eauto].
    + auto.
Qed.

(** X26: [POST /upload] accounts for every file: each file ends up either
    as one attachment of the answer or as one error; the request is
    refused when no file was sent or when no file could be processed, and
    otherwise the answer lists the attachments, with the errors only when
    there are some. Every attachment carries the URL of its id; an image
    has an allowed image type and no text, a document always has its
    extracted text. *)
Theorem upload_accounts_for_every_file (files : list upload_file) :
  let st := fold_left process_file files start in
  (List.length (processedFiles st) + List.length (errors st)
   = List.length files)%nat
  /\ Forall (attachment_ok (disk st)) (processedFiles st)
  /\ fst (post_upload files)
     = match files, processedFiles st, errors st with
       | nil, _, _ => NoFilesUploaded
       | _, nil, es => NoneProcessed es
       | _, atts, nil => Uploaded atts None
       | _, atts, es => Uploaded atts (Some es)
       end.
Proof.
  intros st. destruct (upload_loop_accounts files start) as (H1 & _ & _ & _ & H5).
  fold st in H1, H5. simpl in H1. split; [lia|]. split; [apply H5; constructor|].
  unfold post_upload. destruct files as [|f files]; [reflexivity|].
  fold start. fold st. cbn [fst].
  destruct (processedFiles st); [reflexivity|]. now destruct (errors st).
Qed.

(** X27: what [POST /upload] leaves on disk: every attachment of the answer
    is there under its id, and so is every document that was saved before
    its text extraction failed, although the answer reports it as an error;
    nothing else is written. *)
Theorem upload_leaves_failed_documents_on_disk (files : list upload_file) :
  let st := fold_left process_file files start in
  snd (post_upload files) = disk st
  /\ Forall (fun a => In (a_id a) (disk st)) (processedFiles st)
  /\ (forall f, In f files -> extraction_fails f = true ->
        In (uniqueFilename f) (disk st))
  /\ List.length (disk st)
     = (List.length (processedFiles st)
        + List.length (List.filter extraction_fails files))%nat.
Proof.
  intros st.
  destruct (upload_loop_accounts files start) as (_ & H2 & _ & (more & Hm & Hf) & H5).
  fold st in H2, Hm, H5. simpl in H2, Hm. split; [|split; [|split]].
  - unfold post_upload. destruct files; reflexivity.
  - eapply List.Forall_impl; [|apply H5; constructor]. now intros a (Ha & _).
  - intros f Hin Hfail. rewrite Hm. eauto.
  - lia.
Qed.

(** The archive that is named like a text file passes validation, is
    written to disk, and is then reported as a failed extraction. *)
Example zip_named_txt_is_saved :
  validateFile (detected sample_zip_as_txt) (originalname sample_zip_as_txt)
               (size sample_zip_as_txt)
  = Valid document "application/zip"
  /\ post_upload (sample_png :: sample_zip_as_txt :: sample_note :: nil)
     = (Uploaded
          ({| a_id := "1-aaaaaa-cat.PNG"; a_name := "cat.PNG"; a_size := 2048;
              a_type := image; a_mimeType := "image/png";
              a_url := "/uploads/1-aaaaaa-cat.PNG"; a_extractedText := None |}
           :: {| a_id := "2-bbbbbb-notes.MD"; a_name := "notes.MD"; a_size := 12;
                 a_type := document; a_mimeType := "text/plain";
                 a_url := "/uploads/2-bbbbbb-notes.MD";
                 a_extractedText := Some "hello"%string |} :: nil)
          (Some (ExtractFailed "payload.txt" :: nil)),
        ("1-aaaaaa-cat.PNG" :: "3-cccccc-payload.txt" :: "2-bbbbbb-notes.MD"
         :: nil)%string).
Proof. split; vm_compute; reflexivity. Qed.

End Upload.
